(** * Link2Gether: queue controller, player bridge, watch sessions,
      achievements and persistence

    A shallow embedding of the watch-party client:
    - [utils/validation.js] and [utils/constants.js] (module [Validation]),
    - [components/achievementManager.js] (the [useAchievements] hook),
    - the [App] component that owns the queue and talks to the player.

    Platform pieces the code calls ([parseFloat], [Math.min], [JSON],
    [localStorage], [String.prototype.trim]) are modelled in module [JS]
    after ECMAScript, with two idealisations that are stated once here:
    finite numbers are exact rationals (no IEEE-754 rounding or overflow),
    and strings are sequences of 8-bit code units. *)

From Stdlib Require Import ZArith QArith Qcanon Lia Lqa List Bool Ascii String.
From stdpp Require Import base gmap strings.
Import ListNotations.

Local Open Scope string_scope.
Local Open Scope list_scope.
Local Open Scope Z_scope.

(* ===================================================================== *)
(** * The JavaScript platform                                             *)
(* ===================================================================== *)

Module JS.

(** ** Numbers *)

Local Set Warnings "-register-all".

(** A JS number: NaN, the two infinities, or a finite value. *)
Inductive number : Type :=
  | NaN
  | NegInfinity
  | Finite (q : Qc)
  | PosInfinity.

Definition num_of_Z (z : Z) : number := Finite (Q2Qc (inject_Z z)).

Definition Qcltb (x y : Qc) : bool :=
  match (x ?= y)%Qc with Lt => true | _ => false end.

(** [a < b] on numbers; every comparison with NaN is false. *)
Definition num_ltb (a b : number) : bool :=
  match a, b with
  | NaN, _ | _, NaN => false
  | NegInfinity, NegInfinity => false
  | NegInfinity, _ => true
  | _, NegInfinity => false
  | PosInfinity, _ => false
  | Finite _, PosInfinity => true
  | Finite x, Finite y => Qcltb x y
  end.

(** [a <= b] on numbers. *)
Definition num_leb (a b : number) : bool :=
  match a, b with
  | NaN, _ | _, NaN => false
  | _, _ => negb (num_ltb b a)
  end.

Definition isNaN (a : number) : bool :=
  match a with NaN => true | _ => false end.

(** [Math.min(a, b)] and [Math.max(a, b)]: NaN if either argument is. *)
Definition Math_min (a b : number) : number :=
  match a, b with
  | NaN, _ | _, NaN => NaN
  | _, _ => if num_ltb b a then b else a
  end.

Definition Math_max (a b : number) : number :=
  match a, b with
  | NaN, _ | _, NaN => NaN
  | _, _ => if num_ltb a b then b else a
  end.

(** ** Characters and strings *)

Definition chars := list ascii.

(** The double quote character. *)
Definition dquote : ascii := ascii_of_nat 34.

(** Writes a text that contains double quotes with single quotes
    instead: [requote] turns every ['] into a double quote. *)
Definition requote (s : string) : string :=
  string_of_list_ascii
    (map (fun c => if Ascii.eqb c "'" then dquote else c)
         (list_ascii_of_string s)).

Definition is_digit (c : ascii) : bool :=
  let n := nat_of_ascii c in ((48 <=? n) && (n <=? 57))%nat.

Definition digit_val (c : ascii) : Z := Z.of_nat (nat_of_ascii c) - 48.

(** White space and line terminators, as [trim] and [parseFloat] skip
    them: TAB, LF, VT, FF, CR, SPACE and NBSP. *)
Definition is_space (c : ascii) : bool :=
  let n := nat_of_ascii c in
  (((9 <=? n) && (n <=? 13)) || (n =? 32) || (n =? 160))%nat.

Fixpoint skip_spaces (s : chars) : chars :=
  match s with
  | c :: s' => if is_space c then skip_spaces s' else s
  | [] => []
  end.

(** [s.trim()] *)
Definition trim_chars (s : chars) : chars :=
  rev (skip_spaces (rev (skip_spaces s))).

Definition trim (s : string) : string :=
  string_of_list_ascii (trim_chars (list_ascii_of_string s)).

(** [s.substring(0, n)] for [n >= 0] *)
Definition substring0 (n : nat) (s : string) : string :=
  String.substring 0 n s.

(** Splits off the longest run of decimal digits. *)
Fixpoint take_digits (s : chars) : chars * chars :=
  match s with
  | c :: s' =>
      if is_digit c
      then let '(ds, rest) := take_digits s' in (c :: ds, rest)
      else ([], s)
  | [] => ([], [])
  end.

Definition digits_val (ds : chars) : Z :=
  fold_left (fun acc c => 10 * acc + digit_val c) ds 0.

Fixpoint starts_with (p s : chars) : option chars :=
  match p, s with
  | [], _ => Some s
  | a :: p', b :: s' => if Ascii.eqb a b then starts_with p' s' else None
  | _ :: _, [] => None
  end.

(** The value [m * 10^e] as a number. *)
Definition scale10 (m e : Z) : number :=
  if 0 <=? e
  then num_of_Z (m * 10 ^ e)
  else Finite (Q2Qc (Qmake m (Z.to_pos (10 ^ (- e))))).

(** An optional [ExponentPart]: [e] or [E], an optional sign and at least
    one digit.  Without the digits the exponent is not part of the
    literal and counts as 0. *)
Definition read_exponent (s : chars) : Z * chars :=
  match s with
  | c :: s1 =>
      if Ascii.eqb c "e" || Ascii.eqb c "E" then
        let '(neg, s2) :=
          match s1 with
          | d :: s2 =>
              if Ascii.eqb d "-" then (true, s2)
              else if Ascii.eqb d "+" then (false, s2)
              else (false, s1)
          | [] => (false, s1)
          end in
        match take_digits s2 with
        | ([], _) => (0, s)
        | (ds, rest) => ((if neg then - digits_val ds else digits_val ds), rest)
        end
      else (0, s)
  | [] => (0, s)
  end.

(** The longest prefix that is a [StrUnsignedDecimalLiteral], as a number
    of the given sign; NaN when there is none. *)
Definition read_unsigned_decimal (neg : bool) (s : chars) : number :=
  match starts_with (list_ascii_of_string "Infinity") s with
  | Some _ => if neg then NegInfinity else PosInfinity
  | None =>
      let '(ip, s1) := take_digits s in
      let '(fp, s2) :=
        match s1 with
        | c :: s1' => if Ascii.eqb c "." then take_digits s1' else ([], s1)
        | [] => ([], s1)
        end in
      match ip, fp with
      | [], [] => NaN
      | _, _ =>
          let m := digits_val (ip ++ fp) in
          let '(e, _) := read_exponent s2 in
          scale10 (if neg then - m else m) (e - Z.of_nat (List.length fp))
      end
  end.

(** [parseFloat] on a string: leading white space is skipped, then the
    longest prefix that is a decimal literal is read; anything after it
    is ignored. *)
Definition parseFloat_string (s : string) : number :=
  match skip_spaces (list_ascii_of_string s) with
  | c :: s' =>
      if Ascii.eqb c "-" then read_unsigned_decimal true s'
      else if Ascii.eqb c "+" then read_unsigned_decimal false s'
      else read_unsigned_decimal false (c :: s')
  | [] => NaN
  end.

(** ** Numbers as text *)

Definition digit_char (d : Z) : ascii := ascii_of_nat (Z.to_nat (48 + d)).

Fixpoint nat_digits (fuel : nat) (n : Z) (acc : chars) : chars :=
  match fuel with
  | O => acc
  | S fuel' =>
      let acc' := digit_char (n mod 10) :: acc in
      if n <? 10 then acc' else nat_digits fuel' (n / 10) acc'
  end.

(** Decimal digits of [n >= 0]. *)
Definition decimal_of_nonneg (n : Z) : chars :=
  nat_digits (S (Z.to_nat (Z.log2 n))) n [].

(** Digits of the fraction [r / d] with [0 <= r < d]. *)
Fixpoint frac_digits (fuel : nat) (r d : Z) : chars :=
  match fuel with
  | O => []
  | S fuel' =>
      if r =? 0 then []
      else digit_char (10 * r / d) :: frac_digits fuel' (10 * r mod d) d
  end.

(** A finite number in plain decimal notation.  The expansion is cut
    after as many fraction digits as the denominator has bits, which is
    exact for every finite decimal. *)
Definition decimal_of_Qc (q : Qc) : chars :=
  let n := Qnum q in
  let d := Zpos (Qden q) in
  let a := Z.abs n in
  let ip := decimal_of_nonneg (a / d) in
  let fp := frac_digits (Pos.size_nat (Qden q)) (a mod d) d in
  (if n <? 0 then ["-"%char] else []) ++ ip ++
  (match fp with [] => [] | _ => "."%char :: fp end).

(** ** Values *)

(** The JS values the program stores, sends and receives.  An object is
    its list of own properties in insertion order. *)
Inductive JSValue : Type :=
  | JUndefined
  | JNull
  | JBool (b : bool)
  | JNumber (n : number)
  | JString (s : string)
  | JArray (xs : list JSValue)
  | JObject (props : list (string * JSValue)).

(** [typeof v] *)
Definition typeof (v : JSValue) : string :=
  match v with
  | JUndefined => "undefined"
  | JNull | JArray _ | JObject _ => "object"
  | JBool _ => "boolean"
  | JNumber _ => "number"
  | JString _ => "string"
  end.

(** [Array.isArray(v)] *)
Definition Array_isArray (v : JSValue) : bool :=
  match v with JArray _ => true | _ => false end.

(** Truthiness, as [if (v)], [!v] and [v && ...] test it. *)
Definition truthy (v : JSValue) : bool :=
  match v with
  | JUndefined | JNull => false
  | JBool b => b
  | JNumber NaN => false
  | JNumber (Finite q) => negb (Qc_eq_bool q (Q2Qc 0))
  | JNumber _ => true
  | JString s => negb (String.eqb s "")
  | JArray _ | JObject _ => true
  end.

(** [v === lit] for a primitive literal [lit].  Objects and arrays are
    compared by identity in JS, so a received one never equals a
    literal. *)
Definition strict_eq (v lit : JSValue) : bool :=
  match v, lit with
  | JUndefined, JUndefined | JNull, JNull => true
  | JBool a, JBool b => Bool.eqb a b
  | JNumber (Finite a), JNumber (Finite b) => Qc_eq_bool a b
  | JNumber NegInfinity, JNumber NegInfinity => true
  | JNumber PosInfinity, JNumber PosInfinity => true
  | JString a, JString b => String.eqb a b
  | _, _ => false
  end.

Fixpoint assoc_get {A} (k : string) (l : list (string * A)) : option A :=
  match l with
  | (k', v) :: l' => if String.eqb k k' then Some v else assoc_get k l'
  | [] => None
  end.

(** Assignment [o[k] = v]: an existing property keeps its place. *)
Fixpoint assoc_set {A} (k : string) (v : A) (l : list (string * A))
  : list (string * A) :=
  match l with
  | (k', v') :: l' =>
      if String.eqb k k' then (k', v) :: l' else (k', v') :: assoc_set k v l'
  | [] => [(k, v)]
  end.

(** Property read [v.k] of an own data property.  [None] is the
    TypeError that reading a property of [null] or [undefined] throws; a
    missing property reads as [undefined], and the values that are not
    objects have none of the names the program asks for. *)
Definition get_prop (v : JSValue) (k : string) : option JSValue :=
  match v with
  | JUndefined | JNull => None
  | JObject props =>
      Some (match assoc_get k props with Some x => x | None => JUndefined end)
  | _ => Some JUndefined
  end.

(** [ToString(n)] of a number, a finite one in plain decimal notation *)
Definition Number_toString (n : number) : string :=
  match n with
  | NaN => "NaN"
  | PosInfinity => "Infinity"
  | NegInfinity => "-Infinity"
  | Finite q => string_of_list_ascii (decimal_of_Qc q)
  end.

(** [ToString(v)].  An array is its elements joined by commas, with
    nothing for [null] and [undefined]. *)
Fixpoint ToString (v : JSValue) : string :=
  match v with
  | JUndefined => "undefined"
  | JNull => "null"
  | JBool true => "true"
  | JBool false => "false"
  | JNumber n => Number_toString n
  | JString s => s
  | JArray xs =>
      let elem x :=
        match x with
        | JUndefined | JNull => ""
        | _ => ToString x
        end in
      String.concat "," (map elem xs)
  | JObject _ => "[object Object]"
  end.

(** [parseFloat(v)] *)
Definition parseFloat (v : JSValue) : number := parseFloat_string (ToString v).

(** ** [localStorage] *)

(** The origin's storage area: its items, the quota on their total size,
    and whether access is blocked (every call then throws). *)
Record Storage : Type := {
  items : gmap string string;
  quota : nat;
  blocked : bool
}.

Definition storage_size (m : gmap string string) : nat :=
  map_fold (fun k v n => String.length k + String.length v + n)%nat O m.

(** The three calls below return [None] when they throw. *)

(** [localStorage.getItem(k)]; the inner [None] is [null]. *)
Definition getItem (k : string) (st : Storage) : option (option string) :=
  if blocked st then None else Some (items st !! k).

(** [localStorage.setItem(k, v)] *)
Definition setItem (k v : string) (st : Storage) : option Storage :=
  if blocked st then None
  else
    let m := <[k := v]> (items st) in
    if (storage_size m <=? quota st)%nat
    then Some {| items := m; quota := quota st; blocked := blocked st |}
    else None.

(** [localStorage.removeItem(k)] *)
Definition removeItem (k : string) (st : Storage) : option Storage :=
  if blocked st then None
  else Some {| items := delete k (items st);
               quota := quota st; blocked := blocked st |}.

(** What the storage helpers see of their surroundings: whether there is
    a [window] at all, and its storage. *)
Record Browser : Type := {
  window_defined : bool;
  localStorage : Storage
}.

Definition with_storage (st : Storage) (b : Browser) : Browser :=
  {| window_defined := window_defined b; localStorage := st |}.

(** ** Arithmetic *)

(** [Math.floor(q)] of a finite number, as an integer *)
Definition floor (q : Qc) : Z := Qnum q / Zpos (Qden q).

(** The integer part of a finite number, towards zero. *)
Definition truncate (q : Qc) : Z := Z.quot (Qnum q) (Zpos (Qden q)).

Definition Qc_is_zero (q : Qc) : bool := Qc_eq_bool q (Q2Qc 0).

Definition num_neg (a : number) : number :=
  match a with
  | NaN => NaN
  | NegInfinity => PosInfinity
  | PosInfinity => NegInfinity
  | Finite q => Finite (- q)
  end.

(** [a / b].  Zero is the positive zero. *)
Definition num_div (a b : number) : number :=
  match a, b with
  | NaN, _ | _, NaN => NaN
  | Finite x, Finite y =>
      if Qc_is_zero y then
        if Qc_is_zero x then NaN
        else if Qcltb (Q2Qc 0) x then PosInfinity else NegInfinity
      else Finite (x / y)
  | Finite _, _ => Finite (Q2Qc 0)
  | _, Finite y => if Qcltb y (Q2Qc 0) then num_neg a else a
  | _, _ => NaN
  end.

(** [a * b] *)
Definition num_mul (a b : number) : number :=
  match a, b with
  | NaN, _ | _, NaN => NaN
  | Finite x, Finite y => Finite (x * y)
  | Finite x, inf | inf, Finite x =>
      if Qc_is_zero x then NaN
      else if Qcltb x (Q2Qc 0) then num_neg inf else inf
  | PosInfinity, PosInfinity | NegInfinity, NegInfinity => PosInfinity
  | _, _ => NegInfinity
  end.

(** [a % b]: the remainder has the sign of [a]. *)
Definition num_rem (a b : number) : number :=
  match a, b with
  | NaN, _ | _, NaN => NaN
  | Finite x, Finite y =>
      if Qc_is_zero y then NaN
      else Finite (x - y * Q2Qc (inject_Z (truncate (x / y))))
  | Finite x, _ => Finite x
  | _, _ => NaN
  end.

(** [Math.floor(a)] *)
Definition Math_floor (a : number) : number :=
  match a with
  | Finite q => num_of_Z (floor q)
  | _ => a
  end.

End JS.

(* ===================================================================== *)
(** * JSON                                                                *)
(* ===================================================================== *)

Module JSON.
Import JS.

(** ** [JSON.stringify] *)

Definition hex_char (d : nat) : ascii :=
  ascii_of_nat (if (d <? 10)%nat then 48 + d else 87 + d)%nat.

(** [QuoteJSONString]: the two-character escapes, and [\u00XX] for the
    other control characters. *)
Definition quote_char (c : ascii) : chars :=
  let n := nat_of_ascii c in
  if (n =? 34)%nat then ["\"%char; dquote]
  else if (n =? 92)%nat then ["\"; "\"]%char
  else if (n =? 8)%nat then ["\"; "b"]%char
  else if (n =? 12)%nat then ["\"; "f"]%char
  else if (n =? 10)%nat then ["\"; "n"]%char
  else if (n =? 13)%nat then ["\"; "r"]%char
  else if (n =? 9)%nat then ["\"; "t"]%char
  else if (n <? 32)%nat
       then ["\"; "u"; "0"; "0"; hex_char (n / 16); hex_char (n mod 16)]%char
  else [c].

Definition quote (s : string) : chars :=
  dquote :: flat_map quote_char (list_ascii_of_string s) ++ [dquote].

Fixpoint join (sep : chars) (parts : list chars) : chars :=
  match parts with
  | [] => []
  | [p] => p
  | p :: ps => p ++ sep ++ join sep ps
  end.

(** [SerializeJSONProperty]: [None] is the [undefined] result that makes
    an object skip the property and an array print [null]. *)
Fixpoint serialize (v : JSValue) : option chars :=
  match v with
  | JUndefined => None
  | JNull => Some (list_ascii_of_string "null")
  | JBool true => Some (list_ascii_of_string "true")
  | JBool false => Some (list_ascii_of_string "false")
  | JNumber (Finite q) => Some (decimal_of_Qc q)
  | JNumber _ => Some (list_ascii_of_string "null")
  | JString s => Some (quote s)
  | JArray xs =>
      let elem x :=
        match serialize x with
        | Some t => t
        | None => list_ascii_of_string "null"
        end in
      Some ("["%char :: join [","%char] (map elem xs) ++ ["]"%char])
  | JObject props =>
      let member kv :=
        match serialize (snd kv) with
        | Some t => [quote (fst kv) ++ ":"%char :: t]
        | None => []
        end in
      Some ("{"%char :: join [","%char] (flat_map member props) ++ ["}"%char])
  end.

(** [JSON.stringify(v)]; [None] when the result is [undefined]. *)
Definition stringify (v : JSValue) : option string :=
  option_map string_of_list_ascii (serialize v).

(** ** [JSON.parse] *)

(** JSON white space: SPACE, TAB, LF and CR. *)
Definition is_ws (c : ascii) : bool :=
  let n := nat_of_ascii c in
  ((n =? 32) || (n =? 9) || (n =? 10) || (n =? 13))%nat.

Fixpoint skip_ws (s : chars) : chars :=
  match s with
  | c :: s' => if is_ws c then skip_ws s' else s
  | [] => []
  end.

Definition hex_val (c : ascii) : option nat :=
  let n := nat_of_ascii c in
  if ((48 <=? n) && (n <=? 57))%nat then Some (n - 48)%nat
  else if ((65 <=? n) && (n <=? 70))%nat then Some (n - 55)%nat
  else if ((97 <=? n) && (n <=? 102))%nat then Some (n - 87)%nat
  else None.

(** The rest of a string literal after its opening quote.  An escape
    [\uXXXX] above [ÿ] has no 8-bit code unit and is refused. *)
Fixpoint parse_string_body (s : chars) (acc : chars)
  : option (string * chars) :=
  match s with
  | [] => None
  | c :: s1 =>
      if Ascii.eqb c dquote then Some (string_of_list_ascii (rev acc), s1)
      else if Ascii.eqb c "\" then
        match s1 with
        | e :: s2 =>
            let simple x := parse_string_body s2 (x :: acc) in
            if Ascii.eqb e dquote then simple dquote
            else if Ascii.eqb e "\" then simple "\"%char
            else if Ascii.eqb e "/" then simple "/"%char
            else if Ascii.eqb e "b" then simple (ascii_of_nat 8)
            else if Ascii.eqb e "f" then simple (ascii_of_nat 12)
            else if Ascii.eqb e "n" then simple (ascii_of_nat 10)
            else if Ascii.eqb e "r" then simple (ascii_of_nat 13)
            else if Ascii.eqb e "t" then simple (ascii_of_nat 9)
            else if Ascii.eqb e "u" then
              match s2 with
              | h1 :: h2 :: h3 :: h4 :: s3 =>
                  match hex_val h1, hex_val h2, hex_val h3, hex_val h4 with
                  | Some O, Some O, Some a, Some b =>
                      parse_string_body s3 (ascii_of_nat (16 * a + b) :: acc)
                  | _, _, _, _ => None
                  end
              | _ => None
              end
            else None
        | [] => None
        end
      else if (nat_of_ascii c <? 32)%nat then None
      else parse_string_body s1 (c :: acc)
  end.

(** A JSON number is [-? int frac? exp?], where [int] has no leading
    zero and [frac] and [exp] need at least one digit. *)

(** The optional fraction: its digits and the rest. *)
Definition parse_frac (s : chars) : option (chars * chars) :=
  match s with
  | c :: s' =>
      if Ascii.eqb c "." then
        match take_digits s' with
        | ([], _) => None
        | (fp, rest) => Some (fp, rest)
        end
      else Some ([], s)
  | [] => Some ([], s)
  end.

(** The optional exponent: its value and the rest. *)
Definition parse_exp (s : chars) : option (Z * chars) :=
  match s with
  | c :: _ =>
      if Ascii.eqb c "e" || Ascii.eqb c "E" then
        match read_exponent s with
        | (e, rest) =>
            if (List.length rest <? List.length s)%nat
            then Some (e, rest) else None
        end
      else Some (0, s)
  | [] => Some (0, s)
  end.

(** The number after its sign. *)
Definition parse_unsigned (neg : bool) (s : chars) : option (number * chars) :=
  let '(ip, s1) := take_digits s in
  match ip with
  | [] => None
  | d :: ds =>
      if Ascii.eqb d "0" && negb (match ds with [] => true | _ => false end)
      then None
      else
        match parse_frac s1 with
        | None => None
        | Some (fp, s2) =>
            match parse_exp s2 with
            | None => None
            | Some (e, s3) =>
                let m := digits_val (ip ++ fp) in
                Some (scale10 (if neg then - m else m)
                              (e - Z.of_nat (List.length fp)), s3)
            end
        end
  end.

Definition parse_number (s : chars) : option (number * chars) :=
  match s with
  | c :: s' =>
      if Ascii.eqb c "-" then parse_unsigned true s'
      else parse_unsigned false s
  | [] => None
  end.

(** Recursive descent over values, array elements and object members. *)
Fixpoint parse_value (fuel : nat) (s : chars) : option (JSValue * chars) :=
  match fuel with
  | O => None
  | S fuel' =>
      match skip_ws s with
      | [] => None
      | c :: r =>
          if Ascii.eqb c "[" then
            match skip_ws r with
            | c' :: r' =>
                if Ascii.eqb c' "]" then Some (JArray [], r')
                else parse_elements fuel' r []
            | [] => None
            end
          else if Ascii.eqb c "{" then
            match skip_ws r with
            | c' :: r' =>
                if Ascii.eqb c' "}" then Some (JObject [], r')
                else parse_members fuel' r []
            | [] => None
            end
          else if Ascii.eqb c dquote then
            match parse_string_body r [] with
            | Some (str, r') => Some (JString str, r')
            | None => None
            end
          else
            match starts_with (list_ascii_of_string "true") (c :: r),
                  starts_with (list_ascii_of_string "false") (c :: r),
                  starts_with (list_ascii_of_string "null") (c :: r) with
            | Some r', _, _ => Some (JBool true, r')
            | _, Some r', _ => Some (JBool false, r')
            | _, _, Some r' => Some (JNull, r')
            | None, None, None =>
                match parse_number (c :: r) with
                | Some (n, r') => Some (JNumber n, r')
                | None => None
                end
            end
      end
  end

with parse_elements (fuel : nat) (s : chars) (acc : list JSValue)
  : option (JSValue * chars) :=
  match fuel with
  | O => None
  | S fuel' =>
      match parse_value fuel' s with
      | Some (v, r) =>
          match skip_ws r with
          | c :: r' =>
              if Ascii.eqb c "," then parse_elements fuel' r' (v :: acc)
              else if Ascii.eqb c "]" then Some (JArray (rev (v :: acc)), r')
              else None
          | [] => None
          end
      | None => None
      end
  end

with parse_members (fuel : nat) (s : chars) (acc : list (string * JSValue))
  : option (JSValue * chars) :=
  match fuel with
  | O => None
  | S fuel' =>
      match skip_ws s with
      | q :: s1 =>
          if Ascii.eqb q dquote then
            match parse_string_body s1 [] with
            | Some (k, s2) =>
                match skip_ws s2 with
                | colon :: s3 =>
                    if Ascii.eqb colon ":" then
                      match parse_value fuel' s3 with
                      | Some (v, r) =>
                          match skip_ws r with
                          | c :: r' =>
                              if Ascii.eqb c ","
                              then parse_members fuel' r' (assoc_set k v acc)
                              else if Ascii.eqb c "}"
                              then Some (JObject (assoc_set k v acc), r')
                              else None
                          | [] => None
                          end
                      | None => None
                      end
                    else None
                | [] => None
                end
            | None => None
            end
          else None
      | [] => None
      end
  end.

(** [JSON.parse(text)]; [None] is the SyntaxError it throws.  The
    descent gets twice the length of the text as fuel, and two more. *)
Definition parse (text : string) : option JSValue :=
  let s := list_ascii_of_string text in
  match parse_value (2 * List.length s + 2) s with
  | Some (v, rest) =>
      match skip_ws rest with
      | [] => Some v
      | _ :: _ => None
      end
  | None => None
  end.

End JSON.

(* ===================================================================== *)
(** * utils/constants.js                                                  *)
(* ===================================================================== *)

Module Constants.

(** [YOUTUBE_CONFIG.ALLOWED_ORIGINS] *)
Definition ALLOWED_ORIGINS : list string :=
  ["https://www.youtube.com"; "https://youtube.com"].

(** [DISCORD_CONFIG], with the defaults used when the environment sets
    nothing *)
Definition CLIENT_ID := "1379082773410873356".
Definition REDIRECT_URI := "http://localhost:3000/api/discord-auth".
Definition OAUTH_URL := "https://discord.com/api/oauth2/authorize".
Definition SCOPE := "identify".

(** [STORAGE_KEYS] *)
Definition STATS := "achievement_stats".
Definition UNLOCKED := "achievement_unlocked".
Definition WATCH_SESSION := "watch_session_start".
Definition USERNAME := "chatUsername".
Definition VOLUME := "volume".
Definition DISCORD_AVATAR := "discordAvatar".
Definition DISCORD_USER_ID := "discordUserId".

(** [VALIDATION] *)
Definition MAX_MESSAGE_LENGTH : nat := 500.

(** A character of the class [[0-9A-Za-z_-]]. *)
Definition is_id_char (c : ascii) : bool :=
  let n := nat_of_ascii c in
  (((48 <=? n) && (n <=? 57)) || ((65 <=? n) && (n <=? 90)) ||
   ((97 <=? n) && (n <=? 122)) || (n =? 95) || (n =? 45))%nat.

(** Exactly [n] characters of the class at the head of [s]. *)
Fixpoint take_id (n : nat) (s : JS.chars) : option JS.chars :=
  match n with
  | O => Some []
  | S n' =>
      match s with
      | c :: s' =>
          if is_id_char c
          then option_map (cons c) (take_id n' s')
          else None
      | [] => None
      end
  end.

(** [VALIDATION.YOUTUBE_URL_PATTERN], the regular expression
    [(?:v=|\/)([0-9A-Za-z_-]{11}).*], searched from the left: the
    captured group of the first match. *)
Fixpoint YOUTUBE_URL_PATTERN (s : JS.chars) : option string :=
  match s with
  | [] => None
  | c :: r =>
      let here :=
        if Ascii.eqb c "v" then
          match r with
          | e :: r' => if Ascii.eqb e "=" then take_id 11 r' else None
          | [] => None
          end
        else if Ascii.eqb c "/" then take_id 11 r
        else None in
      match here with
      | Some id => Some (string_of_list_ascii id)
      | None => YOUTUBE_URL_PATTERN r
      end
  end.

Definition MAX_USERNAME_LENGTH : nat := 50.

End Constants.

(* ===================================================================== *)
(** * utils/validation.js                                                 *)
(* ===================================================================== *)

Module Validation.
Import JS Constants.

(** [sanitizeString(input, maxLength)] on a string *)
Definition sanitizeString (input : string) (maxLength : nat) : string :=
  substring0 maxLength (trim input).

(** [getYoutubeVideoId(url)] *)
Definition getYoutubeVideoId (url : string) : option string :=
  YOUTUBE_URL_PATTERN (list_ascii_of_string url).

(** [isValidYoutubeUrl(url)] *)
Definition isValidYoutubeUrl (url : string) : bool :=
  match getYoutubeVideoId url with Some _ => true | None => false end.

(** [safeJsonParse(jsonString, fallback)] *)
Definition safeJsonParse (jsonString : string) (fallback : JSValue) : JSValue :=
  match JSON.parse jsonString with
  | Some v => v
  | None => fallback
  end.

(** [isValidYoutubeOrigin(origin)] *)
Definition isValidYoutubeOrigin (origin : string) : bool :=
  existsb (String.eqb origin) ALLOWED_ORIGINS.

(** [safeLocalStorageGet(key, defaultValue, validator)]; the validator is
    optional. *)
Definition safeLocalStorageGet (key : string) (defaultValue : JSValue)
    (validator : option (JSValue -> bool)) (b : Browser) : JSValue :=
  if negb (window_defined b) then defaultValue
  else
    match getItem key (localStorage b) with
    | None => defaultValue
    | Some None => defaultValue
    | Some (Some item) =>
        let parsed := safeJsonParse item defaultValue in
        match validator with
        | Some p => if negb (p parsed) then defaultValue else parsed
        | None => parsed
        end
    end.

(** [safeLocalStorageSet(key, value)].  [setItem] converts its argument
    to a string, so an [undefined] from [JSON.stringify] is stored as
    that word. *)
Definition safeLocalStorageSet (key : string) (value : JSValue) (b : Browser)
  : Browser :=
  if negb (window_defined b) then b
  else
    let text :=
      match JSON.stringify value with
      | Some t => t
      | None => "undefined"
      end in
    match setItem key text (localStorage b) with
    | Some st => with_storage st b
    | None => b
    end.

(** [validateNumber(value, min, max)] *)
Definition validateNumber (value : JSValue) (min max : number) : number :=
  let num := parseFloat value in
  if isNaN num then min
  else Math_max min (Math_min max num).

(** A character of the class [[a-zA-Z0-9 _-]]. *)
Definition is_username_char (c : ascii) : bool :=
  let n := nat_of_ascii c in
  (((97 <=? n) && (n <=? 122)) || ((65 <=? n) && (n <=? 90)) ||
   ((48 <=? n) && (n <=? 57)) || (n =? 32) || (n =? 95) || (n =? 45))%nat.

(** [/^[a-zA-Z0-9 _-]+$/.test(s)] *)
Definition usernameRegex (s : chars) : bool :=
  match s with
  | [] => false
  | _ :: _ => forallb is_username_char s
  end.

(** [isValidUsername(username)] *)
Definition isValidUsername (username : JSValue) : bool :=
  match username with
  | JString s =>
      if (String.length s =? 0)%nat ||
         (MAX_USERNAME_LENGTH <? String.length s)%nat
      then false
      else usernameRegex (list_ascii_of_string s)
  | _ => false
  end.

Definition adjectives : list string :=
  ["Cool"; "Epic"; "Awesome"; "Super"; "Mega"; "Ultra"; "Pro"; "Elite"].

Definition nouns : list string :=
  ["User"; "Player"; "Watcher"; "Gamer"; "Viewer"; "Fan"; "Hero"; "Star"].

(** [array[i]] inside a template literal: an index outside the array
    reads [undefined]. *)
Definition at_index (array : list string) (i : Z) : string :=
  if i <? 0 then "undefined" else nth (Z.to_nat i) array "undefined".

(** [generateRandomUsername()], where the three calls of [Math.random()]
    return [r1], [r2] and [r3]. *)
Definition generateRandomUsername (r1 r2 r3 : Qc) : string :=
  let adjective :=
    at_index adjectives
      (floor (r1 * Q2Qc (inject_Z (Z.of_nat (List.length adjectives))))) in
  let noun :=
    at_index nouns
      (floor (r2 * Q2Qc (inject_Z (Z.of_nat (List.length nouns))))) in
  let number := floor (r3 * Q2Qc (inject_Z 9999)) + 1 in
  String.append adjective
    (String.append noun (Number_toString (num_of_Z number))).

End Validation.

(* ===================================================================== *)
(** * Component state and event handlers                                  *)
(* ===================================================================== *)

(** The component is a function of its state; a callback or an effect
    created during a render closes over the state of that render.  A
    [setX(v)] inside it does not change what the closure reads: the
    updates are queued, applied in order, and seen by the next render.
    Storage and the address bar are changed at once. *)

Module React.
Import JS.

(** The stat mapping.  A counter is a number, or [undefined] when the
    stored object lacked it. *)
Record Stats : Type := {
  discord_connections : option Z;
  videos_added : option Z;
  messages_sent : option Z;
  watch_time : option Z;
  max_queue_size : option Z;
  sessions_played : option Z
}.

(** The query parameters of the address, as [URLSearchParams.get] returns
    them. *)
Record UrlParams : Type := {
  username : option string;
  avatar : option string;
  userId : option string
}.

(** Every [useState] cell of [useAchievements] and of [App] that the
    modelled callbacks read or write. *)
Record State : Type := {
  (* useAchievements *)
  stats : Stats;
  unlockedAchievements : list Z;
  watchSessionStart : option Z;
  (* App *)
  youtubeUrl : string;
  youtubeInput : string;
  urlError : string;
  isYoutubePlaying : bool;
  volume : number;
  chatUsername : JSValue;
  discordConnected : bool;
  youtubeQueue : list string;
  currentIndex : Z
}.

Definition set_stats (v : Stats) (s : State) : State :=
  {| stats := v; unlockedAchievements := unlockedAchievements s;
     watchSessionStart := watchSessionStart s; youtubeUrl := youtubeUrl s;
     youtubeInput := youtubeInput s; urlError := urlError s;
     isYoutubePlaying := isYoutubePlaying s; volume := volume s;
     chatUsername := chatUsername s; discordConnected := discordConnected s;
     youtubeQueue := youtubeQueue s; currentIndex := currentIndex s |}.

Definition set_unlockedAchievements (v : list Z) (s : State) : State :=
  {| stats := stats s; unlockedAchievements := v;
     watchSessionStart := watchSessionStart s; youtubeUrl := youtubeUrl s;
     youtubeInput := youtubeInput s; urlError := urlError s;
     isYoutubePlaying := isYoutubePlaying s; volume := volume s;
     chatUsername := chatUsername s; discordConnected := discordConnected s;
     youtubeQueue := youtubeQueue s; currentIndex := currentIndex s |}.

Definition set_watchSessionStart (v : option Z) (s : State) : State :=
  {| stats := stats s; unlockedAchievements := unlockedAchievements s;
     watchSessionStart := v; youtubeUrl := youtubeUrl s;
     youtubeInput := youtubeInput s; urlError := urlError s;
     isYoutubePlaying := isYoutubePlaying s; volume := volume s;
     chatUsername := chatUsername s; discordConnected := discordConnected s;
     youtubeQueue := youtubeQueue s; currentIndex := currentIndex s |}.

Definition set_youtubeUrl (v : string) (s : State) : State :=
  {| stats := stats s; unlockedAchievements := unlockedAchievements s;
     watchSessionStart := watchSessionStart s; youtubeUrl := v;
     youtubeInput := youtubeInput s; urlError := urlError s;
     isYoutubePlaying := isYoutubePlaying s; volume := volume s;
     chatUsername := chatUsername s; discordConnected := discordConnected s;
     youtubeQueue := youtubeQueue s; currentIndex := currentIndex s |}.

Definition set_youtubeInput (v : string) (s : State) : State :=
  {| stats := stats s; unlockedAchievements := unlockedAchievements s;
     watchSessionStart := watchSessionStart s; youtubeUrl := youtubeUrl s;
     youtubeInput := v; urlError := urlError s;
     isYoutubePlaying := isYoutubePlaying s; volume := volume s;
     chatUsername := chatUsername s; discordConnected := discordConnected s;
     youtubeQueue := youtubeQueue s; currentIndex := currentIndex s |}.

Definition set_urlError (v : string) (s : State) : State :=
  {| stats := stats s; unlockedAchievements := unlockedAchievements s;
     watchSessionStart := watchSessionStart s; youtubeUrl := youtubeUrl s;
     youtubeInput := youtubeInput s; urlError := v;
     isYoutubePlaying := isYoutubePlaying s; volume := volume s;
     chatUsername := chatUsername s; discordConnected := discordConnected s;
     youtubeQueue := youtubeQueue s; currentIndex := currentIndex s |}.

Definition set_isYoutubePlaying (v : bool) (s : State) : State :=
  {| stats := stats s; unlockedAchievements := unlockedAchievements s;
     watchSessionStart := watchSessionStart s; youtubeUrl := youtubeUrl s;
     youtubeInput := youtubeInput s; urlError := urlError s;
     isYoutubePlaying := v; volume := volume s;
     chatUsername := chatUsername s; discordConnected := discordConnected s;
     youtubeQueue := youtubeQueue s; currentIndex := currentIndex s |}.

Definition set_volume (v : number) (s : State) : State :=
  {| stats := stats s; unlockedAchievements := unlockedAchievements s;
     watchSessionStart := watchSessionStart s; youtubeUrl := youtubeUrl s;
     youtubeInput := youtubeInput s; urlError := urlError s;
     isYoutubePlaying := isYoutubePlaying s; volume := v;
     chatUsername := chatUsername s; discordConnected := discordConnected s;
     youtubeQueue := youtubeQueue s; currentIndex := currentIndex s |}.

Definition set_chatUsername (v : JSValue) (s : State) : State :=
  {| stats := stats s; unlockedAchievements := unlockedAchievements s;
     watchSessionStart := watchSessionStart s; youtubeUrl := youtubeUrl s;
     youtubeInput := youtubeInput s; urlError := urlError s;
     isYoutubePlaying := isYoutubePlaying s; volume := volume s;
     chatUsername := v; discordConnected := discordConnected s;
     youtubeQueue := youtubeQueue s; currentIndex := currentIndex s |}.

Definition set_discordConnected (v : bool) (s : State) : State :=
  {| stats := stats s; unlockedAchievements := unlockedAchievements s;
     watchSessionStart := watchSessionStart s; youtubeUrl := youtubeUrl s;
     youtubeInput := youtubeInput s; urlError := urlError s;
     isYoutubePlaying := isYoutubePlaying s; volume := volume s;
     chatUsername := chatUsername s; discordConnected := v;
     youtubeQueue := youtubeQueue s; currentIndex := currentIndex s |}.

Definition set_youtubeQueue (v : list string) (s : State) : State :=
  {| stats := stats s; unlockedAchievements := unlockedAchievements s;
     watchSessionStart := watchSessionStart s; youtubeUrl := youtubeUrl s;
     youtubeInput := youtubeInput s; urlError := urlError s;
     isYoutubePlaying := isYoutubePlaying s; volume := volume s;
     chatUsername := chatUsername s; discordConnected := discordConnected s;
     youtubeQueue := v; currentIndex := currentIndex s |}.

Definition set_currentIndex (v : Z) (s : State) : State :=
  {| stats := stats s; unlockedAchievements := unlockedAchievements s;
     watchSessionStart := watchSessionStart s; youtubeUrl := youtubeUrl s;
     youtubeInput := youtubeInput s; urlError := urlError s;
     isYoutubePlaying := isYoutubePlaying s; volume := volume s;
     chatUsername := chatUsername s; discordConnected := discordConnected s;
     youtubeQueue := youtubeQueue s; currentIndex := v |}.

(** What a callback changes at once. *)
Record World : Type := {
  browser : Browser;
  location_search : UrlParams;
  location_href : string
}.

(** A callback or effect: it reads the state of its render, and turns the
    pending state and the world into new ones. *)
Definition Handler (A : Type) : Type :=
  State -> State * World -> A * (State * World).

#[global] Instance handler_ret : MRet Handler := fun _ a _ p => (a, p).

#[global] Instance handler_bind : MBind Handler := fun _ _ k m snap p =>
  let '(a, p') := m snap p in k a snap p'.

(** The state the closure captured. *)
Definition rendered : Handler State := fun snap p => (snap, p).

Definition getWorld : Handler World := fun _ p => (snd p, p).

Definition modifyWorld (f : World -> World) : Handler unit :=
  fun _ p => (tt, (fst p, f (snd p))).

Definition set_browser (b : Browser) (w : World) : World :=
  {| browser := b; location_search := location_search w;
     location_href := location_href w |}.

(** [setX(v)] for the cell written by [set]. *)
Definition setState {T} (set : T -> State -> State) (v : T) : Handler unit :=
  fun _ p => (tt, (set v (fst p), snd p)).

(** [setX(prev => ...)]: the updater gets the pending value of the cell
    read by [get]; what it does besides returning happens as well. *)
Definition updateState {T} (get : State -> T) (set : T -> State -> State)
    (updater : T -> Handler T) : Handler unit :=
  fun snap p =>
    let '(v, p') := updater (get (fst p)) snap p in
    (tt, (set v (fst p'), snd p')).

(** One event: the callback of the latest render runs on the committed
    state, and its queued updates are committed. *)
Definition run (h : Handler unit) (st : State) (w : World) : State * World :=
  snd (h st (st, w)).

End React.


(* ===================================================================== *)
(** * components/achievementManager.js                                    *)
(* ===================================================================== *)

Module AchievementManager.
Import JS Constants Validation React.

Record Achievement : Type := {
  id : Z;
  name : string;
  description : string;
  icon : string;
  type : string;
  target : Z
}.

Definition ACHIEVEMENT_DEFINITIONS : list Achievement := [
  {| id := 1; name := "First Connection";
     description := "Connected to Discord for the first time";
     icon := "🎉"; type := "discord_connection"; target := 1 |};
  {| id := 2; name := "Video Master";
     description := "Added 10 videos to queue";
     icon := "🎬"; type := "videos_added"; target := 10 |};
  {| id := 3; name := "Chat Champion";
     description := "Sent 50 messages in chat";
     icon := "💬"; type := "messages_sent"; target := 50 |};
  {| id := 4; name := "Just Warming Up";
     description := "Played videos for 1 hour total";
     icon := "🥉"; type := "watch_time"; target := 3600 |};
  {| id := 5; name := "Queue Master";
     description := "Had 5 videos in queue at once";
     icon := "📋"; type := "max_queue_size"; target := 5 |};
  {| id := 6; name := "Channel Surfer Pro";
     description := "Watch videos for 10h total";
     icon := "🥈"; type := "watch_time"; target := 36000 |};
  {| id := 7; name := "The Algorithmic Abyss Diver";
     description := "Watch videos for 50h total";
     icon := "🥇"; type := "watch_time"; target := 180000 |};
  {| id := 8; name := "Pixelated Pupil";
     description := "Watch videos for 150h total";
     icon := "🥈"; type := "watch_time"; target := 540000 |};
  {| id := 9; name := "YouTube Grandmaster (and Potential Hermit)";
     description := "Watch videos for 500h total";
     icon := "🥈"; type := "watch_time"; target := 1800000 |};
  {| id := 10; name := "Time to go Outside";
     description := "Watch videos for 1000h total";
     icon := "🥈"; type := "watch_time"; target := 3600000 |}
].

(** The initial value of the [stats] cell, and the default of its load. *)
Definition zero_stats : Stats :=
  {| discord_connections := Some 0; videos_added := Some 0;
     messages_sent := Some 0; watch_time := Some 0;
     max_queue_size := Some 0; sessions_played := Some 0 |}.

(** [x || 0] on a counter. *)
Definition or0 (x : option Z) : Z :=
  match x with
  | Some z => if z =? 0 then 0 else z
  | None => 0
  end.

(** ** Stats as stored values *)

Definition js_of_counter (k : string) (x : option Z)
  : list (string * JSValue) :=
  match x with
  | Some z => [(k, JNumber (num_of_Z z))]
  | None => []
  end.

Definition js_of_stats (s : Stats) : JSValue :=
  JObject (js_of_counter "discord_connections" (discord_connections s) ++
           js_of_counter "videos_added" (videos_added s) ++
           js_of_counter "messages_sent" (messages_sent s) ++
           js_of_counter "watch_time" (watch_time s) ++
           js_of_counter "max_queue_size" (max_queue_size s) ++
           js_of_counter "sessions_played" (sessions_played s)).

(** An integer, when the value is one.  Counters that hold anything else
    are outside the model and read as [undefined]. *)
Definition Z_of_js (v : JSValue) : option Z :=
  match v with
  | JNumber (Finite q) =>
      if (Qden q =? 1)%positive then Some (Qnum q) else None
  | _ => None
  end.

Definition counter_of_js (v : JSValue) (k : string) : option Z :=
  match get_prop v k with
  | Some x => Z_of_js x
  | None => None
  end.

Definition stats_of_js (v : JSValue) : Stats :=
  {| discord_connections := counter_of_js v "discord_connections";
     videos_added := counter_of_js v "videos_added";
     messages_sent := counter_of_js v "messages_sent";
     watch_time := counter_of_js v "watch_time";
     max_queue_size := counter_of_js v "max_queue_size";
     sessions_played := counter_of_js v "sessions_played" |}.

(** ** The unlocked set: a JS [Set] of ids, in insertion order *)

Definition Set_has (s : list Z) (x : Z) : bool := existsb (Z.eqb x) s.

Definition Set_add (s : list Z) (x : Z) : list Z :=
  if Set_has s x then s else s ++ [x].

(** [new Set(array)], for the integers of the array. *)
Definition Set_of_array (xs : list JSValue) : list Z :=
  fold_left (fun s v => match Z_of_js v with
                        | Some z => Set_add s z
                        | None => s
                        end) xs [].

(** [[...set]] *)
Definition array_of_Set (s : list Z) : JSValue :=
  JArray (map (fun z => JNumber (num_of_Z z)) s).

(** ** Storage from inside a callback *)

Definition storageSet (key : string) (value : JSValue) : Handler unit :=
  modifyWorld (fun w => set_browser (safeLocalStorageSet key value (browser w)) w).

Definition storageGet (key : string) (defaultValue : JSValue)
    (validator : option (JSValue -> bool)) : Handler JSValue :=
  w ← getWorld;
  mret (safeLocalStorageGet key defaultValue validator (browser w)).

(** ** The hook's callbacks and effects *)

(** [parseInt(v, 10)] of a stored string or number; [None] is NaN. *)
Definition parseInt (v : JSValue) : option Z :=
  let text :=
    match v with
    | JString s => list_ascii_of_string s
    | JNumber (Finite q) => decimal_of_Qc q
    | _ => []
    end in
  let '(neg, s0) :=
    match skip_spaces text with
    | c :: s' =>
        if Ascii.eqb c "-" then (true, s')
        else if Ascii.eqb c "+" then (false, s')
        else (false, c :: s')
    | [] => (false, [])
    end in
  match take_digits s0 with
  | ([], _) => None
  | (ds, _) => Some (if neg then - digits_val ds else digits_val ds)
  end.

(** The first effect: load what was saved. *)
Definition loadSavedData : Handler unit :=
  savedStats ← storageGet STATS (js_of_stats zero_stats)
    (Some (fun data =>
       String.eqb (typeof data) "object" &&
       negb (strict_eq data JNull) &&
       match get_prop data "watch_time" with
       | Some x => String.eqb (typeof x) "number"
       | None => false
       end));
  savedUnlocked ← storageGet UNLOCKED (JArray []) (Some Array_isArray);
  savedWatchSession ← storageGet WATCH_SESSION JNull
    (Some (fun data =>
       String.eqb (typeof data) "string" || String.eqb (typeof data) "number"));
  setState set_stats (stats_of_js savedStats);;
  setState set_unlockedAchievements
    (match savedUnlocked with JArray xs => Set_of_array xs | _ => [] end);;
  if truthy savedWatchSession
  then setState set_watchSessionStart (parseInt savedWatchSession)
  else mret tt.

(** [saveStats(newStats)] *)
Definition saveStats (newStats : Stats) : Handler unit :=
  storageSet STATS (js_of_stats newStats);;
  setState set_stats newStats.

(** [saveUnlockedAchievements(newUnlocked)] *)
Definition saveUnlockedAchievements (newUnlocked : list Z) : Handler unit :=
  storageSet UNLOCKED (array_of_Set newUnlocked);;
  setState set_unlockedAchievements newUnlocked.

(** The [switch] of [checkAchievements] on the achievement's type. *)
Definition shouldUnlock (currentStats : Stats) (achievement : Achievement)
  : bool :=
  let ty := type achievement in
  if String.eqb ty "discord_connection" then
    or0 (discord_connections currentStats) >=? target achievement
  else if String.eqb ty "videos_added" then
    or0 (videos_added currentStats) >=? target achievement
  else if String.eqb ty "messages_sent" then
    or0 (messages_sent currentStats) >=? target achievement
  else if String.eqb ty "watch_time" then
    or0 (watch_time currentStats) >=? or0 (Some (target achievement))
  else if String.eqb ty "max_queue_size" then
    or0 (max_queue_size currentStats) >=? target achievement
  else false.

(** One turn of the [forEach] over the definitions: the accumulator is
    [newUnlocked] with [hasNewAchievements]. *)
Definition checkOne (currentStats : Stats) (acc : list Z * bool)
    (achievement : Achievement) : list Z * bool :=
  let '(newUnlocked, hasNewAchievements) := acc in
  if negb (Set_has newUnlocked (id achievement)) then
    if shouldUnlock currentStats achievement
    then (Set_add newUnlocked (id achievement), true)
    else acc
  else acc.

Definition checkAll (defs : list Achievement) (currentStats : Stats)
    (unlocked : list Z) : list Z * bool :=
  fold_left (checkOne currentStats) defs (unlocked, false).

(** [checkAchievements(currentStats)] *)
Definition checkAchievements (currentStats : Stats) : Handler unit :=
  st ← rendered;
  let '(newUnlocked, hasNewAchievements) :=
    checkAll ACHIEVEMENT_DEFINITIONS currentStats (unlockedAchievements st) in
  if hasNewAchievements
  then saveUnlockedAchievements newUnlocked
  else mret tt.

(** The effect that runs [checkAchievements] whenever [stats] changes. *)
Definition checkAchievementsEffect : Handler unit :=
  st ← rendered;
  checkAchievements (stats st).

Definition with_discord_connections (v : option Z) (s : Stats) : Stats :=
  {| discord_connections := v; videos_added := videos_added s;
     messages_sent := messages_sent s; watch_time := watch_time s;
     max_queue_size := max_queue_size s;
     sessions_played := sessions_played s |}.

Definition with_videos_added (v : option Z) (s : Stats) : Stats :=
  {| discord_connections := discord_connections s; videos_added := v;
     messages_sent := messages_sent s; watch_time := watch_time s;
     max_queue_size := max_queue_size s;
     sessions_played := sessions_played s |}.

Definition with_messages_sent (v : option Z) (s : Stats) : Stats :=
  {| discord_connections := discord_connections s;
     videos_added := videos_added s;
     messages_sent := v; watch_time := watch_time s;
     max_queue_size := max_queue_size s;
     sessions_played := sessions_played s |}.

Definition with_watch_time (v : option Z) (s : Stats) : Stats :=
  {| discord_connections := discord_connections s;
     videos_added := videos_added s;
     messages_sent := messages_sent s; watch_time := v;
     max_queue_size := max_queue_size s;
     sessions_played := sessions_played s |}.

Definition with_max_queue_size (v : option Z) (s : Stats) : Stats :=
  {| discord_connections := discord_connections s;
     videos_added := videos_added s;
     messages_sent := messages_sent s; watch_time := watch_time s;
     max_queue_size := v;
     sessions_played := sessions_played s |}.

Definition with_sessions_played (v : option Z) (s : Stats) : Stats :=
  {| discord_connections := discord_connections s;
     videos_added := videos_added s;
     messages_sent := messages_sent s; watch_time := watch_time s;
     max_queue_size := max_queue_size s;
     sessions_played := v |}.

(** [trackDiscordConnection()] *)
Definition trackDiscordConnection : Handler unit :=
  st ← rendered;
  let newStats :=
    with_discord_connections
      (Some (or0 (discord_connections (stats st)) + 1)) (stats st) in
  saveStats newStats.

(** [trackVideoAdded()] *)
Definition trackVideoAdded : Handler unit :=
  st ← rendered;
  let newStats :=
    with_videos_added (Some (or0 (videos_added (stats st)) + 1)) (stats st) in
  saveStats newStats.

(** [trackMessageSent()] *)
Definition trackMessageSent : Handler unit :=
  st ← rendered;
  let newStats :=
    with_messages_sent (Some (or0 (messages_sent (stats st)) + 1)) (stats st) in
  saveStats newStats.

(** [trackQueueSize(currentQueueSize)] *)
Definition trackQueueSize (currentQueueSize : Z) : Handler unit :=
  st ← rendered;
  if currentQueueSize >? or0 (max_queue_size (stats st)) then
    let newStats := with_max_queue_size (Some currentQueueSize) (stats st) in
    saveStats newStats
  else mret tt.

(** Truthiness of [watchSessionStart]: [null] and [0] are not. *)
Definition session_open (start : option Z) : option Z :=
  match start with
  | Some t => if t =? 0 then None else Some t
  | None => None
  end.

(** [Math.floor((now - start) / 1000)] *)
Definition sessionDuration (now start : Z) : Z := (now - start) / 1000.

(** [now.toString()] *)
Definition Z_toString (z : Z) : string :=
  string_of_list_ascii (decimal_of_Qc (Q2Qc (inject_Z z))).

(** [startWatchSession()], called when the clock reads [now] *)
Definition startWatchSession (now : Z) : Handler unit :=
  st ← rendered;
  match session_open (watchSessionStart st) with
  | None =>
      setState set_watchSessionStart (Some now);;
      storageSet WATCH_SESSION (JString (Z_toString now))
  | Some _ => mret tt
  end.

(** One firing of the interval that the watch-time effect sets up while
    a session is open; the clock reads [now]. *)
Definition watchTimeTick (now : Z) : Handler unit :=
  st ← rendered;
  match session_open (watchSessionStart st) with
  | None => mret tt
  | Some start =>
      if sessionDuration now start >? 0 then
        updateState stats set_stats (fun prevStats =>
          let newWatchTime := or0 (watch_time prevStats) + 1 in
          let newStats := with_watch_time (Some newWatchTime) prevStats in
          storageSet STATS (js_of_stats newStats);;
          mret newStats)
      else mret tt
  end.

(** [endWatchSession()], called when the clock reads [now] *)
Definition endWatchSession (now : Z) : Handler unit :=
  st ← rendered;
  match session_open (watchSessionStart st) with
  | Some start =>
      (if sessionDuration now start >? 0 then
         let newStats :=
           with_sessions_played
             (Some (or0 (sessions_played (stats st)) + 1)) (stats st) in
         saveStats newStats
       else mret tt);;
      setState set_watchSessionStart None;;
      modifyWorld (fun w =>
        if window_defined (browser w) then
          match removeItem WATCH_SESSION (localStorage (browser w)) with
          | Some ls => set_browser (with_storage ls (browser w)) w
          | None => w
          end
        else w)
  | None => mret tt
  end.

(** ** What the hook shows *)

(** What [getAchievementProgress] returns.  [currentValue] is [None]
    when the stat read is [undefined]. *)
Record Progress : Type := {
  progress : number;
  isUnlocked : bool;
  currentValue : option Z;
  targetValue : Z
}.

(** [ToNumber] of a counter: [undefined] gives NaN. *)
Definition number_of_counter (x : option Z) : number :=
  match x with
  | Some z => num_of_Z z
  | None => NaN
  end.

(** [getAchievementProgress(achievementId)], as a render with state [st]
    has it *)
Definition getAchievementProgress (st : State) (achievementId : Z) : Progress :=
  match List.find (fun a => id a =? achievementId) ACHIEVEMENT_DEFINITIONS with
  | None =>
      {| progress := num_of_Z 0; isUnlocked := false;
         currentValue := Some 0; targetValue := 0 |}
  | Some achievement =>
      let isUnlocked := Set_has (unlockedAchievements st) achievementId in
      let ty := type achievement in
      let currentValue :=
        if String.eqb ty "discord_connection" then discord_connections (stats st)
        else if String.eqb ty "videos_added" then videos_added (stats st)
        else if String.eqb ty "messages_sent" then messages_sent (stats st)
        else if String.eqb ty "watch_time" then watch_time (stats st)
        else if String.eqb ty "max_queue_size" then max_queue_size (stats st)
        else Some 0 in
      let progress :=
        Math_min
          (num_mul (num_div (number_of_counter currentValue)
                            (num_of_Z (target achievement)))
                   (num_of_Z 100))
          (num_of_Z 100) in
      {| progress := progress; isUnlocked := isUnlocked;
         currentValue := currentValue; targetValue := target achievement |}
  end.

(** An entry of [getAllAchievements()]: the definition with [unlocked],
    [currentValue] and [targetValue] added. *)
Record Listed : Type := {
  listed : Achievement;
  unlocked : bool;
  listed_currentValue : option Z;
  listed_targetValue : Z
}.

(** [getAllAchievements()] *)
Definition getAllAchievements (st : State) : list Listed :=
  map (fun achievement =>
         {| listed := achievement;
            unlocked := Set_has (unlockedAchievements st) (id achievement);
            listed_currentValue :=
              currentValue (getAchievementProgress st (id achievement));
            listed_targetValue :=
              targetValue (getAchievementProgress st (id achievement)) |})
      ACHIEVEMENT_DEFINITIONS.

(** [unlockedCount] and [totalCount] *)
Definition unlockedCount (st : State) : nat :=
  List.length (unlockedAchievements st).

Definition totalCount : nat := List.length ACHIEVEMENT_DEFINITIONS.

(** [formatWatchTime(seconds)] *)
Definition formatWatchTime (seconds : JSValue) : string :=
  match seconds with
  | JNumber n =>
      if isNaN n || num_ltb n (num_of_Z 0) then "0s"
      else
        let totalMinutes := Math_floor (num_div n (num_of_Z 60)) in
        let hours := Math_floor (num_div totalMinutes (num_of_Z 60)) in
        let remainingMinutes := num_rem totalMinutes (num_of_Z 60) in
        let remainingSeconds := num_rem n (num_of_Z 60) in
        if num_ltb (num_of_Z 0) hours then
          String.append (Number_toString hours)
            (String.append "h "
               (String.append (Number_toString remainingMinutes) "m"))
        else if num_ltb (num_of_Z 0) remainingMinutes then
          String.append (Number_toString remainingMinutes) "m"
        else String.append (Number_toString remainingSeconds) "s"
  | _ => "0s"
  end.

End AchievementManager.

(* ===================================================================== *)
(** * The App component                                                   *)
(* ===================================================================== *)

Module App.
Import JS Constants Validation React AchievementManager.

(** An entry of the history list. *)
Record HistoryItem : Type := {
  name : string;
  src : string;
  type : string;
  timestamp : string
}.

(** A [message] event of the window. *)
Record MessageEvent : Type := {
  origin : string;
  data : JSValue
}.

(** What the chat room passes to [onVideoStateChange].  A field is [None]
    when it is missing or not of the type its test asks for (a string,
    an array of strings, a number); numbers are integers. *)
Record VideoState : Type := {
  videoUrl : option string;
  playbackState : option string;
  queue : option (list string);
  index : option Z
}.

Definition len {A} (l : list A) : Z := Z.of_nat (List.length l).

(** The state of the first render. *)
Definition initial_state : State :=
  {| stats := zero_stats; unlockedAchievements := [];
     watchSessionStart := None;
     youtubeUrl := ""; youtubeInput := ""; urlError := "";
     isYoutubePlaying := false; volume := num_of_Z 1;
     chatUsername := JString ""; discordConnected := false;
     youtubeQueue := []; currentIndex := -1 |}.

(** ** Effects *)

(** The effect on [currentIndex, youtubeQueue]: play the video at
    [currentIndex]. *)
Definition playCurrentEffect : Handler unit :=
  st ← rendered;
  let currentIndex := currentIndex st in
  let youtubeQueue := youtubeQueue st in
  if (currentIndex >=? 0) && (currentIndex <? len youtubeQueue) then
    let url := nth (Z.to_nat currentIndex) youtubeQueue "" in
    setState set_youtubeUrl url;;
    setState set_isYoutubePlaying true
  else if len youtubeQueue =? 0 then
    setState set_youtubeUrl "";;
    setState set_isYoutubePlaying false
  else mret tt.

(** The listener that the effect on [currentIndex, youtubeQueue]
    registers for [message] events.  A failing [JSON.parse] and a
    property read of [null] both throw into the empty [catch]. *)
Definition handleMessage (event : MessageEvent) : Handler unit :=
  st ← rendered;
  if negb (isValidYoutubeOrigin (origin event)) ||
     negb (String.eqb (typeof (data event)) "string")
  then mret tt
  else
    match data event with
    | JString text =>
        match JSON.parse text with
        | None => mret tt
        | Some data =>
            match get_prop data "event", get_prop data "info" with
            | Some ev, Some info =>
                if strict_eq ev (JString "onStateChange") &&
                   strict_eq info (JNumber (num_of_Z 0))
                then
                  if currentIndex st + 1 <? len (youtubeQueue st)
                  then setState set_currentIndex (currentIndex st + 1)
                  else setState set_isYoutubePlaying false
                else mret tt
            | _, _ => mret tt
            end
        end
    | _ => mret tt
    end.

(** The effect that loads the saved volume. *)
Definition loadVolumeEffect : Handler unit :=
  savedVolume ← storageGet VOLUME (JNumber (num_of_Z 1))
    (Some (fun value =>
       match value with
       | JNumber n => num_leb (num_of_Z 0) n && num_leb n (num_of_Z 1)
       | _ => false
       end));
  match savedVolume with
  | JNumber n => setState set_volume n
  | _ => mret tt
  end.

Definition truthy_param (x : option string) : bool :=
  match x with
  | Some s => negb (String.eqb s "")
  | None => false
  end.

Definition no_params : UrlParams :=
  {| username := None; avatar := None; userId := None |}.

(** The effect on [trackDiscordConnection]: stored identity, then the
    identity that the OAuth redirect put in the address.
    [defaultUsername] is what [generateRandomUsername()] returns. *)
Definition identityEffect (defaultUsername : string) : Handler unit :=
  storedUsername ← storageGet USERNAME JNull None;
  storedAvatar ← storageGet DISCORD_AVATAR JNull None;
  storedUserId ← storageGet DISCORD_USER_ID JNull None;
  (if negb (truthy storedUsername) then
     storageSet USERNAME (JString defaultUsername);;
     setState set_chatUsername (JString defaultUsername)
   else setState set_chatUsername storedUsername);;
  (if truthy storedAvatar && truthy storedUserId
   then setState set_discordConnected true else mret tt);;
  w ← getWorld;
  let usernameFromUrl := username (location_search w) in
  let avatarFromUrl := avatar (location_search w) in
  let userIdFromUrl := userId (location_search w) in
  let sanitized x :=
    sanitizeString (match x with Some s => s | None => "" end)
                   MAX_MESSAGE_LENGTH in
  (if truthy_param usernameFromUrl then
     setState set_chatUsername (JString (sanitized usernameFromUrl));;
     storageSet USERNAME (JString (sanitized usernameFromUrl))
   else mret tt);;
  (if truthy_param avatarFromUrl
   then storageSet DISCORD_AVATAR (JString (sanitized avatarFromUrl))
   else mret tt);;
  (if truthy_param userIdFromUrl
   then storageSet DISCORD_USER_ID (JString (sanitized userIdFromUrl))
   else mret tt);;
  (if truthy_param usernameFromUrl && truthy_param avatarFromUrl &&
      truthy_param userIdFromUrl
   then setState set_discordConnected true;; trackDiscordConnection
   else mret tt);;
  (* shouldCleanUrl: history.replaceState drops the query *)
  if truthy_param usernameFromUrl || truthy_param avatarFromUrl ||
     truthy_param userIdFromUrl
  then modifyWorld (fun w =>
         {| browser := browser w; location_search := no_params;
            location_href := location_href w |})
  else mret tt.

(** The effects of the first render, in the order the component declares
    them.  All of them close over the state of that render. *)
Definition mountEffects (defaultUsername : string) : Handler unit :=
  loadSavedData;;
  checkAchievementsEffect;;
  identityEffect defaultUsername;;
  loadVolumeEffect;;
  playCurrentEffect.

(** A page load: the first render and its effects. *)
Definition mount (defaultUsername : string) (w : World) : State * World :=
  run (mountEffects defaultUsername) initial_state w.

(** ** Callbacks *)

Definition INVALID_URL := "Please enter a valid YouTube URL.".

(** [addToQueue(url)] *)
Definition addToQueue (url : string) : Handler unit :=
  if String.eqb url "" then mret tt
  else
    let sanitizedUrl := sanitizeString url MAX_MESSAGE_LENGTH in
    if negb (isValidYoutubeUrl sanitizedUrl) then
      setState set_urlError INVALID_URL
    else
      setState set_urlError "";;
      updateState youtubeQueue set_youtubeQueue (fun prev =>
        let newQueue := prev ++ [sanitizedUrl] in
        trackVideoAdded;;
        trackQueueSize (len newQueue);;
        (if (len prev =? 0) && (len newQueue >? 0) then
           setState set_currentIndex 0;;
           setState set_isYoutubePlaying true
         else mret tt);;
        mret newQueue);;
      setState set_youtubeInput "".

(** [handleAddToQueue()] *)
Definition handleAddToQueue : Handler unit :=
  st ← rendered;
  addToQueue (youtubeInput st).

(** [handleNext()] *)
Definition handleNext : Handler unit :=
  st ← rendered;
  if currentIndex st + 1 <? len (youtubeQueue st) then
    updateState currentIndex set_currentIndex
      (fun prevIndex => mret (prevIndex + 1));;
    setState set_isYoutubePlaying true
  else setState set_isYoutubePlaying false.

(** [handlePrevious()] *)
Definition handlePrevious : Handler unit :=
  st ← rendered;
  if currentIndex st >? 0 then
    updateState currentIndex set_currentIndex
      (fun prevIndex => mret (prevIndex - 1));;
    setState set_isYoutubePlaying true
  else mret tt.

(** [array.indexOf(x)] *)
Fixpoint indexOf (l : list string) (x : string) : Z :=
  match l with
  | [] => -1
  | y :: l' =>
      if String.eqb y x then 0
      else let i := indexOf l' x in if i =? -1 then -1 else i + 1
  end.

(** [playFromHistory(item)] *)
Definition playFromHistory (item : HistoryItem) : Handler unit :=
  st ← rendered;
  if negb (String.eqb (src item) "") then
    let indexInQueue := indexOf (youtubeQueue st) (src item) in
    (if negb (indexInQueue =? -1) then
       setState set_currentIndex indexInQueue
     else
       updateState youtubeQueue set_youtubeQueue (fun prev =>
         let newQueue := prev ++ [src item] in
         setState set_currentIndex (len newQueue - 1);;
         mret newQueue));;
    setState set_isYoutubePlaying true
  else mret tt.

(** [handleVolumeChange(e)], with [value] for [e.target.value] *)
Definition handleVolumeChange (value : string) : Handler unit :=
  let newVolume := validateNumber (JString value) (num_of_Z 0) (num_of_Z 1) in
  setState set_volume newVolume;;
  storageSet VOLUME (JNumber newVolume).

(** [encodeURIComponent(s)] *)
Definition encodeURIComponent (s : string) : string :=
  let unreserved c :=
    let n := nat_of_ascii c in
    (((48 <=? n) && (n <=? 57)) || ((65 <=? n) && (n <=? 90)) ||
     ((97 <=? n) && (n <=? 122)) ||
     existsb (Ascii.eqb c) (list_ascii_of_string "-_.!~*'()"))%nat in
  let hex d := ascii_of_nat (if (d <? 10)%nat then 48 + d else 55 + d)%nat in
  string_of_list_ascii
    (flat_map (fun c =>
       if unreserved c then [c]
       else ["%"%char; hex (nat_of_ascii c / 16)%nat;
             hex (nat_of_ascii c mod 16)%nat])
     (list_ascii_of_string s)).

(** [handleDiscordConnect()] *)
Definition handleDiscordConnect : Handler unit :=
  let oauthUrl :=
    String.append OAUTH_URL
      (String.append "?client_id="
        (String.append CLIENT_ID
          (String.append "&redirect_uri="
            (String.append (encodeURIComponent REDIRECT_URI)
              (String.append "&response_type=code&scope=" SCOPE))))) in
  trackDiscordConnection;;
  modifyWorld (fun w =>
    {| browser := browser w; location_search := location_search w;
       location_href := oauthUrl |}).

(** The [onVideoStateChange] callback given to the chat room. *)
Definition onVideoStateChange (vs : VideoState) : Handler unit :=
  st ← rendered;
  (match queue vs with
   | Some queue =>
       if len queue >? 0 then setState set_youtubeQueue queue else mret tt
   | None => mret tt
   end);;
  (match index vs with
   | Some index =>
       if (index >=? 0) && negb (index =? currentIndex st)
       then setState set_currentIndex index else mret tt
   | None => mret tt
   end);;
  (match videoUrl vs with
   | Some videoUrl =>
       if negb (String.eqb videoUrl "") &&
          negb (String.eqb videoUrl (youtubeUrl st))
       then setState set_youtubeUrl videoUrl else mret tt
   | None => mret tt
   end);;
  match playbackState vs with
  | Some playbackState =>
      if String.eqb playbackState "play" then
        setState set_isYoutubePlaying true
      else if String.eqb playbackState "pause" ||
              String.eqb playbackState "stop" then
        setState set_isYoutubePlaying false
      else mret tt
  | None => mret tt
  end.

(** The updater that the effect on [youtubeUrl] gives to
    [setYoutubeHistory]; without a URL or a video id the effect leaves
    the history alone.  [timestamp] is [new Date().toLocaleString()]. *)
Definition historyEffect (youtubeUrl timestamp : string)
    (prev : list HistoryItem) : list HistoryItem :=
  if negb (String.eqb youtubeUrl "") then
    match getYoutubeVideoId youtubeUrl with
    | Some videoId =>
        if negb (String.eqb videoId "") then
          if existsb (fun item => String.eqb (src item) youtubeUrl) prev
          then prev
          else prev ++ [{| name := String.append "YouTube - " videoId;
                           src := youtubeUrl;
                           type := "youtube";
                           timestamp := timestamp |}]
        else prev
    | None => prev
    end
  else prev.

(** The click handler of the Disconnect button; [defaultUsername] is
    what [generateRandomUsername()] returns. *)
Definition handleDiscordDisconnect (defaultUsername : string) : Handler unit :=
  setState set_discordConnected false;;
  setState set_chatUsername (JString defaultUsername);;
  storageSet USERNAME (JString defaultUsername);;
  storageSet DISCORD_USER_ID JNull;;
  storageSet DISCORD_AVATAR JNull.

End App.

(* ===================================================================== *)
(** * Properties stated by the specification                              *)
(* ===================================================================== *)

Module Spec.
Import JS Constants Validation React AchievementManager App.

(** [r] is [x] clamped into [[lo, hi]]. *)
Definition clamped (lo hi x r : number) : Prop :=
  (num_ltb x lo = true -> r = lo) /\
  (num_ltb hi x = true -> r = hi) /\
  (num_leb lo x = true -> num_leb x hi = true -> r = x) /\
  num_leb lo r = true /\ num_leb r hi = true.

(** The player's ended signal: a message from an allowed origin whose
    text is JSON for an object with [event] equal to [onStateChange] and
    [info] equal to 0. *)
Definition is_ended_signal (event : MessageEvent) : Prop :=
  isValidYoutubeOrigin (origin event) = true /\
  exists text d ev info,
    data event = JString text /\
    JSON.parse text = Some d /\
    get_prop d "event" = Some ev /\
    strict_eq ev (JString "onStateChange") = true /\
    get_prop d "info" = Some info /\
    strict_eq info (JNumber (num_of_Z 0)) = true.

(** The state after an event, without the world. *)
Definition after (h : Handler unit) (st : State) (w : World) : State :=
  fst (run h st w).

(** The operations on the queue, and the effect that follows a change of
    [currentIndex] or [youtubeQueue]. *)
Inductive Op : Type :=
  | Enqueue (url : string)
  | Advance
  | Retreat
  | SelectFromHistory (item : HistoryItem)
  | PlayerMessage (event : MessageEvent)
  | ChatUpdate (vs : VideoState)
  | PlayCurrent.

Definition handler_of (op : Op) : Handler unit :=
  match op with
  | Enqueue url => addToQueue url
  | Advance => handleNext
  | Retreat => handlePrevious
  | SelectFromHistory item => playFromHistory item
  | PlayerMessage event => handleMessage event
  | ChatUpdate vs => onVideoStateChange vs
  | PlayCurrent => playCurrentEffect
  end.

Definition step (s : State * World) (op : Op) : State * World :=
  run (handler_of op) (fst s) (snd s).

Definition exec (ops : list Op) (s : State * World) : State * World :=
  fold_left step ops s.

(** The queue invariant of the data model. *)
Definition index_in_bounds (st : State) : Prop :=
  currentIndex st >= 0 -> currentIndex st < len (youtubeQueue st).

Definition is_local (op : Op) : Prop :=
  match op with ChatUpdate _ => False | _ => True end.

(** The unlocked set after one evaluation of [currentStats]. *)
Definition unlocked_after (currentStats : Stats) (st : State) (w : World)
  : list Z :=
  unlockedAchievements (after (checkAchievements currentStats) st w).

(** The ids an evaluation of [currentStats] unlocks when it starts from
    the unlocked set [unlocked]. *)
Definition evaluate (currentStats : Stats) (unlocked : list Z) : list Z :=
  List.filter (fun x => negb (Set_has unlocked x))
         (fst (checkAll ACHIEVEMENT_DEFINITIONS currentStats unlocked)).

(** [S] dominates [S']: every counter of [S], as the evaluator reads it,
    is at least the one of [S']. *)
Definition dominates (S S' : Stats) : Prop :=
  or0 (discord_connections S') <= or0 (discord_connections S) /\
  or0 (videos_added S') <= or0 (videos_added S) /\
  or0 (messages_sent S') <= or0 (messages_sent S) /\
  or0 (watch_time S') <= or0 (watch_time S) /\
  or0 (max_queue_size S') <= or0 (max_queue_size S) /\
  or0 (sessions_played S') <= or0 (sessions_played S).

(** [setItem] accepts the write. *)
Definition writable (key text : string) (st : Storage) : bool :=
  match setItem key text st with Some _ => true | None => false end.

(** A browser whose storage has no room left. *)
Definition full_browser : Browser :=
  {| window_defined := true;
     localStorage := {| items := ∅; quota := 0; blocked := false |} |}.

(** A browser with an empty, working storage. *)
Definition empty_browser : Browser :=
  {| window_defined := true;
     localStorage := {| items := ∅; quota := 5000; blocked := false |} |}.

Definition is_number (v : JSValue) : bool := String.eqb (typeof v) "number".

(** The query that the OAuth handler redirects back with. *)
Definition redirect_params : UrlParams :=
  {| username := Some "bob"; avatar := Some "a1b2c3"; userId := Some "42" |}.

(** A page load at an address with the query [params]: the storage is
    the one the last page left. *)
Definition arrive (params : UrlParams) (w : World) : World :=
  {| browser := browser w; location_search := params;
     location_href := "http://localhost:3000/" |}.

(** The stats that the storage holds. *)
Definition stored_stats (w : World) : Stats :=
  stats_of_js (safeLocalStorageGet STATS JNull None (browser w)).

Definition all_present (params : UrlParams) : Prop :=
  truthy_param (username params) = true /\
  truthy_param (avatar params) = true /\
  truthy_param (userId params) = true.

Definition sample_url : string := "https://youtu.be/dQw4w9WgXcQ".

(** A world with an empty, working storage. *)
Definition empty_world : World :=
  {| browser :=
       {| window_defined := true;
          localStorage := {| items := ∅; quota := 5000; blocked := false |} |};
     location_search := no_params;
     location_href := "http://localhost:3000/" |}.

Definition ended_text : string :=
  requote "{'event':'onStateChange','info':0}".

(** ** The JSON text of integers, arrays and objects *)

(** The rest does not go on with a digit. *)
Definition not_digit_first (rest : chars) : Prop :=
  match rest with
  | c :: _ => is_digit c = false
  | [] => True
  end.

(** The digits [ds] read after the value [a]. *)
Definition read_digits (ds : chars) (a : Z) : Z :=
  fold_left (fun acc c => 10 * acc + digit_val c) ds a.

(** The text of an integer: a sign and the digits of its absolute value. *)
Definition int_text (z : Z) : chars :=
  (if z <? 0 then ["-"%char] else []) ++ decimal_of_nonneg (Z.abs z).

(** What may follow a number inside an array or an object. *)
Definition closes (rest : chars) : Prop :=
  match rest with
  | c :: _ => c = ","%char \/ c = "}"%char \/ c = "]"%char
  | [] => True
  end.

(** An array of integers. *)
Definition ints (l : list Z) : list JSValue :=
  map (fun z => JNumber (num_of_Z z)) l.

(** A character that a JSON string holds as it is. *)
Definition plain (c : ascii) : bool :=
  negb (Ascii.eqb c dquote) && negb (Ascii.eqb c "\") &&
  (32 <=? nat_of_ascii c)%nat.

(** A name made of such characters. *)
Definition plain_key (k : string) : Prop :=
  Forall (fun c => plain c = true) (list_ascii_of_string k).

(** The properties of an object whose members are integers, and the
    text of one member. *)
Definition int_members (ms : list (string * Z)) : list (string * JSValue) :=
  map (fun kz => (fst kz, JNumber (num_of_Z (snd kz)))) ms.

Definition member_text (kz : string * Z) : chars :=
  JSON.quote (fst kz) ++ ":"%char :: int_text (snd kz).

(** The counters that a stat mapping has, in the order of the object. *)
Definition counter_member (k : string) (x : option Z) : list (string * Z) :=
  match x with
  | Some z => [(k, z)]
  | None => []
  end.

Definition stats_members (s : Stats) : list (string * Z) :=
  counter_member "discord_connections" (discord_connections s) ++
  counter_member "videos_added" (videos_added s) ++
  counter_member "messages_sent" (messages_sent s) ++
  counter_member "watch_time" (watch_time s) ++
  counter_member "max_queue_size" (max_queue_size s) ++
  counter_member "sessions_played" (sessions_played s).

(** The names are plain and pairwise different. *)
Definition keys_ok (ks : list string) : bool :=
  forallb (fun k => forallb plain (list_ascii_of_string k)) ks &&
  (fix nodup (l : list string) : bool :=
     match l with
     | [] => true
     | k :: l' => negb (existsb (String.eqb k) l') && nodup l'
     end) ks.

(** ** Helpers of the further properties *)

(** The text does not start with white space. *)
Definition starts_clean (l : chars) : Prop :=
  match l with
  | c :: _ => is_space c = false
  | [] => True
  end.

(** What [Math.random()] may return. *)
Definition is_random (r : Qc) : Prop := (Q2Qc 0 <= r)%Qc /\ (r < Q2Qc 1)%Qc.

(** A word of one to seven characters of the username class. *)
Definition word_ok (s : string) : bool :=
  forallb is_username_char (list_ascii_of_string s) &&
  (1 <=? String.length s)%nat && (String.length s <=? 7)%nat.

(** The text that [safeLocalStorageSet] hands to [setItem]. *)
Definition stored_text (value : JSValue) : string :=
  match JSON.stringify value with
  | Some t => t
  | None => "undefined"
  end.

(** There is a window and [setItem] takes the text of [value]. *)
Definition accepts (key : string) (value : JSValue) (b : Browser) : bool :=
  window_defined b && writable key (stored_text value) (localStorage b).

(** What [endWatchSession] does to the storage once its stats are
    written: the [try] around [removeItem]. *)
Definition forget (key : string) (b : Browser) : Browser :=
  if window_defined b then
    match removeItem key (localStorage b) with
    | Some ls => with_storage ls b
    | None => b
    end
  else b.

(** The counter that an achievement of type [ty] watches. *)
Definition counter_of (ty : string) (s : Stats) : option Z :=
  if String.eqb ty "discord_connection" then discord_connections s
  else if String.eqb ty "videos_added" then videos_added s
  else if String.eqb ty "messages_sent" then messages_sent s
  else if String.eqb ty "watch_time" then watch_time s
  else if String.eqb ty "max_queue_size" then max_queue_size s
  else Some 0.

(** The ids that the definitions know. *)
Definition known (U : list Z) : Prop :=
  forall x, In x U -> In x (map id ACHIEVEMENT_DEFINITIONS).

(** The stats are evaluated one after the other, each in a render of its
    own. *)
Definition evaluate_all (Ss : list Stats) (s : State * World) : State * World :=
  fold_left (fun s S => run (checkAchievements S) (fst s) (snd s)) Ss s.

(** [h] runs [n] times, each time in a render of its own. *)
Definition each_render (h : Handler unit) (n : nat) (s : State * World)
  : State * World :=
  Nat.iter n (fun s => run h (fst s) (snd s)) s.

(** A volume between 0 and 1. *)
Definition volume_in_range (v : number) : Prop :=
  num_leb (num_of_Z 0) v = true /\ num_leb v (num_of_Z 1) = true.

(** The history after [youtubeUrl] took the values [urls] in turn, each
    with the clock text of its moment. *)
Definition history_after (urls : list (string * string))
    (start : list HistoryItem) : list HistoryItem :=
  fold_left (fun h e => historyEffect (fst e) (snd e) h) urls start.

(** An entry as the history effect makes them. *)
Definition well_formed (item : HistoryItem) : Prop :=
  exists videoId,
    getYoutubeVideoId (src item) = Some videoId /\
    name item = String.append "YouTube - " videoId /\
    App.type item = "youtube".

(** A store that happens only under a condition. *)
Definition store_if (c : bool) (key : string) (value : JSValue) (b : Browser)
  : Browser :=
  if c then safeLocalStorageSet key value b else b.

(** What is stored under [key], read without a validator. *)
Definition stored (key : string) (b : Browser) : JSValue :=
  safeLocalStorageGet key JNull None b.

(** A query parameter after [sanitizeString]. *)
Definition sanitized_param (x : option string) : string :=
  sanitizeString (match x with Some s => s | None => "" end) MAX_MESSAGE_LENGTH.

(** All three parameters of the OAuth redirect are there. *)
Definition redirected (q : UrlParams) : bool :=
  truthy_param (username q) && truthy_param (avatar q) &&
  truthy_param (userId q).

End Spec.

Import JS Constants Validation React AchievementManager App Spec.

(* ===================================================================== *)
(** * The platform model on sample inputs                                 *)
(* ===================================================================== *)

Example parseFloat_prefix :
  map (fun s => Number_toString (parseFloat (JString s)))
      ["  -12.5e1xyz"; ".5"; "."; "Infinity"; "1e"; "0x10"; ""; "12abc"]
  = ["-125"; "0.5"; "NaN"; "Infinity"; "1"; "0"; "NaN"; "12"].
Proof. vm_compute. reflexivity. Qed.

Example JSON_parse_samples :
  map (fun s => option_map ToString (JSON.parse s))
      ["[[[[1]]]]"; " [ 1 , [ 2 , 3 ] ] "; "01"; "1."; "-0"; "1E-2";
       "tru"; "[1,]"; "1 2"]
  = [Some "1"; Some "1,2,3"; None; None; Some "0"; Some "0.01";
     None; None; None].
Proof. vm_compute. reflexivity. Qed.

Example JSON_parse_object :
  JSON.parse (requote "{'a':{'b':[null,true]},'c':'x','a':2}")
  = Some (JObject [("a", JNumber (num_of_Z 2)); ("c", JString "x")]).
Proof. vm_compute. reflexivity. Qed.

Example JSON_stringify_samples :
  map JSON.stringify
      [JArray [JUndefined; JNull; JNumber NaN];
       JObject [("a", JUndefined); ("b", JNumber (num_of_Z (-12)))];
       JUndefined]
  = [Some "[null,null,null]"; Some (requote "{'b':-12}"); None].
Proof. vm_compute. reflexivity. Qed.

Example getYoutubeVideoId_samples :
  map getYoutubeVideoId
      ["https://www.youtube.com/watch?v=dQw4w9WgXcQ&t=1";
       "https://youtu.be/dQw4w9WgXcQ"; "dQw4w9WgXcQ"; "not a video"; ""]
  = [Some "dQw4w9WgXcQ"; Some "dQw4w9WgXcQ"; None; None; None].
Proof. vm_compute. reflexivity. Qed.

Example sanitizeString_samples :
  map (fun s => sanitizeString s 5) ["  abcdefgh  "; "   "; "a b"]
  = ["abcde"; ""; "a b"].
Proof. vm_compute. reflexivity. Qed.

(* ===================================================================== *)
(** * Numbers                                                             *)
(* ===================================================================== *)

Lemma Qcltb_true (x y : Qc) : Qcltb x y = true <-> (x < y)%Qc.
Proof.
  unfold Qcltb. rewrite Qclt_alt.
  destruct (x ?= y)%Qc; split; intros; congruence.
Qed.

Lemma Qcltb_false (x y : Qc) : Qcltb x y = false <-> (y <= x)%Qc.
Proof.
  split; intros H.
  - apply Qcnot_lt_le. intros Hlt. apply Qcltb_true in Hlt. congruence.
  - destruct (Qcltb x y) eqn:E; [ | reflexivity ].
    apply Qcltb_true in E. exfalso. eapply Qcle_not_lt; eauto.
Qed.

Ltac qc_order :=
  repeat match goal with
  | H : Qcltb _ _ = true |- _ => apply Qcltb_true in H
  | H : Qcltb _ _ = false |- _ => apply Qcltb_false in H
  | H : negb (Qcltb _ _) = true |- _ => apply negb_true_iff in H
  | H : negb (Qcltb _ _) = false |- _ => apply negb_false_iff in H
  | |- Qcltb _ _ = true => apply Qcltb_true
  | |- Qcltb _ _ = false => apply Qcltb_false
  | |- negb (Qcltb _ _) = true => apply negb_true_iff
  end;
  unfold Qclt, Qcle in *;
  try solve
    [ reflexivity
    | assumption
    | exfalso; lra
    | lra
    | f_equal; apply Qc_is_canon; lra ].

(** C9.  For bounds with [min <= max], [validateNumber] returns [min]
    when [parseFloat] yields NaN, and otherwise the parsed number clamped
    into [[min, max]]: [min] below the range, [max] above it, the number
    itself inside.  With bounds 0 and 1 the text 1.5 gives 1 and the text
    abc gives 0. *)
Theorem validateNumber_clamps (value : JSValue) (min max : number) :
  num_leb min max = true ->
  (isNaN (parseFloat value) = true -> validateNumber value min max = min) /\
  (isNaN (parseFloat value) = false ->
     clamped min max (parseFloat value) (validateNumber value min max)) /\
  validateNumber (JString "1.5") (num_of_Z 0) (num_of_Z 1) = num_of_Z 1 /\
  validateNumber (JString "abc") (num_of_Z 0) (num_of_Z 1) = num_of_Z 0.
Proof.
  intros Hle. unfold validateNumber, clamped.
  split; [ | split; [ | split; reflexivity ] ].
  - intros ->. reflexivity.
  - intros Hnan. rewrite Hnan.
    destruct (parseFloat value) as [ | | x | ]; [ discriminate | | | ];
      destruct min as [ | | lo | ]; try discriminate;
      destruct max as [ | | hi | ]; try discriminate;
      cbn in *;
      repeat match goal with
      | |- context [Qcltb ?a ?b] => destruct (Qcltb a b) eqn:?; cbn
      end;
      repeat split; intros; try discriminate; qc_order.
Qed.

Lemma validateNumber_clamps_witness :
  num_leb (num_of_Z 0) (num_of_Z 1) = true /\
  validateNumber (JString "1.5") (num_of_Z 0) (num_of_Z 1) = num_of_Z 1 /\
  validateNumber (JString "abc") (num_of_Z 0) (num_of_Z 1) = num_of_Z 0 /\
  validateNumber (JString " 0.25x") (num_of_Z 0) (num_of_Z 1)
  = parseFloat (JString " 0.25x") /\
  validateNumber (JArray [JNumber (num_of_Z 7)]) (num_of_Z 0) (num_of_Z 1)
  = num_of_Z 1.
Proof.
  assert (Hle : num_leb (num_of_Z 0) (num_of_Z 1) = true) by reflexivity.
  split; [ exact Hle | ].
  split; [ | split; [ | split ] ].
  - apply (validateNumber_clamps (JString "1.5") _ _ Hle).
  - apply (validateNumber_clamps (JString "abc") _ _ Hle).
  - apply (validateNumber_clamps (JString " 0.25x") _ _ Hle); reflexivity.
  - apply (validateNumber_clamps (JArray [JNumber (num_of_Z 7)]) _ _ Hle);
      reflexivity.
Defined.

(* ===================================================================== *)
(** * Player bridge                                                       *)
(* ===================================================================== *)

Ltac by_compute := vm_compute; first [ reflexivity | discriminate ].

Ltac run_handler :=
  unfold after, run; cbv [mbind mret handler_bind handler_ret rendered
    setState updateState modifyWorld getWorld fst snd].

(** C2.  A message whose origin is not on the allow-list leaves the whole
    state and the world as they were, whatever it carries: the state
    after it does not depend on its content. *)
Theorem handleMessage_drops_untrusted_origin
    (event : MessageEvent) (st : State) (w : World) :
  isValidYoutubeOrigin (origin event) = false ->
  run (handleMessage event) st w = (st, w) /\
  forall payload : JSValue,
    run (handleMessage {| origin := origin event; data := payload |}) st w
    = run (handleMessage event) st w.
Proof.
  intros Hbad.
  assert (Hdrop : forall payload,
    run (handleMessage {| origin := origin event; data := payload |}) st w
    = (st, w)).
  { intros payload. unfold handleMessage. run_handler.
    cbn [origin]. rewrite Hbad. reflexivity. }
  split.
  - destruct event as [o d]. apply (Hdrop d).
  - intros payload. rewrite Hdrop. destruct event as [o d].
    symmetry. apply (Hdrop d).
Qed.

Lemma handleMessage_drops_untrusted_origin_witness :
  let evil := {| origin := "https://evil.example";
                 data := JString ended_text |} in
  let st := set_isYoutubePlaying true
              (set_currentIndex 0
                 (set_youtubeQueue ["https://youtu.be/dQw4w9WgXcQ";
                                    "https://youtu.be/aaaaaaaaaaa"]
                    initial_state)) in
  isValidYoutubeOrigin (origin evil) = false /\
  is_ended_signal {| origin := "https://www.youtube.com"; data := data evil |} /\
  currentIndex (after (handleMessage evil) st empty_world) = 0 /\
  isYoutubePlaying (after (handleMessage evil) st empty_world) = true /\
  currentIndex
    (after (handleMessage {| origin := "https://www.youtube.com";
                             data := data evil |}) st empty_world) = 1.
Proof.
  cbv zeta.
  split; [ reflexivity | ].
  split.
  { split; [ reflexivity | ].
    exists ended_text,
      (JObject [("event", JString "onStateChange");
                ("info", JNumber (num_of_Z 0))]),
      (JString "onStateChange"), (JNumber (num_of_Z 0)).
    repeat split; vm_compute; reflexivity. }
  unfold after.
  rewrite (proj1 (handleMessage_drops_untrusted_origin
                    {| origin := "https://evil.example";
                       data := JString ended_text |} _ empty_world
                    eq_refl)).
  split; [ reflexivity | ]. split; [ reflexivity | ].
  vm_compute. reflexivity.
Defined.

(* ===================================================================== *)
(** * Queue and playback                                                  *)
(* ===================================================================== *)

Lemma handleMessage_ended (event : MessageEvent) (st : State) (w : World) :
  is_ended_signal event ->
  run (handleMessage event) st w =
  if currentIndex st + 1 <? len (youtubeQueue st)
  then (set_currentIndex (currentIndex st + 1) st, w)
  else (set_isYoutubePlaying false st, w).
Proof.
  intros [Horigin (text & d & ev & info & Hdata & Hparse & Hev & Heq1
                   & Hinfo & Heq2)].
  unfold handleMessage. run_handler.
  rewrite Horigin, Hdata.
  change (String.eqb (typeof (JString text)) "string") with true.
  cbn [negb orb].
  rewrite Hparse, Hev, Hinfo, Heq1, Heq2. cbn [andb].
  destruct (currentIndex st + 1 <? len (youtubeQueue st)); run_handler;
    reflexivity.
Qed.

(** C8.  From a state with [currentIndex >= 0]: if a next entry exists,
    the Next button and the player's ended signal both move
    [currentIndex] up by one; the button sets [isYoutubePlaying], the
    signal leaves it as it was, and the play-current effect that the new
    index triggers sets it.  Otherwise both clear [isYoutubePlaying] and
    leave [currentIndex] where it was.  The queue is never touched. *)
Theorem advance_bounds (st : State) (w : World) (event : MessageEvent) :
  0 <= currentIndex st ->
  is_ended_signal event ->
  let next := after handleNext st w in
  let ended := after (handleMessage event) st w in
  (currentIndex st + 1 < len (youtubeQueue st) ->
     currentIndex next = currentIndex st + 1 /\
     isYoutubePlaying next = true /\
     youtubeQueue next = youtubeQueue st /\
     currentIndex ended = currentIndex st + 1 /\
     isYoutubePlaying ended = isYoutubePlaying st /\
     youtubeQueue ended = youtubeQueue st /\
     isYoutubePlaying (after playCurrentEffect next w) = true /\
     isYoutubePlaying (after playCurrentEffect ended w) = true) /\
  (len (youtubeQueue st) <= currentIndex st + 1 ->
     currentIndex next = currentIndex st /\
     isYoutubePlaying next = false /\
     youtubeQueue next = youtubeQueue st /\
     currentIndex ended = currentIndex st /\
     isYoutubePlaying ended = false /\
     youtubeQueue ended = youtubeQueue st).
Proof.
  intros Hnonneg Hended. cbv zeta. unfold after.
  rewrite (handleMessage_ended event st w Hended).
  unfold handleNext, playCurrentEffect. run_handler.
  split; intros Hcmp.
  - apply Z.ltb_lt in Hcmp. rewrite Hcmp. cbn.
    rewrite Hcmp.
    assert (Hge : (currentIndex st + 1 >=? 0) = true) by (apply Z.geb_le; lia).
    rewrite Hge. cbn. repeat split.
  - apply Z.ltb_ge in Hcmp. rewrite Hcmp. cbn. repeat split.
Qed.

Lemma advance_bounds_witness :
  let st := set_isYoutubePlaying true
              (set_currentIndex 0
                 (set_youtubeQueue ["https://youtu.be/dQw4w9WgXcQ";
                                    "https://youtu.be/aaaaaaaaaaa"]
                    initial_state)) in
  let last := set_currentIndex 1 st in
  let event := {| origin := "https://www.youtube.com";
                  data := JString ended_text |} in
  (currentIndex (after handleNext st empty_world) = 1 /\
   currentIndex (after (handleMessage event) st empty_world) = 1) /\
  (currentIndex (after handleNext last empty_world) = 1 /\
   isYoutubePlaying (after handleNext last empty_world) = false /\
   currentIndex (after (handleMessage event) last empty_world) = 1 /\
   isYoutubePlaying (after (handleMessage event) last empty_world) = false).
Proof.
  cbv zeta.
  assert (Hended : is_ended_signal
            {| origin := "https://www.youtube.com";
               data := JString ended_text |}).
  { split; [ reflexivity | ].
    exists ended_text,
      (JObject [("event", JString "onStateChange");
                ("info", JNumber (num_of_Z 0))]),
      (JString "onStateChange"), (JNumber (num_of_Z 0)).
    repeat split; vm_compute; reflexivity. }
  split.
  - pose proof (proj1 (advance_bounds
      (set_isYoutubePlaying true
         (set_currentIndex 0
            (set_youtubeQueue ["https://youtu.be/dQw4w9WgXcQ";
                               "https://youtu.be/aaaaaaaaaaa"]
               initial_state)))
      empty_world _ ltac:(by_compute) Hended) ltac:(by_compute)) as H.
    split; [ apply H | apply H ].
  - pose proof (proj2 (advance_bounds
      (set_currentIndex 1
         (set_isYoutubePlaying true
            (set_currentIndex 0
               (set_youtubeQueue ["https://youtu.be/dQw4w9WgXcQ";
                                  "https://youtu.be/aaaaaaaaaaa"]
                  initial_state))))
      empty_world _ ltac:(by_compute) Hended) ltac:(by_compute)) as H.
    repeat split; apply H.
Defined.

(** ** The index invariant *)

Lemma indexOf_bounds (l : list string) (x : string) :
  indexOf l x = -1 \/ 0 <= indexOf l x < len l.
Proof.
  unfold len. induction l as [ | y l IH ]; cbn [indexOf].
  - left. reflexivity.
  - destruct (String.eqb y x).
    + right. cbn [List.length]. lia.
    + destruct (indexOf l x =? -1) eqn:E.
      * left. reflexivity.
      * right. apply Z.eqb_neq in E. cbn [List.length]. lia.
Qed.

Lemma len_app_one {A} (l : list A) (x : A) : len (l ++ [x]) = len l + 1.
Proof. unfold len. rewrite length_app. cbn. lia. Qed.

Lemma len_nonneg {A} (l : list A) : 0 <= len l.
Proof. unfold len. lia. Qed.

(** What each local operation needs to keep: the index is -1 or a valid
    offset. *)
Definition index_ok (st : State) : Prop :=
  -1 <= currentIndex st < len (youtubeQueue st) \/
  (currentIndex st = -1 /\ youtubeQueue st = []).

Lemma index_ok_alt (st : State) :
  index_ok st <-> -1 <= currentIndex st /\ index_in_bounds st.
Proof.
  unfold index_ok, index_in_bounds. pose proof (len_nonneg (youtubeQueue st)).
  split.
  - intros [ ? | [-> ->] ]; cbn; lia.
  - intros [? Hb]. left. destruct (Z.eq_dec (currentIndex st) (-1)); lia.
Qed.

Ltac unfold_handlers :=
  unfold after, run;
  cbv [handler_of addToQueue handleAddToQueue handleNext handlePrevious
       playFromHistory playCurrentEffect onVideoStateChange
       handleVolumeChange handleDiscordConnect
       trackDiscordConnection trackVideoAdded trackMessageSent
       trackQueueSize saveStats saveUnlockedAchievements storageSet
       storageGet startWatchSession watchTimeTick endWatchSession
       checkAchievements checkAchievementsEffect
       mbind mret handler_bind handler_ret rendered
       setState updateState modifyWorld getWorld fst snd].

Ltac simpl_state :=
  cbn [stats unlockedAchievements watchSessionStart youtubeUrl youtubeInput
       urlError isYoutubePlaying volume chatUsername discordConnected
       youtubeQueue currentIndex
       set_stats set_unlockedAchievements set_watchSessionStart
       set_youtubeUrl set_youtubeInput set_urlError set_isYoutubePlaying
       set_volume set_chatUsername set_discordConnected set_youtubeQueue
       set_currentIndex
       discord_connections videos_added messages_sent watch_time
       max_queue_size sessions_played
       with_discord_connections with_videos_added with_messages_sent
       with_watch_time with_max_queue_size with_sessions_played
       fst snd].

Ltac split_ifs :=
  repeat (match goal with
          | |- context [if ?c then _ else _] => destruct c eqn:?
          | |- context [match ?c with Some _ => _ | None => _ end] =>
              destruct c eqn:?
          end; cbv [fst snd]).

(** A message does nothing, or moves the index up inside the queue, or
    stops playback at the end. *)
Lemma handleMessage_cases (event : MessageEvent) (st : State) (w : World) :
  run (handleMessage event) st w = (st, w) \/
  (currentIndex st + 1 < len (youtubeQueue st) /\
   run (handleMessage event) st w
   = (set_currentIndex (currentIndex st + 1) st, w)) \/
  (len (youtubeQueue st) <= currentIndex st + 1 /\
   run (handleMessage event) st w = (set_isYoutubePlaying false st, w)).
Proof.
  unfold handleMessage. run_handler.
  destruct (negb (isValidYoutubeOrigin (origin event)) ||
            negb (String.eqb (typeof (data event)) "string"));
    [ left; reflexivity | ].
  destruct (data event) as [ | | | | text | | ]; try (left; reflexivity).
  destruct (JSON.parse text) as [ d | ]; [ | left; reflexivity ].
  destruct (get_prop d "event") as [ ev | ]; [ | left; reflexivity ].
  destruct (get_prop d "info") as [ info | ]; [ | left; reflexivity ].
  destruct (strict_eq ev (JString "onStateChange") &&
            strict_eq info (JNumber (num_of_Z 0))); [ | left; reflexivity ].
  destruct (currentIndex st + 1 <? len (youtubeQueue st)) eqn:E; right.
  - left. apply Z.ltb_lt in E. split; [ exact E | reflexivity ].
  - right. apply Z.ltb_ge in E. split; [ exact E | reflexivity ].
Qed.

Lemma step_keeps_index_ok (op : Op) (s : State * World) :
  is_local op -> index_ok (fst s) -> index_ok (fst (step s op)).
Proof.
  destruct s as [st w]. unfold step, index_ok. cbn [fst snd].
  pose proof (len_nonneg (youtubeQueue st)) as Hlen.
  destruct op as [ url | | | item | event | vs | ]; intros Hlocal Hok;
    try contradiction.
  - (* enqueue *)
    unfold_handlers. split_ifs; cbn; try assumption;
      rewrite ?len_app_one; try lia.
    all: left; lia.
  - (* advance *)
    unfold_handlers. split_ifs; cbn; try assumption. left. lia.
  - (* retreat *)
    unfold_handlers. split_ifs; cbn; try assumption. left. lia.
  - (* select from history *)
    unfold_handlers.
    pose proof (indexOf_bounds (youtubeQueue st) (src item)) as Hidx.
    split_ifs; cbn; try assumption; rewrite ?len_app_one.
    + left. apply negb_true_iff, Z.eqb_neq in Heqb0. lia.
    + left. lia.
  - (* player message *)
    cbn [handler_of].
    destruct (handleMessage_cases event st w) as [ -> | [ [? ->] | [? ->] ] ];
      cbn; try assumption. left. lia.
  - (* play-current effect *)
    unfold_handlers. split_ifs; cbn; assumption.
Qed.

(** X22.  From the initial state, every sequence of the controller's
    own operations (enqueue, next, previous, play from history, a
    message of the player, the play-current effect) keeps the index
    invariant; only the update from the chat room is left out. *)
Lemma local_operations_keep_index_in_bounds (ops : list Op) (w : World) :
  Forall is_local ops ->
  index_in_bounds (fst (exec ops (initial_state, w))).
Proof.
  intros Hlocal.
  enough (H : index_ok (fst (exec ops (initial_state, w))))
    by (apply index_ok_alt in H; apply H).
  unfold exec.
  assert (H0 : index_ok (fst (initial_state, w))) by (right; split; reflexivity).
  revert H0. generalize (initial_state, w) as s.
  induction Hlocal as [ | op ops Hop _ IH ]; intros s Hs; cbn [fold_left].
  - exact Hs.
  - apply IH. apply step_keeps_index_ok; assumption.
Qed.

Lemma local_operations_keep_index_in_bounds_witness :
  let ops := [Enqueue sample_url; PlayCurrent; Advance; Enqueue sample_url;
              PlayCurrent; Advance; PlayCurrent; Retreat] in
  currentIndex (fst (exec ops (initial_state, empty_world))) = 0 /\
  index_in_bounds (fst (exec ops (initial_state, empty_world))).
Proof.
  cbv zeta. split; [ vm_compute; reflexivity | ].
  apply (local_operations_keep_index_in_bounds
           [Enqueue sample_url; PlayCurrent; Advance; Enqueue sample_url;
            PlayCurrent; Advance; PlayCurrent; Retreat] empty_world).
  repeat constructor.
Defined.

(** C3.  The invariant does not hold in every reachable state.  From
    the initial state, one update from the chat room that carries index
    3 and no queue makes [currentIndex] 3 while the queue is empty.  And
    with three entries enqueued and the last one selected, an update
    that replaces the queue by a single entry leaves [currentIndex] at 2;
    the play-current effect that follows does not repair it.  The
    callback checks that the index is a number and not negative, and
    never compares an index with the length of the queue. *)
Theorem chat_update_breaks_index_bound :
  let update := {| videoUrl := None; playbackState := None;
                   queue := None; index := Some 3 |} in
  let st := fst (exec [ChatUpdate update] (initial_state, empty_world)) in
  let replace := {| videoUrl := None; playbackState := None;
                    queue := Some [sample_url]; index := None |} in
  let three := [Enqueue sample_url; Enqueue sample_url; Enqueue sample_url;
                PlayCurrent; Advance; PlayCurrent; Advance; PlayCurrent] in
  let before := fst (exec three (initial_state, empty_world)) in
  let st' := fst (exec (three ++ [ChatUpdate replace; PlayCurrent])
                       (initial_state, empty_world)) in
  (currentIndex st = 3 /\ youtubeQueue st = [] /\ ~ index_in_bounds st) /\
  (currentIndex before = 2 /\ len (youtubeQueue before) = 3 /\
   currentIndex st' = 2 /\ youtubeQueue st' = [sample_url] /\
   ~ index_in_bounds st').
Proof.
  cbv zeta. split.
  - split; [ reflexivity | ]. split; [ reflexivity | ].
    unfold index_in_bounds.
    change (~ (3 >= 0 -> 3 < 0)). lia.
  - split; [ vm_compute; reflexivity | ].
    split; [ vm_compute; reflexivity | ].
    assert (Hi : currentIndex
              (fst (exec ([Enqueue sample_url; Enqueue sample_url;
                           Enqueue sample_url; PlayCurrent; Advance;
                           PlayCurrent; Advance; PlayCurrent] ++
                          [ChatUpdate {| videoUrl := None;
                                         playbackState := None;
                                         queue := Some [sample_url];
                                         index := None |}; PlayCurrent])
                         (initial_state, empty_world))) = 2)
      by (vm_compute; reflexivity).
    assert (Hq : youtubeQueue
              (fst (exec ([Enqueue sample_url; Enqueue sample_url;
                           Enqueue sample_url; PlayCurrent; Advance;
                           PlayCurrent; Advance; PlayCurrent] ++
                          [ChatUpdate {| videoUrl := None;
                                         playbackState := None;
                                         queue := Some [sample_url];
                                         index := None |}; PlayCurrent])
                         (initial_state, empty_world))) = [sample_url])
      by (vm_compute; reflexivity).
    split; [ exact Hi | ]. split; [ exact Hq | ].
    unfold index_in_bounds. rewrite Hi, Hq.
    change (~ (2 >= 0 -> 2 < 1)). lia.
Qed.

(* ===================================================================== *)
(** * Achievement evaluation                                              *)
(* ===================================================================== *)

Section Evaluation.

Variable S : Stats.

Lemma Set_has_In (s : list Z) (x : Z) : Set_has s x = true <-> In x s.
Proof.
  unfold Set_has. rewrite existsb_exists. split.
  - intros (y & Hy & Heq). apply Z.eqb_eq in Heq. subst. exact Hy.
  - intros H. exists x. split; [ exact H | apply Z.eqb_refl ].
Qed.

Lemma Set_has_not_In (s : list Z) (x : Z) : Set_has s x = false <-> ~ In x s.
Proof.
  rewrite <- Set_has_In. destruct (Set_has s x); split; congruence.
Qed.

Lemma checkOne_cases (U : list Z) (b : bool) (a : Achievement) :
  (checkOne S (U, b) a = (U, b) /\
   (shouldUnlock S a = true -> In (id a) U)) \/
  (checkOne S (U, b) a = (U ++ [id a], true) /\
   shouldUnlock S a = true /\ ~ In (id a) U).
Proof.
  unfold checkOne, Set_add.
  destruct (Set_has U (id a)) eqn:Hhas; cbn [negb].
  - left. split; [ reflexivity | ]. intros _. apply Set_has_In, Hhas.
  - destruct (shouldUnlock S a) eqn:Hs.
    + right. apply Set_has_not_In in Hhas. repeat split; assumption.
    + left. split; [ reflexivity | discriminate ].
Qed.

(** An id is in the result when it was unlocked before or a definition
    with that id has its target met. *)
Lemma checkAll_In (defs : list Achievement) (U : list Z) (b : bool) (x : Z) :
  In x (fst (fold_left (checkOne S) defs (U, b))) <->
  In x U \/ exists a, In a defs /\ id a = x /\ shouldUnlock S a = true.
Proof.
  revert U b. induction defs as [ | a defs IH ]; intros U b; cbn [fold_left].
  - cbn. split; [ auto | intros [ H | (a & [] & _) ]; exact H ].
  - destruct (checkOne_cases U b a) as [ [-> Hin] | (-> & Hs & Hnin) ];
      rewrite IH; split.
    + intros [ H | (a' & Ha' & Hid & Hs') ]; [ auto | ].
      right. exists a'. cbn. auto.
    + intros [ H | (a' & [ <- | Ha' ] & Hid & Hs') ]; [ auto | | ].
      * left. subst x. auto.
      * right. exists a'. auto.
    + intros [ H | (a' & Ha' & Hid & Hs') ].
      * apply in_app_or in H. destruct H as [ H | [ <- | [] ] ]; [ auto | ].
        right. exists a. cbn. auto.
      * right. exists a'. cbn. auto.
    + intros [ H | (a' & [ <- | Ha' ] & Hid & Hs') ].
      * left. apply in_or_app. auto.
      * left. subst x. apply in_or_app. cbn. auto.
      * right. exists a'. auto.
Qed.

(** Nothing new was found exactly when the set came back as it was. *)
Lemma checkAll_no_new (defs : list Achievement) (U : list Z) (b : bool) :
  snd (fold_left (checkOne S) defs (U, b)) = false ->
  fst (fold_left (checkOne S) defs (U, b)) = U.
Proof.
  revert U b. induction defs as [ | a defs IH ]; intros U b; cbn [fold_left].
  - reflexivity.
  - destruct (checkOne_cases U b a) as [ [-> _] | (-> & _ & _) ].
    + apply IH.
    + intros H. exfalso. revert H. clear.
      generalize (U ++ [id a]). induction defs as [ | a' defs IH' ];
        intros V; cbn [fold_left].
      * discriminate.
      * destruct (checkOne_cases V true a') as [ [-> _] | (-> & _ & _) ];
          apply IH'.
Qed.

(** When every met target is already unlocked, the pass changes
    nothing. *)
Lemma checkAll_stable (defs : list Achievement) (V : list Z) (b : bool) :
  (forall a, In a defs -> shouldUnlock S a = true -> In (id a) V) ->
  fold_left (checkOne S) defs (V, b) = (V, b).
Proof.
  induction defs as [ | a defs IH ]; intros Hall; cbn [fold_left].
  - reflexivity.
  - destruct (checkOne_cases V b a) as [ [-> _] | (_ & Hs & Hnin) ].
    + apply IH. intros a' Ha'. apply Hall. cbn. auto.
    + exfalso. apply Hnin, Hall; cbn; auto.
Qed.

Lemma NoDup_snoc (U : list Z) (x : Z) :
  List.NoDup U -> ~ In x U -> List.NoDup (U ++ [x]).
Proof.
  induction 1 as [ | y U Hy HU IH ]; intros Hx; cbn.
  - constructor; [ intros [] | constructor ].
  - constructor.
    + intros Hin. apply in_app_or in Hin. destruct Hin as [ ? | [ <- | [] ] ].
      * contradiction.
      * apply Hx. cbn. auto.
    + apply IH. intros Hin. apply Hx. cbn. auto.
Qed.

Lemma checkAll_NoDup (defs : list Achievement) (U : list Z) (b : bool) :
  List.NoDup U -> List.NoDup (fst (fold_left (checkOne S) defs (U, b))).
Proof.
  revert U b. induction defs as [ | a defs IH ]; intros U b HU;
    cbn [fold_left].
  - exact HU.
  - destruct (checkOne_cases U b a) as [ [-> _] | (-> & _ & Hnin) ];
      apply IH; [ exact HU | ].
    apply NoDup_snoc; assumption.
Qed.

(** The state after [checkAchievements] holds the result of the pass;
    everything else in the state is untouched. *)
Lemma checkAchievements_unlocked (st : State) (w : World) :
  unlocked_after S st w
  = fst (checkAll ACHIEVEMENT_DEFINITIONS S (unlockedAchievements st)).
Proof.
  unfold unlocked_after, checkAchievements, checkAll. unfold_handlers.
  pose proof (checkAll_no_new ACHIEVEMENT_DEFINITIONS
                (unlockedAchievements st) false) as Hno.
  destruct (fold_left (checkOne S) ACHIEVEMENT_DEFINITIONS
              (unlockedAchievements st, false)) as [nu [ | ]];
    cbn [fst snd] in *.
  - reflexivity.
  - symmetry. apply Hno. reflexivity.
Qed.

End Evaluation.

Lemma filter_known (U l : list Z) :
  (forall x, In x l -> In x U) ->
  List.filter (fun x => negb (Set_has U x)) l = [].
Proof.
  induction l as [ | x l IH ]; intros Hsub; cbn [List.filter].
  - reflexivity.
  - rewrite (proj2 (Set_has_In U x)) by (apply Hsub; cbn; auto).
    cbn [negb]. apply IH. intros y Hy. apply Hsub. cbn. auto.
Qed.

Lemma checkAchievements_fixed (S : Stats) (st : State) (w : World) :
  (forall a, In a ACHIEVEMENT_DEFINITIONS -> shouldUnlock S a = true ->
             In (id a) (unlockedAchievements st)) ->
  run (checkAchievements S) st w = (st, w).
Proof.
  intros Hall. unfold checkAchievements, checkAll. unfold_handlers.
  rewrite (checkAll_stable S _ _ false Hall). reflexivity.
Qed.

Lemma met_is_unlocked_after (S : Stats) (st : State) (w : World) (a : Achievement) :
  In a ACHIEVEMENT_DEFINITIONS -> shouldUnlock S a = true ->
  In (id a) (unlocked_after S st w).
Proof.
  intros Ha Hs. rewrite checkAchievements_unlocked. unfold checkAll.
  apply checkAll_In. right. exists a. auto.
Qed.

(** C4.  Evaluating the same stats a second time, from the unlocked set
    the first evaluation left, changes nothing at all: the state and the
    storage stay as they were and no id is newly unlocked, so
    unlocked ∪ evaluate(S) ∪ evaluate(S) is unlocked ∪ evaluate(S).  When
    [watch_time] has reached 3600 and id 4 was not unlocked, the set
    holds id 4 exactly once after the first evaluation and exactly once
    after the second. *)
Theorem checkAchievements_idempotent (S : Stats) (st : State) (w : World) :
  let first := run (checkAchievements S) st w in
  let second := run (checkAchievements S) (fst first) (snd first) in
  second = first /\
  evaluate S (unlockedAchievements (fst first)) = [] /\
  (List.NoDup (unlockedAchievements st) ->
   ~ In 4 (unlockedAchievements st) ->
   3600 <= or0 (watch_time S) ->
   In 4 (evaluate S (unlockedAchievements st)) /\
   count_occ Z.eq_dec (unlockedAchievements (fst first)) 4 = 1%nat /\
   count_occ Z.eq_dec (unlockedAchievements (fst second)) 4 = 1%nat).
Proof.
  cbv zeta.
  assert (Hmet : forall a, In a ACHIEVEMENT_DEFINITIONS ->
            shouldUnlock S a = true ->
            In (id a) (unlockedAchievements (fst (run (checkAchievements S) st w)))).
  { intros a Ha Hs. apply (met_is_unlocked_after S st w a Ha Hs). }
  assert (Hsecond : run (checkAchievements S)
                      (fst (run (checkAchievements S) st w))
                      (snd (run (checkAchievements S) st w))
                    = run (checkAchievements S) st w).
  { rewrite (checkAchievements_fixed S _ _ Hmet).
    destruct (run (checkAchievements S) st w); reflexivity. }
  split; [ exact Hsecond | ]. split.
  - unfold evaluate, checkAll.
    rewrite (checkAll_stable S _ _ false Hmet). cbn [fst].
    apply filter_known. auto.
  - intros Hnodup Hnot Hwt. rewrite Hsecond.
    assert (H4 : In 4 (unlockedAchievements (fst (run (checkAchievements S) st w)))).
    { apply (Hmet (Build_Achievement 4 "Just Warming Up"
                     "Played videos for 1 hour total" "🥉" "watch_time" 3600)).
      - cbn. auto.
      - unfold shouldUnlock. cbn. apply Z.geb_le. exact Hwt. }
    assert (Hnd : List.NoDup
              (unlockedAchievements (fst (run (checkAchievements S) st w)))).
    { fold (after (checkAchievements S) st w). fold (unlocked_after S st w).
      rewrite checkAchievements_unlocked. apply checkAll_NoDup, Hnodup. }
    split; [ | split ].
    + unfold evaluate. apply filter_In. split.
      * fold (after (checkAchievements S) st w) in H4.
        fold (unlocked_after S st w) in H4.
        rewrite checkAchievements_unlocked in H4. exact H4.
      * apply negb_true_iff, Set_has_not_In, Hnot.
    + apply (proj1 (NoDup_count_occ' Z.eq_dec _) Hnd 4 H4).
    + apply (proj1 (NoDup_count_occ' Z.eq_dec _) Hnd 4 H4).
Qed.

Lemma checkAchievements_idempotent_witness :
  let S := with_watch_time (Some 3600) zero_stats in
  let st := set_unlockedAchievements [1] (set_stats S initial_state) in
  let first := run (checkAchievements S) st empty_world in
  let second := run (checkAchievements S) (fst first) (snd first) in
  unlockedAchievements (fst first) = [1; 4] /\
  second = first /\
  count_occ Z.eq_dec (unlockedAchievements (fst second)) 4 = 1%nat.
Proof.
  cbv zeta.
  pose proof (checkAchievements_idempotent
    (with_watch_time (Some 3600) zero_stats)
    (set_unlockedAchievements [1]
       (set_stats (with_watch_time (Some 3600) zero_stats) initial_state))
    empty_world) as H.
  cbv zeta in H. destruct H as (Hsame & _ & Hcount).
  split; [ vm_compute; reflexivity | ].
  split; [ exact Hsame | ].
  apply Hcount.
  - cbn. constructor; [ intros [] | constructor ].
  - cbn. intros [ H | [] ]. discriminate H.
  - cbn. lia.
Defined.

Lemma shouldUnlock_monotone (S S' : Stats) (a : Achievement) :
  dominates S S' -> shouldUnlock S' a = true -> shouldUnlock S a = true.
Proof.
  intros (H1 & H2 & H3 & H4 & H5 & _). unfold shouldUnlock.
  repeat match goal with
  | |- context [if ?c then _ else _] => destruct c
  end; rewrite ?Z.geb_le; try lia; auto.
Qed.

(** C5.  When every counter of [S] is at least the one of [S'], then
    from the same unlocked set the evaluation of [S] unlocks every id
    that the evaluation of [S'] unlocks, and the unlocked set it leaves
    contains the one that [S'] leaves. *)
Theorem checkAchievements_monotone (S S' : Stats) (st : State) (w : World) :
  dominates S S' ->
  (forall x, In x (evaluate S' (unlockedAchievements st)) ->
             In x (evaluate S (unlockedAchievements st))) /\
  (forall x, In x (unlocked_after S' st w) -> In x (unlocked_after S st w)).
Proof.
  intros Hdom.
  assert (Hall : forall x,
    In x (fst (checkAll ACHIEVEMENT_DEFINITIONS S' (unlockedAchievements st))) ->
    In x (fst (checkAll ACHIEVEMENT_DEFINITIONS S (unlockedAchievements st)))).
  { intros x. unfold checkAll. rewrite !checkAll_In.
    intros [ H | (a & Ha & Hid & Hs) ]; [ auto | ].
    right. exists a. eauto using shouldUnlock_monotone. }
  split; intros x.
  - unfold evaluate. rewrite !filter_In. intros [Hin Hnew]. auto.
  - rewrite !checkAchievements_unlocked. apply Hall.
Qed.

Lemma checkAchievements_monotone_witness :
  let S := with_watch_time (Some 4000) (with_videos_added (Some 12) zero_stats) in
  let S' := with_watch_time (Some 3600) zero_stats in
  dominates S S' /\
  evaluate S' [] = [4] /\ evaluate S [] = [2; 4] /\
  In 4 (evaluate S (unlockedAchievements initial_state)).
Proof.
  cbv zeta.
  assert (Hdom : dominates
            (with_watch_time (Some 4000) (with_videos_added (Some 12) zero_stats))
            (with_watch_time (Some 3600) zero_stats)).
  { unfold dominates. cbn. lia. }
  split; [ exact Hdom | ].
  split; [ reflexivity | ]. split; [ reflexivity | ].
  apply (proj1 (checkAchievements_monotone _ _ initial_state empty_world Hdom)).
  cbn. auto.
Defined.

(* ===================================================================== *)
(** * Watch sessions                                                      *)
(* ===================================================================== *)

Lemma or0_Some (z : Z) : or0 (Some z) = z.
Proof. unfold or0. destruct (Z.eqb_spec z 0); congruence. Qed.

(** The duration that the callbacks compute is positive from one whole
    second on, and only then. *)
Lemma sessionDuration_whole_second (now start : Z) :
  (sessionDuration now start >? 0) = (start + 1000 <=? now).
Proof.
  unfold sessionDuration.
  destruct (Z.leb_spec (start + 1000) now) as [ Hge | Hlt ].
  - apply Z.gtb_lt. apply Z.div_str_pos. lia.
  - destruct (Z.gtb_spec ((now - start) / 1000) 0) as [ Hpos | ];
      [ exfalso | reflexivity ].
    assert ((now - start) / 1000 <= 0); [ | lia ].
    destruct (Z.le_gt_cases 0 (now - start)).
    + rewrite Z.div_small by lia. lia.
    + apply Z.lt_le_incl, Z.div_lt_upper_bound; lia.
Qed.

(** C1, as stated, fails.  A session that is started at one clock
    reading and closed 999 ms later has a duration that is not zero, and
    closing it leaves [sessions_played] at 0: the callback counts whole
    seconds. *)
Lemma watch_session_accrual_counterexample :
  let started := run (startWatchSession 1700000000000) initial_state empty_world in
  let closed := run (endWatchSession 1700000000999) (fst started) (snd started) in
  watchSessionStart (fst started) = Some 1700000000000 /\
  1700000000999 - 1700000000000 <> 0 /\
  sessions_played (stats (fst started)) = Some 0 /\
  sessions_played (stats (fst closed)) = Some 0 /\
  watchSessionStart (fst closed) = None.
Proof.
  cbv zeta. split; [ reflexivity | ]. split; [ discriminate | ].
  split; [ reflexivity | ]. split; vm_compute; reflexivity.
Qed.

(** C1, amended.  The three callbacks of a session, each taken alone.
    The callback belongs to a render [snap]; [p] is the state its
    updates are applied to.
    Start: from idle, at a clock reading other than 0, the session is
    open at that reading and [stats] is as it was.
    Tick: with the session of its render open since [now0], a firing
    at least 1000 ms after [now0] adds exactly 1 to the [watch_time] of
    the current stats and changes nothing else in the state; an earlier
    firing changes nothing at all.
    Close: when the render holds the current stats, closing leaves
    [watch_time] as it is, adds exactly 1 to [sessions_played] when at
    least 1000 ms have passed since [now0], leaves it as it is
    otherwise, and the tracker is idle afterwards. *)
Theorem watch_session_accrual
    (snap p : State) (w : World) (now0 t now_end : Z) :
  session_open (watchSessionStart snap) = Some now0 ->
  let ticked := snd (watchTimeTick t snap (p, w)) in
  let closed := snd (endWatchSession now_end snap (p, w)) in
  (forall idle : State,
     session_open (watchSessionStart idle) = None -> now0 <> 0 ->
     session_open (watchSessionStart (fst (run (startWatchSession now0) idle w)))
     = Some now0 /\
     stats (fst (run (startWatchSession now0) idle w)) = stats idle) /\
  (now0 + 1000 <= t ->
     fst ticked
     = set_stats (with_watch_time (Some (or0 (watch_time (stats p)) + 1))
                                  (stats p)) p) /\
  (t < now0 + 1000 -> ticked = (p, w)) /\
  (stats snap = stats p ->
     watch_time (stats (fst closed)) = watch_time (stats p) /\
     (now0 + 1000 <= now_end ->
        or0 (sessions_played (stats (fst closed)))
        = or0 (sessions_played (stats p)) + 1) /\
     (now_end < now0 + 1000 ->
        sessions_played (stats (fst closed)) = sessions_played (stats p))) /\
  session_open (watchSessionStart (fst closed)) = None.
Proof.
  intros Hopen. cbv zeta.
  split; [ | split; [ | split; [ | split ] ] ].
  - intros idle Hidle Hnow. unfold_handlers. rewrite Hidle.
    cbv [fst snd]. simpl_state.
    split; [ | reflexivity ].
    cbn [session_open]. destruct (Z.eqb_spec now0 0); congruence.
  - intros Ht. unfold_handlers. rewrite Hopen, sessionDuration_whole_second.
    apply Z.leb_le in Ht. rewrite Ht. reflexivity.
  - intros Ht. unfold_handlers. rewrite Hopen, sessionDuration_whole_second.
    apply Z.leb_gt in Ht. rewrite Ht. reflexivity.
  - intros Hstats. unfold_handlers.
    rewrite Hopen, sessionDuration_whole_second.
    destruct (Z.leb_spec (now0 + 1000) now_end) as [ Hge | Hlt ];
      cbv [fst snd]; simpl_state.
    + rewrite or0_Some, Hstats.
      split; [ reflexivity | ]. split; [ reflexivity | lia ].
    + split; [ reflexivity | ]. split; [ lia | reflexivity ].
  - unfold_handlers. rewrite Hopen.
    destruct (sessionDuration now_end now0 >? 0); reflexivity.
Qed.

Lemma watch_session_accrual_witness :
  let open := set_watchSessionStart (Some 1700000000000) initial_state in
  watch_time
    (stats (fst (snd (watchTimeTick 1700000001004 open (open, empty_world)))))
  = Some 1 /\
  snd (watchTimeTick 1700000000500 open (open, empty_world))
  = (open, empty_world) /\
  sessions_played
    (stats (fst (snd (endWatchSession 1700000003500 open (open, empty_world)))))
  = Some 1 /\
  sessions_played
    (stats (fst (snd (endWatchSession 1700000000999 open (open, empty_world)))))
  = Some 0.
Proof.
  cbv zeta.
  pose proof (watch_session_accrual
    (set_watchSessionStart (Some 1700000000000) initial_state)
    (set_watchSessionStart (Some 1700000000000) initial_state)
    empty_world 1700000000000 1700000001004 1700000003500 eq_refl) as Hlate.
  pose proof (watch_session_accrual
    (set_watchSessionStart (Some 1700000000000) initial_state)
    (set_watchSessionStart (Some 1700000000000) initial_state)
    empty_world 1700000000000 1700000000500 1700000000999 eq_refl) as Hearly.
  cbv zeta in Hlate, Hearly.
  destruct Hlate as (_ & Htick & _ & Hclose & _).
  destruct Hearly as (_ & _ & Hnone & Hshort & _).
  split; [ rewrite (Htick ltac:(lia)); reflexivity | ].
  split; [ apply Hnone; lia | ].
  destruct (Hclose eq_refl) as (_ & Hcount & _).
  destruct (Hshort eq_refl) as (_ & _ & Hsame).
  split.
  - specialize (Hcount ltac:(lia)). cbn in Hcount.
    destruct (sessions_played _) as [ z | ] eqn:E; [ | discriminate Hcount ].
    vm_compute in E. congruence.
  - rewrite (Hsame ltac:(lia)). reflexivity.
Defined.

(** What the amended claim leaves out.  In the App the effect on
    [isYoutubePlaying, youtubeUrl, startWatchSession, endWatchSession]
    runs again once a tick has changed [stats], and its cleanup calls the
    [endWatchSession] of the render before the tick.  That call writes
    the stats of its own render back: the second that the tick had
    counted is gone from [watch_time] until the next cleanup, and the
    session is closed and counted although playback goes on. *)
Lemma stale_close_after_tick :
  let before := set_watchSessionStart (Some 1700000000000) initial_state in
  let ticked := run (watchTimeTick 1700000001004) before empty_world in
  let closed := snd (endWatchSession 1700000001010 before ticked) in
  watch_time (stats (fst ticked)) = Some 1 /\
  watch_time (stats (fst closed)) = Some 0 /\
  sessions_played (stats (fst closed)) = Some 1 /\
  watchSessionStart (fst closed) = None.
Proof. cbv zeta. repeat split; vm_compute; reflexivity. Qed.

(* ===================================================================== *)
(** * What the program stores survives JSON                               *)
(* ===================================================================== *)

(** ** Integers as decimal text *)

(** A property of the ten decimal digits is settled by trying each. *)
Lemma each_digit (P : Z -> Prop) :
  List.Forall P (List.map Z.of_nat (List.seq 0 10)) ->
  forall d, 0 <= d < 10 -> P d.
Proof.
  intros Hall d Hd. rewrite List.Forall_forall in Hall. apply Hall.
  apply List.in_map_iff. exists (Z.to_nat d).
  split; [ lia | apply List.in_seq; lia ].
Qed.

Ltac by_digits := repeat constructor; intros; by_compute.

Lemma digit_char_is_digit (d : Z) : 0 <= d < 10 -> is_digit (digit_char d) = true.
Proof.
  revert d. apply (each_digit (fun d => is_digit (digit_char d) = true)).
  by_digits.
Qed.

Lemma digit_val_char (d : Z) : 0 <= d < 10 -> digit_val (digit_char d) = d.
Proof.
  revert d. apply (each_digit (fun d => digit_val (digit_char d) = d)).
  by_digits.
Qed.

Lemma digit_char_zero (n : Z) :
  0 <= n < 10 -> digit_char n = "0"%char -> n = 0.
Proof.
  revert n. apply (each_digit (fun n => digit_char n = "0"%char -> n = 0)).
  repeat constructor; cbn; intros Heq;
    first [ reflexivity | discriminate Heq ].
Qed.

Lemma nat_digits_S (fuel : nat) (n : Z) (acc : chars) :
  nat_digits (S fuel) n acc =
  if n <? 10 then digit_char (n mod 10) :: acc
  else nat_digits fuel (n / 10) (digit_char (n mod 10) :: acc).
Proof. reflexivity. Qed.

Ltac split_all := repeat match goal with |- _ /\ _ => split end.

(** The digits that [nat_digits] puts in front of its accumulator. *)
Lemma nat_digits_spec (fuel : nat) :
  forall n acc, 0 <= n < 2 ^ Z.of_nat (S fuel) ->
  exists ds,
    nat_digits (S fuel) n acc = ds ++ acc /\
    ds <> [] /\
    Forall (fun c => is_digit c = true) ds /\
    (forall a, read_digits ds a = a * 10 ^ Z.of_nat (List.length ds) + n) /\
    (forall ds', ds = "0"%char :: ds' -> n = 0 /\ ds' = []).
Proof.
  induction fuel as [ | fuel IH ]; intros n acc Hn.
  - change (2 ^ Z.of_nat 1) with 2 in Hn.
    exists [digit_char n].
    assert (Hsmall : 0 <= n < 10) by lia.
    split_all.
    + rewrite nat_digits_S, Z.mod_small by lia.
      destruct (n <? 10); reflexivity.
    + discriminate.
    + repeat constructor. apply digit_char_is_digit, Hsmall.
    + intros a. unfold read_digits. cbn [fold_left List.length].
      rewrite digit_val_char by exact Hsmall.
      change (Z.of_nat 1) with 1. lia.
    + intros ds' Heq. injection Heq as Hd <-.
      split; [ apply digit_char_zero; assumption | reflexivity ].
  - rewrite nat_digits_S. destruct (Z.ltb_spec n 10) as [Hlt | Hge].
    + exists [digit_char n]. rewrite Z.mod_small by lia.
      assert (Hsmall : 0 <= n < 10) by lia.
      split_all.
      * reflexivity.
      * discriminate.
      * repeat constructor. apply digit_char_is_digit, Hsmall.
      * intros a. unfold read_digits. cbn [fold_left List.length].
        rewrite digit_val_char by exact Hsmall.
        change (Z.of_nat 1) with 1. lia.
      * intros ds' Heq. injection Heq as Hd <-.
        split; [ apply digit_char_zero; assumption | reflexivity ].
    + destruct (IH (n / 10) (digit_char (n mod 10) :: acc))
        as (ds & Heq & Hne & Hall & Hval & Hzero).
      { split; [ apply Z.div_pos; lia | ].
        apply Z.div_lt_upper_bound; [ lia | ].
        replace (Z.of_nat (S (S fuel))) with (Z.succ (Z.of_nat (S fuel))) in Hn
          by lia.
        rewrite Z.pow_succ_r in Hn by lia. lia. }
      exists (ds ++ [digit_char (n mod 10)]).
      assert (Hmod : 0 <= n mod 10 < 10) by (apply Z.mod_pos_bound; lia).
      assert (Hdiv : 1 <= n / 10) by (apply Z.div_le_lower_bound; lia).
      split_all.
      * rewrite Heq, <- app_assoc. reflexivity.
      * destruct ds; discriminate.
      * apply Forall_app. split; [ exact Hall | ].
        repeat constructor. apply digit_char_is_digit, Hmod.
      * intros a. unfold read_digits in *. rewrite fold_left_app.
        cbn [fold_left].
        rewrite Hval, digit_val_char by exact Hmod.
        rewrite length_app. cbn [List.length].
        rewrite Nat2Z.inj_add. change (Z.of_nat 1) with 1.
        rewrite Z.pow_add_r, Z.pow_1_r by lia.
        pose proof (Z.div_mod n 10 ltac:(lia)). lia.
      * intros ds' Hd. destruct ds as [ | d ds0 ]; [ congruence | ].
        cbn in Hd. injection Hd as -> <-.
        destruct (Hzero ds0 eq_refl) as [H0 _]. lia.
Qed.

Lemma decimal_of_nonneg_spec (n : Z) :
  0 <= n ->
  let ds := decimal_of_nonneg n in
  ds <> [] /\
  Forall (fun c => is_digit c = true) ds /\
  digits_val ds = n /\
  (forall ds', ds = "0"%char :: ds' -> ds' = []).
Proof.
  intros Hn. cbv zeta. unfold decimal_of_nonneg.
  destruct (nat_digits_spec (Z.to_nat (Z.log2 n)) n [])
    as (ds & Heq & Hne & Hall & Hval & Hzero).
  { split; [ exact Hn | ].
    rewrite Nat2Z.inj_succ, Z2Nat.id by apply Z.log2_nonneg.
    destruct (Z.eq_dec n 0) as [ -> | Hpos ]; [ reflexivity | ].
    apply Z.log2_spec. lia. }
  rewrite Heq, app_nil_r. split_all; try assumption.
  - change (digits_val ds) with (read_digits ds 0). rewrite Hval. lia.
  - intros ds' Hd. apply (Hzero ds' Hd).
Qed.

Lemma take_digits_app (ds rest : chars) :
  Forall (fun c => is_digit c = true) ds -> not_digit_first rest ->
  take_digits (ds ++ rest) = (ds, rest).
Proof.
  induction 1 as [ | c ds Hc _ IH ]; intros Hrest; cbn [app take_digits].
  - destruct rest as [ | c rest ]; [ reflexivity | ].
    cbn [not_digit_first] in Hrest. cbn [take_digits]. rewrite Hrest.
    reflexivity.
  - rewrite Hc, (IH Hrest). reflexivity.
Qed.

(** ** Integers through JSON *)

Lemma this_of_Z (z : Z) : this (Q2Qc (inject_Z z)) = inject_Z z.
Proof.
  unfold Q2Qc. cbn [this]. apply Qred_identity. cbn. apply Z.gcd_1_r.
Qed.

Lemma decimal_of_Qc_int (z : Z) :
  decimal_of_Qc (Q2Qc (inject_Z z)) = int_text z.
Proof.
  unfold decimal_of_Qc, int_text. rewrite this_of_Z.
  cbn [Qnum Qden inject_Z]. rewrite Z.div_1_r, Z.mod_1_r.
  cbn [Pos.size_nat frac_digits Z.eqb]. rewrite app_nil_r. reflexivity.
Qed.

Lemma digit_is_not (c x : ascii) :
  is_digit c = true -> is_digit x = false -> Ascii.eqb c x = false.
Proof.
  intros Hc Hx. destruct (Ascii.eqb_spec c x) as [ -> | ]; congruence.
Qed.

Lemma closes_not_digit (rest : chars) : closes rest -> not_digit_first rest.
Proof.
  destruct rest as [ | c r ]; [ intros; exact I | ].
  intros [ -> | [ -> | -> ] ]; reflexivity.
Qed.

Lemma parse_frac_closed (rest : chars) :
  closes rest -> JSON.parse_frac rest = Some ([], rest).
Proof.
  destruct rest as [ | c r ]; [ reflexivity | ].
  intros [ -> | [ -> | -> ] ]; reflexivity.
Qed.

Lemma parse_exp_closed (rest : chars) :
  closes rest -> JSON.parse_exp rest = Some (0, rest).
Proof.
  destruct rest as [ | c r ]; [ reflexivity | ].
  intros [ -> | [ -> | -> ] ]; reflexivity.
Qed.

Lemma parse_unsigned_digits (neg : bool) (n : Z) (rest : chars) :
  0 <= n -> closes rest ->
  JSON.parse_unsigned neg (decimal_of_nonneg n ++ rest)
  = Some (num_of_Z (if neg then - n else n), rest).
Proof.
  intros Hn Hrest.
  destruct (decimal_of_nonneg_spec n Hn) as (Hne & Hall & Hval & Hzero).
  unfold JSON.parse_unsigned.
  rewrite (take_digits_app _ rest Hall (closes_not_digit rest Hrest)).
  destruct (decimal_of_nonneg n) as [ | d ds0 ]; [ congruence | ].
  assert (Hlead : Ascii.eqb d "0" &&
                  negb (match ds0 with [] => true | _ => false end) = false).
  { destruct (Ascii.eqb_spec d "0") as [ -> | ]; [ | reflexivity ].
    rewrite (Hzero ds0 eq_refl). reflexivity. }
  rewrite Hlead, (parse_frac_closed rest Hrest), (parse_exp_closed rest Hrest).
  cbv zeta. rewrite app_nil_r, Hval.
  unfold scale10. cbn [List.length Z.of_nat Z.sub Z.opp Z.add Z.leb Z.compare].
  rewrite Z.pow_0_r, Z.mul_1_r. reflexivity.
Qed.

Lemma parse_number_int (z : Z) (rest : chars) :
  closes rest ->
  JSON.parse_number (int_text z ++ rest) = Some (num_of_Z z, rest).
Proof.
  intros Hrest. unfold JSON.parse_number, int_text.
  destruct (Z.ltb_spec z 0) as [Hneg | Hpos]; cbn [app].
  - cbn [Ascii.eqb Bool.eqb].
    rewrite (parse_unsigned_digits true _ rest (Z.abs_nonneg z) Hrest).
    do 3 f_equal. lia.
  - destruct (decimal_of_nonneg_spec _ (Z.abs_nonneg z)) as (Hne & Hall & _).
    pose proof (parse_unsigned_digits false _ rest (Z.abs_nonneg z) Hrest) as Hp.
    destruct (decimal_of_nonneg (Z.abs z)) as [ | d ds0 ]; [ congruence | ].
    cbn [app] in *.
    assert (Hd : is_digit d = true) by (inversion Hall; assumption).
    rewrite (digit_is_not d "-" Hd eq_refl), Hp.
    do 3 f_equal. lia.
Qed.

Lemma int_text_head (z : Z) :
  exists c t, int_text z = c :: t /\ (is_digit c = true \/ c = "-"%char).
Proof.
  unfold int_text.
  destruct (decimal_of_nonneg_spec _ (Z.abs_nonneg z)) as (Hne & Hall & _).
  destruct (z <? 0).
  - eexists _, _. split; [ reflexivity | right; reflexivity ].
  - destruct (decimal_of_nonneg (Z.abs z)) as [ | d ds ]; [ congruence | ].
    exists d, ds. split; [ reflexivity | left ]. inversion Hall; assumption.
Qed.

Lemma not_digit_is_not (c x : ascii) :
  is_digit c = true \/ c = "-"%char ->
  is_digit x = false -> x <> "-"%char -> Ascii.eqb x c = false.
Proof.
  intros Hc Hx Hm. destruct (Ascii.eqb_spec x c) as [ -> | ]; [ | reflexivity ].
  destruct Hc; congruence.
Qed.

(** A value that starts like a number is read by [parse_number]. *)
Lemma parse_value_number_path (fuel : nat) (c : ascii) (r : chars) :
  is_digit c = true \/ c = "-"%char ->
  JSON.parse_value (S fuel) (c :: r)
  = match JSON.parse_number (c :: r) with
    | Some (n, r') => Some (JNumber n, r')
    | None => None
    end.
Proof.
  intros Hc.
  assert (Hws : JSON.is_ws c = false).
  { destruct Hc as [Hc | ->]; [ | reflexivity ].
    unfold JSON.is_ws, is_digit in *.
    destruct (nat_of_ascii c) as [ | n ]; [ discriminate | ].
    apply andb_true_iff in Hc. destruct Hc as [H1 H2].
    apply Nat.leb_le in H1, H2.
    repeat match goal with
    | |- context [(?a =? ?b)%nat] =>
        destruct (Nat.eqb_spec a b); [ lia | ]
    end. reflexivity. }
  cbn [JSON.parse_value JSON.skip_ws]. rewrite Hws.
  assert (Hne : forall x, is_digit x = false -> x <> "-"%char ->
                          Ascii.eqb c x = false).
  { intros x Hx Hm. rewrite Ascii.eqb_sym. apply not_digit_is_not; assumption. }
  rewrite (Hne "["%char), (Hne "{"%char), (Hne dquote)
    by (reflexivity || discriminate).
  cbn [starts_with list_ascii_of_string].
  rewrite (not_digit_is_not c "t"), (not_digit_is_not c "f"),
    (not_digit_is_not c "n") by (assumption || reflexivity || discriminate).
  reflexivity.
Qed.

Lemma parse_value_int (fuel : nat) (z : Z) (rest : chars) :
  closes rest ->
  JSON.parse_value (S fuel) (int_text z ++ rest)
  = Some (JNumber (num_of_Z z), rest).
Proof.
  intros Hrest.
  pose proof (parse_number_int z rest Hrest) as Hnum.
  destruct (int_text_head z) as (c & t & Heq & Hc).
  rewrite Heq in *. cbn [app] in *.
  rewrite (parse_value_number_path fuel c _ Hc), Hnum. reflexivity.
Qed.

(** ** Arrays of integers through JSON *)

Lemma serialize_ints (l : list Z) :
  JSON.serialize (JArray (ints l))
  = Some ("["%char :: JSON.join [","%char] (map int_text l) ++ ["]"%char]).
Proof.
  cbn [JSON.serialize]. unfold ints. rewrite map_map.
  rewrite (map_ext _ int_text); [ reflexivity | ].
  intros z. cbn [JSON.serialize]. unfold num_of_Z.
  apply decimal_of_Qc_int.
Qed.

Lemma join_cons2 (sep p q : chars) (ps : list chars) :
  JSON.join sep (p :: q :: ps) = p ++ sep ++ JSON.join sep (q :: ps).
Proof. reflexivity. Qed.

Lemma parse_elements_S (fuel : nat) (s : chars) (acc : list JSValue) :
  JSON.parse_elements (S fuel) s acc
  = match JSON.parse_value fuel s with
    | Some (v, r) =>
        match JSON.skip_ws r with
        | c :: r' =>
            if Ascii.eqb c "," then JSON.parse_elements fuel r' (v :: acc)
            else if Ascii.eqb c "]" then Some (JArray (rev (v :: acc)), r')
            else None
        | [] => None
        end
    | None => None
    end.
Proof. reflexivity. Qed.

Lemma parse_elements_ints (l : list Z) :
  forall (acc : list JSValue) (fuel : nat) (rest : chars),
  l <> [] -> (List.length l < fuel)%nat ->
  JSON.parse_elements fuel
    (JSON.join [","%char] (map int_text l) ++ "]"%char :: rest) acc
  = Some (JArray (rev acc ++ ints l), rest).
Proof.
  induction l as [ | z l IH ]; intros acc fuel rest Hne Hfuel;
    [ congruence | ].
  destruct fuel as [ | [ | fuel ] ]; cbn [List.length] in Hfuel; try lia.
  rewrite parse_elements_S.
  destruct l as [ | z' l' ].
  - cbn [map JSON.join].
    rewrite (parse_value_int fuel z ("]"%char :: rest))
      by (right; right; reflexivity).
    reflexivity.
  - cbn [map]. rewrite join_cons2, <- !app_assoc. cbn [app].
    rewrite (parse_value_int fuel z) by (left; reflexivity).
    change (JSON.skip_ws (","%char :: ?x)) with (","%char :: x).
    change (JSON.join [","%char] (int_text z' :: map int_text l'))
      with (JSON.join [","%char] (map int_text (z' :: l'))).
    cbn [Ascii.eqb Bool.eqb].
    rewrite (IH (JNumber (num_of_Z z) :: acc) (S fuel) rest)
      by (try discriminate; cbn [List.length] in *; lia).
    cbn [rev]. rewrite <- app_assoc. reflexivity.
Qed.

Lemma number_head_not_ws (c : ascii) :
  is_digit c = true \/ c = "-"%char -> JSON.is_ws c = false.
Proof.
  intros [Hc | ->]; [ | reflexivity ].
  unfold JSON.is_ws, is_digit in *.
  apply andb_true_iff in Hc. destruct Hc as [H1 H2].
  apply Nat.leb_le in H1, H2.
  repeat match goal with
  | |- context [(?a =? ?b)%nat] => destruct (Nat.eqb_spec a b); [ lia | ]
  end. reflexivity.
Qed.

Lemma parse_value_array (fuel : nat) (r : chars) :
  JSON.parse_value (S fuel) ("["%char :: r)
  = match JSON.skip_ws r with
    | c :: r' =>
        if Ascii.eqb c "]" then Some (JArray [], r')
        else JSON.parse_elements fuel r []
    | [] => None
    end.
Proof. reflexivity. Qed.

Lemma length_join_ge (sep : chars) (parts : list chars) :
  Forall (fun p => p <> []) parts ->
  (List.length parts <= List.length (JSON.join sep parts))%nat.
Proof.
  induction 1 as [ | p ps Hp _ IH ]; [ cbn; lia | ].
  destruct ps as [ | q ps ].
  - cbn. destruct p; [ congruence | cbn; lia ].
  - rewrite join_cons2, !length_app. cbn [List.length] in *.
    destruct p; [ congruence | cbn [List.length]; unfold chars in *; lia ].
Qed.

Lemma int_text_nonempty (z : Z) : int_text z <> [].
Proof. destruct (int_text_head z) as (c & t & -> & _). discriminate. Qed.

(** Every array of integers survives JSON. *)
Lemma ints_survive_JSON (l : list Z) :
  exists text,
    JSON.stringify (JArray (ints l)) = Some text /\
    JSON.parse text = Some (JArray (ints l)).
Proof.
  unfold JSON.stringify. rewrite serialize_ints. cbn [option_map].
  eexists. split; [ reflexivity | ].
  unfold JSON.parse. rewrite list_ascii_of_string_of_list_ascii.
  set (body := JSON.join [","%char] (map int_text l)).
  assert (Hlen : (List.length l <= List.length body)%nat).
  { unfold body. rewrite <- (length_map int_text l). apply length_join_ge.
    apply List.Forall_forall. intros p Hp. apply in_map_iff in Hp.
    destruct Hp as (z & <- & _). apply int_text_nonempty. }
  cbn [List.length]. rewrite length_app. cbn [List.length].
  replace (2 * S (List.length body + 1) + 2)%nat
    with (S (S (2 * List.length body + 4)))%nat by lia.
  rewrite parse_value_array.
  destruct l as [ | z l' ].
  - reflexivity.
  - assert (Hhead : exists c t, body = c :: t /\
                      (is_digit c = true \/ c = "-"%char)).
    { unfold body. destruct (int_text_head z) as (c & t & Heq & Hc).
      destruct l' as [ | z' l'' ]; cbn [map].
      - cbn [JSON.join]. rewrite Heq. eauto.
      - rewrite join_cons2, Heq. cbn [app]. eauto. }
    destruct Hhead as (c & t & Hbody & Hc).
    assert (Hskip : JSON.skip_ws (body ++ ["]"%char]) = body ++ ["]"%char]).
    { rewrite Hbody. cbn [app JSON.skip_ws].
      rewrite (number_head_not_ws c Hc). reflexivity. }
    rewrite Hskip. rewrite Hbody at 1. cbn [app].
    assert (Hclose : Ascii.eqb c "]" = false).
    { rewrite Ascii.eqb_sym.
      apply not_digit_is_not; [ exact Hc | reflexivity | discriminate ]. }
    rewrite Hclose.
    unfold body. rewrite (parse_elements_ints (z :: l') [] _ [])
      by (try discriminate; fold body; cbn [List.length] in *; lia).
    reflexivity.
Qed.

(** ** Objects with integer members through JSON *)

Lemma quote_char_plain (c : ascii) : plain c = true -> JSON.quote_char c = [c].
Proof.
  unfold plain, JSON.quote_char. intros H.
  apply andb_true_iff in H. destruct H as [H H32].
  apply andb_true_iff in H. destruct H as [Hq Hb].
  apply Nat.leb_le in H32.
  apply negb_true_iff in Hq, Hb.
  destruct (Ascii.eqb_spec c dquote) as [ | Hq' ]; [ discriminate | ].
  destruct (Ascii.eqb_spec c "\") as [ | Hb' ]; [ discriminate | ].
  assert (H34 : nat_of_ascii c <> 34%nat).
  { intros E. apply Hq'. rewrite <- (ascii_nat_embedding c), E. reflexivity. }
  assert (H92 : nat_of_ascii c <> 92%nat).
  { intros E. apply Hb'. rewrite <- (ascii_nat_embedding c), E. reflexivity. }
  repeat match goal with
  | |- context [(?a =? ?b)%nat] => destruct (Nat.eqb_spec a b); [ lia | ]
  | |- context [(?a <? ?b)%nat] => destruct (Nat.ltb_spec a b); [ lia | ]
  end. reflexivity.
Qed.

Lemma quote_plain (k : string) :
  plain_key k ->
  JSON.quote k = dquote :: list_ascii_of_string k ++ [dquote].
Proof.
  unfold plain_key, JSON.quote. intros H. do 2 f_equal.
  induction H as [ | c cs Hc _ IH ]; [ reflexivity | ].
  cbn [flat_map]. rewrite (quote_char_plain c Hc), IH. reflexivity.
Qed.

Lemma parse_string_body_plain (cs : chars) :
  forall (acc rest : chars),
  Forall (fun c => plain c = true) cs ->
  JSON.parse_string_body (cs ++ dquote :: rest) acc
  = Some (string_of_list_ascii (rev acc ++ cs), rest).
Proof.
  induction cs as [ | c cs IH ]; intros acc rest Hall.
  - cbn [app JSON.parse_string_body]. rewrite Ascii.eqb_refl, app_nil_r.
    reflexivity.
  - inversion Hall as [ | ? ? Hc Hcs ]; subst.
    cbn [app JSON.parse_string_body].
    unfold plain in Hc.
    apply andb_true_iff in Hc. destruct Hc as [Hc H32].
    apply andb_true_iff in Hc. destruct Hc as [Hq Hb].
    apply negb_true_iff in Hq, Hb. rewrite Hq, Hb.
    apply Nat.leb_le in H32.
    destruct (Nat.ltb_spec (nat_of_ascii c) 32); [ lia | ].
    rewrite (IH (c :: acc) rest Hcs). cbn [rev]. rewrite <- app_assoc.
    reflexivity.
Qed.

Lemma serialize_int_members (ms : list (string * Z)) :
  JSON.serialize (JObject (int_members ms))
  = Some ("{"%char :: JSON.join [","%char] (map member_text ms) ++ ["}"%char]).
Proof.
  cbn [JSON.serialize].
  match goal with
  | |- context [flat_map ?f (int_members ms)] =>
      assert (Hflat : flat_map f (int_members ms) = map member_text ms)
  end.
  { unfold int_members.
    induction ms as [ | [k z] ms IH ]; [ reflexivity | ].
    cbn [map flat_map fst snd JSON.serialize app]. rewrite IH.
    unfold member_text, num_of_Z. cbn [fst snd].
    rewrite decimal_of_Qc_int. reflexivity. }
  rewrite Hflat. reflexivity.
Qed.

Lemma assoc_set_fresh {A} (k : string) (v : A) (l : list (string * A)) :
  ~ In k (map fst l) -> assoc_set k v l = l ++ [(k, v)].
Proof.
  induction l as [ | [k' v'] l IH ]; intros Hnin; [ reflexivity | ].
  cbn [assoc_set app]. cbn [map fst In] in Hnin.
  destruct (String.eqb_spec k k') as [ -> | Hne ].
  - exfalso. apply Hnin. left. reflexivity.
  - rewrite IH; [ reflexivity | ]. intros Hin. apply Hnin. right. exact Hin.
Qed.

Lemma parse_members_S (fuel : nat) (s : chars) (acc : list (string * JSValue)) :
  JSON.parse_members (S fuel) s acc
  = match JSON.skip_ws s with
    | q :: s1 =>
        if Ascii.eqb q dquote then
          match JSON.parse_string_body s1 [] with
          | Some (k, s2) =>
              match JSON.skip_ws s2 with
              | colon :: s3 =>
                  if Ascii.eqb colon ":" then
                    match JSON.parse_value fuel s3 with
                    | Some (v, r) =>
                        match JSON.skip_ws r with
                        | c :: r' =>
                            if Ascii.eqb c ","
                            then JSON.parse_members fuel r' (assoc_set k v acc)
                            else if Ascii.eqb c "}"
                            then Some (JObject (assoc_set k v acc), r')
                            else None
                        | [] => None
                        end
                    | None => None
                    end
                  else None
              | [] => None
              end
          | None => None
          end
        else None
    | [] => None
    end.
Proof. reflexivity. Qed.

Lemma skip_ws_dquote (s : chars) : JSON.skip_ws (dquote :: s) = dquote :: s.
Proof. reflexivity. Qed.

Lemma parse_member (fuel : nat) (k : string) (z : Z)
    (acc : list (string * JSValue)) (next : ascii) (rest : chars) :
  plain_key k -> ~ In k (map fst acc) ->
  next = ","%char \/ next = "}"%char ->
  JSON.parse_members (S (S fuel)) (member_text (k, z) ++ next :: rest) acc
  = if Ascii.eqb next ","
    then JSON.parse_members (S fuel) rest
           (acc ++ [(k, JNumber (num_of_Z z))])
    else Some (JObject (acc ++ [(k, JNumber (num_of_Z z))]), rest).
Proof.
  intros Hk Hfresh Hnext. rewrite parse_members_S.
  unfold member_text. cbn [fst snd]. rewrite (quote_plain k Hk).
  cbn [app]. rewrite skip_ws_dquote, Ascii.eqb_refl.
  rewrite <- !app_assoc. cbn [app].
  rewrite (parse_string_body_plain _ [] _ Hk). cbn [rev app].
  rewrite string_of_list_ascii_of_string.
  change (JSON.skip_ws (":"%char :: ?x)) with (":"%char :: x).
  cbn [Ascii.eqb Bool.eqb].
  rewrite (parse_value_int fuel z (next :: rest))
    by (destruct Hnext as [ -> | -> ]; [ left | right; left ]; reflexivity).
  rewrite (assoc_set_fresh k _ acc Hfresh).
  destruct Hnext as [ -> | -> ]; reflexivity.
Qed.

Lemma parse_members_ints (ms : list (string * Z)) :
  forall (acc : list (string * JSValue)) (fuel : nat) (rest : chars),
  ms <> [] -> (List.length ms < fuel)%nat ->
  Forall plain_key (map fst ms) ->
  List.NoDup (map fst acc ++ map fst ms) ->
  JSON.parse_members fuel
    (JSON.join [","%char] (map member_text ms) ++ "}"%char :: rest) acc
  = Some (JObject (acc ++ int_members ms), rest).
Proof.
  induction ms as [ | [k z] ms IH ]; intros acc fuel rest Hne Hfuel Hplain Hnd;
    [ congruence | ].
  destruct fuel as [ | [ | fuel ] ]; cbn [List.length] in Hfuel; try lia.
  cbn [map fst] in Hplain, Hnd.
  inversion Hplain as [ | ? ? Hk Hks ]; subst.
  assert (Hfresh : ~ In k (map fst acc)).
  { apply NoDup_remove_2 in Hnd. intros Hin. apply Hnd.
    apply in_or_app. left. exact Hin. }
  destruct ms as [ | kz' ms' ].
  - cbn [map JSON.join].
    rewrite (parse_member fuel k z acc "}" rest Hk Hfresh)
      by (right; reflexivity).
    reflexivity.
  - cbn [map]. rewrite join_cons2, <- !app_assoc. cbn [app].
    rewrite (parse_member fuel k z acc "," _ Hk Hfresh)
      by (left; reflexivity).
    cbn [Ascii.eqb Bool.eqb].
    change (JSON.join [","%char] (member_text kz' :: map member_text ms'))
      with (JSON.join [","%char] (map member_text (kz' :: ms'))).
    rewrite (IH (acc ++ [(k, JNumber (num_of_Z z))]) (S fuel) rest).
    + unfold int_members. cbn [map fst snd]. rewrite <- app_assoc.
      reflexivity.
    + discriminate.
    + cbn [List.length] in *. lia.
    + exact Hks.
    + rewrite map_app. cbn [map fst]. rewrite <- app_assoc. cbn [app].
      exact Hnd.
Qed.

Lemma parse_value_object (fuel : nat) (r : chars) :
  JSON.parse_value (S fuel) ("{"%char :: r)
  = match JSON.skip_ws r with
    | c :: r' =>
        if Ascii.eqb c "}" then Some (JObject [], r')
        else JSON.parse_members fuel r []
    | [] => None
    end.
Proof. reflexivity. Qed.

Lemma member_text_head (kz : string * Z) :
  exists t, member_text kz = dquote :: t.
Proof. unfold member_text, JSON.quote. cbn [app]. eauto. Qed.

(** Every object whose members are integers under distinct plain names
    survives JSON. *)
Lemma int_members_survive_JSON (ms : list (string * Z)) :
  Forall plain_key (map fst ms) -> List.NoDup (map fst ms) ->
  exists text,
    JSON.stringify (JObject (int_members ms)) = Some text /\
    JSON.parse text = Some (JObject (int_members ms)).
Proof.
  intros Hplain Hnd.
  unfold JSON.stringify. rewrite serialize_int_members. cbn [option_map].
  eexists. split; [ reflexivity | ].
  unfold JSON.parse. rewrite list_ascii_of_string_of_list_ascii.
  set (body := JSON.join [","%char] (map member_text ms)).
  assert (Hlen : (List.length ms <= List.length body)%nat).
  { unfold body. rewrite <- (length_map member_text ms). apply length_join_ge.
    apply List.Forall_forall. intros p Hp. apply in_map_iff in Hp.
    destruct Hp as (kz & <- & _).
    destruct (member_text_head kz) as (t & ->). discriminate. }
  cbn [List.length]. rewrite length_app. cbn [List.length].
  replace (2 * S (List.length body + 1) + 2)%nat
    with (S (S (2 * List.length body + 4)))%nat by lia.
  rewrite parse_value_object.
  destruct ms as [ | kz ms' ].
  - reflexivity.
  - assert (Hhead : exists t, body = dquote :: t).
    { unfold body. destruct (member_text_head kz) as (t & Heq).
      destruct ms' as [ | kz' ms'' ]; cbn [map].
      - cbn [JSON.join]. rewrite Heq. eauto.
      - rewrite join_cons2, Heq. cbn [app]. eauto. }
    destruct Hhead as (t & Hbody).
    assert (Hskip : JSON.skip_ws (body ++ ["}"%char]) = body ++ ["}"%char]).
    { rewrite Hbody. reflexivity. }
    rewrite Hskip. rewrite Hbody at 1. cbn [app].
    change (Ascii.eqb dquote "}") with false. cbv iota.
    unfold body. rewrite (parse_members_ints (kz :: ms') [] _ []).
    + reflexivity.
    + discriminate.
    + fold body. cbn [List.length] in *. lia.
    + exact Hplain.
    + exact Hnd.
Qed.

(** ** The stat mapping through JSON *)

Lemma js_of_stats_members (s : Stats) :
  js_of_stats s = JObject (int_members (stats_members s)).
Proof.
  destruct s as [[a| ] [b| ] [c| ] [d| ] [e| ] [f| ]]; reflexivity.
Qed.

Lemma keys_ok_spec (ks : list string) :
  keys_ok ks = true -> Forall plain_key ks /\ List.NoDup ks.
Proof.
  unfold keys_ok. intros H. apply andb_true_iff in H. destruct H as [Hp Hn].
  split.
  - apply List.Forall_forall. intros k Hk.
    rewrite forallb_forall in Hp. specialize (Hp k Hk).
    unfold plain_key. apply List.Forall_forall. intros c Hc.
    rewrite forallb_forall in Hp. apply Hp, Hc.
  - induction ks as [ | k ks IH ]; [ constructor | ].
    apply andb_true_iff in Hn. destruct Hn as [Hk Hn].
    constructor.
    + intros Hin. apply negb_true_iff in Hk.
      assert (existsb (String.eqb k) ks = true).
      { apply existsb_exists. exists k. split; [ exact Hin | ].
        apply String.eqb_refl. }
      congruence.
    + apply IH. * rewrite forallb_forall in *. intros x Hx. apply Hp.
        right. exact Hx. * exact Hn.
Qed.

(** Every stat mapping survives JSON: what [saveStats] writes is read
    back as the same object. *)
Lemma stats_survive_JSON (s : Stats) :
  exists text,
    JSON.stringify (js_of_stats s) = Some text /\
    JSON.parse text = Some (js_of_stats s).
Proof.
  rewrite js_of_stats_members.
  assert (Hkeys : keys_ok (map fst (stats_members s)) = true).
  { destruct s as [[a| ] [b| ] [c| ] [d| ] [e| ] [f| ]]; reflexivity. }
  apply keys_ok_spec in Hkeys. destruct Hkeys as [Hplain Hnd].
  apply int_members_survive_JSON; assumption.
Qed.

Lemma stats_of_js_of_stats (s : Stats) : stats_of_js (js_of_stats s) = s.
Proof.
  assert (Hz : forall z, Z_of_js (JNumber (num_of_Z z)) = Some z).
  { intros z. unfold Z_of_js, num_of_Z. rewrite this_of_Z. reflexivity. }
  destruct s as [[a| ] [b| ] [c| ] [d| ] [e| ] [f| ]];
    unfold stats_of_js, counter_of_js, js_of_stats;
    cbn [js_of_counter app get_prop assoc_get String.eqb Ascii.eqb Bool.eqb
         discord_connections videos_added messages_sent watch_time
         max_queue_size sessions_played];
    rewrite ?Hz; reflexivity.
Qed.


(* ===================================================================== *)
(** * Persistence                                                         *)
(* ===================================================================== *)

(** C6, as stated, fails in two ways.  When the storage has no room the
    write is dropped and the load returns the default; and NaN, which
    the validator accepts, is written as null and comes back as null,
    which the validator rejects. *)
Lemma storage_roundtrip_counterexample :
  (is_number (JNumber (num_of_Z 1)) = true /\
   safeLocalStorageGet VOLUME JNull (Some is_number)
     (safeLocalStorageSet VOLUME (JNumber (num_of_Z 1)) full_browser)
   = JNull /\
   JNull <> JNumber (num_of_Z 1)) /\
  (is_number (JNumber NaN) = true /\
   safeLocalStorageGet VOLUME (JNumber (num_of_Z 1)) (Some is_number)
     (safeLocalStorageSet VOLUME (JNumber NaN) empty_browser)
   = JNumber (num_of_Z 1) /\
   JNumber (num_of_Z 1) <> JNumber NaN).
Proof.
  split; (split; [ reflexivity | split; [ vm_compute; reflexivity | discriminate ] ]).
Qed.

(** The array that [saveUnlockedAchievements] stores survives JSON. *)
Lemma unlocked_survive_JSON (unlocked : list Z) :
  exists text,
    JSON.stringify (array_of_Set unlocked) = Some text /\
    JSON.parse text = Some (array_of_Set unlocked).
Proof. apply ints_survive_JSON. Qed.

Lemma getItem_after_setItem (key text : string) (st : Storage) :
  writable key text st = true ->
  exists st', setItem key text st = Some st' /\
              getItem key st' = Some (Some text).
Proof.
  unfold writable, setItem, getItem.
  destruct (blocked st) eqn:Hblocked; [ discriminate | ].
  destruct (_ <=? _)%nat; [ | discriminate ].
  intros _. eexists. split; [ reflexivity | ].
  cbn [blocked items]. rewrite lookup_insert_eq. reflexivity.
Qed.

(** C6, amended.  When there is a window, [setItem] accepts the write,
    and the value survives JSON (parsing what [JSON.stringify] produced
    gives the value back), then a load after the store returns the
    value, for any default and any validator that accepts the value. *)
Theorem storage_roundtrip
    (key : string) (value defaultValue : JSValue)
    (validator : option (JSValue -> bool)) (b : Browser) (text : string) :
  window_defined b = true ->
  JSON.stringify value = Some text ->
  JSON.parse text = Some value ->
  writable key text (localStorage b) = true ->
  (forall p, validator = Some p -> p value = true) ->
  safeLocalStorageGet key defaultValue validator
    (safeLocalStorageSet key value b) = value.
Proof.
  intros Hwin Htext Hparse Hroom Hvalid.
  destruct (getItem_after_setItem key text _ Hroom) as (st & Hset & Hget).
  unfold safeLocalStorageSet. rewrite Hwin, Htext. cbn [negb]. rewrite Hset.
  unfold safeLocalStorageGet, with_storage.
  cbn [window_defined localStorage]. rewrite Hwin, Hget. cbn [negb].
  unfold safeJsonParse. rewrite Hparse.
  destruct validator as [p | ]; [ | reflexivity ].
  rewrite (Hvalid p eq_refl). reflexivity.
Qed.

(** The stats that [saveStats] stores are the stats that the load
    effect reads back, whenever the write is accepted. *)
Lemma saved_stats_load_back (s : Stats) (b : Browser) (defaultValue : JSValue) :
  window_defined b = true ->
  (forall text, JSON.stringify (js_of_stats s) = Some text ->
                writable STATS text (localStorage b) = true) ->
  stats_of_js
    (safeLocalStorageGet STATS defaultValue None
       (safeLocalStorageSet STATS (js_of_stats s) b)) = s.
Proof.
  intros Hwin Hroom.
  destruct (stats_survive_JSON s) as (text & Htext & Hparse).
  destruct (getItem_after_setItem STATS text _ (Hroom text Htext))
    as (st & Hset & Hget).
  unfold safeLocalStorageSet. rewrite Hwin, Htext. cbn [negb]. rewrite Hset.
  unfold safeLocalStorageGet, with_storage.
  cbn [window_defined localStorage]. rewrite Hwin, Hget. cbn [negb].
  unfold safeJsonParse. rewrite Hparse. apply stats_of_js_of_stats.
Qed.

Lemma storage_roundtrip_witness :
  let value := js_of_stats (with_watch_time (Some 42) zero_stats) in
  safeLocalStorageGet STATS JNull None
    (safeLocalStorageSet STATS value empty_browser) = value /\
  safeLocalStorageGet USERNAME JNull (Some (fun v => String.eqb (typeof v) "string"))
    (safeLocalStorageSet USERNAME (JString "Cool User") empty_browser)
  = JString "Cool User".
Proof.
  cbv zeta. split.
  - apply (storage_roundtrip STATS _ JNull None empty_browser
      (requote "{'discord_connections':0,'videos_added':0,'messages_sent':0,'watch_time':42,'max_queue_size':0,'sessions_played':0}")).
    + reflexivity.
    + vm_compute. reflexivity.
    + vm_compute. reflexivity.
    + vm_compute. reflexivity.
    + intros p Hp. discriminate Hp.
  - apply (storage_roundtrip USERNAME _ JNull _ empty_browser
      (requote "'Cool User'")).
    + reflexivity.
    + vm_compute. reflexivity.
    + vm_compute. reflexivity.
    + vm_compute. reflexivity.
    + intros p Hp. injection Hp as <-. reflexivity.
Defined.

(* ===================================================================== *)
(** * Enqueue                                                             *)
(* ===================================================================== *)

(** C7, as stated, fails in three ways.  The empty locator fails
    validation but is ignored without an error; a locator with blanks
    around it is valid, and the queue receives its trimmed text; and
    when [max_queue_size] was 5 before, it is 5 and not 1 after the
    first enqueue. *)
Lemma addToQueue_counterexample :
  (isValidYoutubeUrl "" = false /\
   urlError (after (addToQueue "") initial_state empty_world)
   <> INVALID_URL) /\
  (isValidYoutubeUrl " https://youtu.be/dQw4w9WgXcQ " = true /\
   youtubeQueue (after (addToQueue " https://youtu.be/dQw4w9WgXcQ ")
                       initial_state empty_world)
   = ["https://youtu.be/dQw4w9WgXcQ"] /\
   ["https://youtu.be/dQw4w9WgXcQ"] <> [" https://youtu.be/dQw4w9WgXcQ "]) /\
  (isValidYoutubeUrl "https://youtu.be/dQw4w9WgXcQ" = true /\
   max_queue_size
     (stats (after (addToQueue "https://youtu.be/dQw4w9WgXcQ")
                   (set_stats (with_max_queue_size (Some 5) zero_stats)
                              initial_state)
                   empty_world))
   = Some 5).
Proof.
  split; [ | split ].
  - split; [ reflexivity | vm_compute; discriminate ].
  - split; [ reflexivity | ]. split; [ vm_compute; reflexivity | discriminate ].
  - split; vm_compute; reflexivity.
Qed.

(** The lost count: the two tracking calls of one enqueue read the same
    rendered stats, so when the high-water mark rises the second call
    writes the old [videos_added] back. *)
Lemma addToQueue_loses_video_count :
  let st := after (addToQueue "https://youtu.be/dQw4w9WgXcQ")
                  initial_state empty_world in
  videos_added (stats st) = Some 0 /\ max_queue_size (stats st) = Some 1.
Proof. cbv zeta. split; vm_compute; reflexivity. Qed.

(** What an accepted enqueue does. *)
Lemma addToQueue_accepted (url : string) (st : State) (w : World) :
  let st' := after (addToQueue url) st w in
  let sanitizedUrl := sanitizeString url MAX_MESSAGE_LENGTH in
  url <> "" -> isValidYoutubeUrl sanitizedUrl = true ->
  youtubeQueue st' = youtubeQueue st ++ [sanitizedUrl] /\
  urlError st' = "" /\
  or0 (max_queue_size (stats st'))
  = Z.max (or0 (max_queue_size (stats st))) (len (youtubeQueue st) + 1) /\
  (len (youtubeQueue st) + 1 <= or0 (max_queue_size (stats st)) ->
     or0 (videos_added (stats st')) = or0 (videos_added (stats st)) + 1) /\
  (youtubeQueue st = [] ->
     youtubeQueue st' = [sanitizedUrl] /\
     currentIndex st' = 0 /\ isYoutubePlaying st' = true) /\
  (youtubeQueue st <> [] ->
     currentIndex st' = currentIndex st /\
     isYoutubePlaying st' = isYoutubePlaying st).
Proof.
  cbv zeta. intros Hne Hok. apply String.eqb_neq in Hne.
  unfold_handlers. rewrite Hne, Hok. cbn [negb]. simpl_state.
  rewrite len_app_one.
  pose proof (len_nonneg (youtubeQueue st)) as Hlen.
  assert (Hempty : youtubeQueue st = [] <-> len (youtubeQueue st) = 0).
  { unfold len. destruct (youtubeQueue st); cbn; split;
      intros; try reflexivity; try discriminate; lia. }
  destruct (Z.gtb_spec (len (youtubeQueue st) + 1)
                       (or0 (max_queue_size (stats st)))) as [Hmark | Hmark];
    destruct (Z.eqb_spec (len (youtubeQueue st)) 0) as [Hzero | Hzero];
    destruct (Z.gtb_spec (len (youtubeQueue st) + 1) 0) as [Hpos | Hpos];
    cbn [andb]; cbv [fst snd]; simpl_state;
    rewrite ?or0_Some;
    repeat split; intros;
    try reflexivity; try lia;
    try (rewrite (proj2 Hempty) by assumption; reflexivity);
    try (exfalso; apply Hempty in Hzero; contradiction);
    try (exfalso; match goal with H : youtubeQueue st = [] |- _ =>
           apply Hempty in H; lia end).
Qed.

(** C7, amended.  An empty locator is ignored.  A non-empty locator
    whose sanitized text is not a video URL changes nothing but
    [urlError], which gets the validation message.  Otherwise the
    sanitized text is appended and [urlError] is cleared;
    [max_queue_size] becomes the larger of its old value and the new
    length, and [videos_added] grows by 1 when the mark does not rise;
    into an empty queue the callback selects index 0 and starts
    playing, into a non-empty one it leaves [currentIndex] and
    [isYoutubePlaying] alone. *)
Theorem addToQueue_contract (url : string) (st : State) (w : World) :
  let st' := after (addToQueue url) st w in
  let sanitizedUrl := sanitizeString url MAX_MESSAGE_LENGTH in
  (url = "" -> run (addToQueue url) st w = (st, w)) /\
  (url <> "" -> isValidYoutubeUrl sanitizedUrl = false ->
     youtubeQueue st' = youtubeQueue st /\
     currentIndex st' = currentIndex st /\
     isYoutubePlaying st' = isYoutubePlaying st /\
     stats st' = stats st /\
     urlError st' = INVALID_URL) /\
  (url <> "" -> isValidYoutubeUrl sanitizedUrl = true ->
     youtubeQueue st' = youtubeQueue st ++ [sanitizedUrl] /\
     urlError st' = "" /\
     or0 (max_queue_size (stats st'))
     = Z.max (or0 (max_queue_size (stats st))) (len (youtubeQueue st) + 1) /\
     (len (youtubeQueue st) + 1 <= or0 (max_queue_size (stats st)) ->
        or0 (videos_added (stats st')) = or0 (videos_added (stats st)) + 1) /\
     (youtubeQueue st = [] ->
        youtubeQueue st' = [sanitizedUrl] /\
        currentIndex st' = 0 /\ isYoutubePlaying st' = true) /\
     (youtubeQueue st <> [] ->
        currentIndex st' = currentIndex st /\
        isYoutubePlaying st' = isYoutubePlaying st)).
Proof.
  cbv zeta. split; [ | split ].
  - intros ->. reflexivity.
  - intros Hne Hbad. apply String.eqb_neq in Hne.
    unfold_handlers. rewrite Hne, Hbad. cbn. repeat split.
  - apply addToQueue_accepted.
Qed.

Lemma addToQueue_contract_witness :
  let st' := after (addToQueue sample_url) initial_state empty_world in
  let seen := set_stats (with_max_queue_size (Some 3) zero_stats)
                        initial_state in
  let st'' := after (addToQueue sample_url) seen empty_world in
  (youtubeQueue st' = [sample_url] /\ currentIndex st' = 0 /\
   isYoutubePlaying st' = true /\ or0 (max_queue_size (stats st')) = 1) /\
  (or0 (videos_added (stats st'')) = 1 /\
   or0 (max_queue_size (stats st'')) = 3) /\
  urlError (after (addToQueue "not a video") initial_state empty_world)
  = INVALID_URL.
Proof.
  cbv zeta.
  assert (Hsan : sanitizeString sample_url MAX_MESSAGE_LENGTH = sample_url)
    by (vm_compute; reflexivity).
  assert (Hne : sample_url <> "") by discriminate.
  assert (Hok : isValidYoutubeUrl (sanitizeString sample_url MAX_MESSAGE_LENGTH)
                = true) by (vm_compute; reflexivity).
  split; [ | split ].
  - destruct (addToQueue_contract sample_url initial_state empty_world)
      as (_ & _ & H).
    destruct (H Hne Hok) as (_ & _ & Hmax & _ & Hfirst & _).
    destruct (Hfirst eq_refl) as (Hq & Hi & Hp).
    rewrite Hsan in Hq.
    split; [ exact Hq | ]. split; [ exact Hi | ]. split; [ exact Hp | ].
    rewrite Hmax. reflexivity.
  - destruct (addToQueue_contract sample_url
                (set_stats (with_max_queue_size (Some 3) zero_stats)
                           initial_state) empty_world) as (_ & _ & H).
    destruct (H Hne Hok) as (_ & _ & Hmax & Hadded & _).
    split.
    + rewrite Hadded; [ reflexivity | by_compute ].
    + rewrite Hmax. reflexivity.
  - destruct (addToQueue_contract "not a video" initial_state empty_world)
      as (_ & H & _).
    apply H; [ discriminate | vm_compute; reflexivity ].
Defined.

(** An accepted enqueue changes the queue, so the play-current effect
    runs after it; with a selected entry that effect sets
    [isYoutubePlaying], also when playback was paused. *)
Lemma playCurrentEffect_after_enqueue (url : string) (st : State) (w w' : World) :
  url <> "" ->
  isValidYoutubeUrl (sanitizeString url MAX_MESSAGE_LENGTH) = true ->
  0 <= currentIndex st < len (youtubeQueue st) ->
  isYoutubePlaying
    (after playCurrentEffect (after (addToQueue url) st w) w') = true.
Proof.
  intros Hne Hv Hidx.
  assert (Hq : youtubeQueue st <> []).
  { intros Hq. rewrite Hq in Hidx. unfold len in Hidx. cbn in Hidx. lia. }
  destruct (addToQueue_accepted url st w Hne Hv)
    as (Hqueue & _ & _ & _ & _ & Hkeep).
  destruct (Hkeep Hq) as (Hi & _).
  remember (after (addToQueue url) st w) as st1 eqn:Hst1. clear Hst1.
  unfold playCurrentEffect. run_handler.
  rewrite Hi, Hqueue, len_app_one.
  assert (Hin : (currentIndex st >=? 0) &&
                (currentIndex st <? len (youtubeQueue st) + 1) = true).
  { apply andb_true_iff. split; [ apply Z.geb_le | apply Z.ltb_lt ]; lia. }
  rewrite Hin. reflexivity.
Qed.

(* ===================================================================== *)
(** * Discord connections                                                 *)
(* ===================================================================== *)

Lemma bind_run {A B} (m : Handler A) (k : A -> Handler B)
    (snap : State) (p : State * World) :
  (m ≫= k) snap p = k (fst (m snap p)) snap (snd (m snap p)).
Proof.
  unfold mbind, handler_bind. destruct (m snap p). reflexivity.
Qed.

(** A click on the connect button counts a connection at once, in the
    state and in the storage's copy, and only then leaves the page. *)
Lemma handleDiscordConnect_counts_attempt (st : State) (w : World) :
  stats (after handleDiscordConnect st w)
  = with_discord_connections
      (Some (or0 (discord_connections (stats st)) + 1)) (stats st).
Proof. reflexivity. Qed.

(** After the click the first achievement's target is met, whatever
    becomes of the connection. *)
Lemma attempt_unlocks_first_connection (st : State) (w : World)
    (st' : State) (w' : World) :
  0 <= or0 (discord_connections (stats st)) ->
  In 1 (unlocked_after (stats (after handleDiscordConnect st w)) st' w').
Proof.
  intros Hpos. rewrite handleDiscordConnect_counts_attempt.
  apply (met_is_unlocked_after _ st' w'
           (Build_Achievement 1 "First Connection"
              "Connected to Discord for the first time" "🎉"
              "discord_connection" 1)).
  - cbn. auto.
  - unfold shouldUnlock. cbn [AchievementManager.type String.eqb Ascii.eqb
      Bool.eqb target discord_connections with_discord_connections].
    rewrite or0_Some. apply Z.geb_le. lia.
Qed.

(** The identity effect with all three parameters present: whatever the
    pending state and the storage hold, [stats] becomes the stats of the
    render the effect belongs to with one more connection. *)
Lemma identityEffect_counts_from_render
    (defaultUsername : string) (snap : State) (p : State * World) :
  all_present (location_search (snd p)) ->
  stats (fst (snd (identityEffect defaultUsername snap p)))
  = with_discord_connections
      (Some (or0 (discord_connections (stats snap)) + 1)) (stats snap).
Proof.
  intros (Hu & Ha & Hi). destruct p as [st w]. cbn [snd] in *.
  unfold identityEffect.
  cbv [trackDiscordConnection saveStats storageSet storageGet
       mbind mret handler_bind handler_ret rendered
       setState updateState modifyWorld getWorld fst snd].
  destruct (negb (truthy _));
    destruct (truthy _ && truthy _);
    cbn [location_search set_browser]; rewrite Hu, Ha, Hi; reflexivity.
Qed.

Lemma loadSavedData_keeps_address (snap : State) (p : State * World) :
  location_search (snd (snd (loadSavedData snap p))) = location_search (snd p).
Proof.
  destruct p as [st w]. unfold loadSavedData.
  cbv [storageGet mbind mret handler_bind handler_ret rendered
       setState updateState modifyWorld getWorld fst snd].
  destruct (truthy _); reflexivity.
Qed.

Lemma checkAchievementsEffect_keeps_address (snap : State) (p : State * World) :
  location_search (snd (snd (checkAchievementsEffect snap p)))
  = location_search (snd p).
Proof.
  destruct p as [st w]. unfold checkAchievementsEffect, checkAchievements.
  cbv [saveUnlockedAchievements storageSet mbind mret handler_bind
       handler_ret rendered setState updateState modifyWorld getWorld
       fst snd].
  destruct (checkAll _ _ _) as [nu [ | ]]; reflexivity.
Qed.

Lemma loadVolumeEffect_keeps_stats (snap : State) (p : State * World) :
  stats (fst (snd (loadVolumeEffect snap p))) = stats (fst p).
Proof.
  destruct p as [st w]. unfold loadVolumeEffect.
  cbv [storageGet mbind mret handler_bind handler_ret rendered
       setState updateState modifyWorld getWorld fst snd].
  destruct (safeLocalStorageGet _ _ _ _); reflexivity.
Qed.

Lemma playCurrentEffect_keeps_stats (snap : State) (p : State * World) :
  stats (fst (snd (playCurrentEffect snap p))) = stats (fst p).
Proof.
  destruct p as [st w]. unfold playCurrentEffect.
  cbv [mbind mret handler_bind handler_ret rendered
       setState updateState modifyWorld getWorld fst snd].
  destruct (_ && _); [ reflexivity | ].
  destruct (_ =? _); reflexivity.
Qed.

(** A page load with all three parameters in the address leaves
    [stats] at the initial stats with one connection, whatever the
    storage held: the effect that counts the connection belongs to the
    first render, whose stats are the initial ones, and its update
    comes after the one that loads the saved stats. *)
Lemma mount_with_identity_resets_stats (defaultUsername : string) (w : World) :
  all_present (location_search w) ->
  stats (fst (mount defaultUsername w))
  = with_discord_connections (Some 1) zero_stats.
Proof.
  intros Hall. unfold mount, run, mountEffects.
  rewrite !bind_run.
  rewrite playCurrentEffect_keeps_stats, loadVolumeEffect_keeps_stats.
  rewrite identityEffect_counts_from_render; [ reflexivity | ].
  rewrite checkAchievementsEffect_keeps_address, loadSavedData_keeps_address.
  exact Hall.
Qed.

(** C10.  One complete connection flow from a fresh start: the click
    counts one connection and stores it; the page load that the OAuth
    redirect causes, with all three parameters, marks the user as
    connected and leaves the count at 1, in the state and in the
    storage, where the claim expects 2.  With 7 videos counted before
    the click, the same page load also puts [videos_added] back to 0. *)
Theorem discord_flow_counts_once :
  let clicked := run handleDiscordConnect initial_state empty_world in
  let returned := mount "CoolUser1" (arrive redirect_params (snd clicked)) in
  let seven := with_videos_added (Some 7) zero_stats in
  let saved := run (saveStats seven) initial_state empty_world in
  let clicked7 := run handleDiscordConnect (fst saved) (snd saved) in
  let returned7 := mount "CoolUser1" (arrive redirect_params (snd clicked7)) in
  (discord_connections (stats (fst clicked)) = Some 1 /\
   discord_connections (stored_stats (snd clicked)) = Some 1 /\
   discordConnected (fst returned) = true /\
   discord_connections (stats (fst returned)) = Some 1 /\
   discord_connections (stored_stats (snd returned)) = Some 1) /\
  (stats (fst clicked7) = with_discord_connections (Some 1) seven /\
   stored_stats (snd clicked7) = with_discord_connections (Some 1) seven /\
   stats (fst returned7) = with_discord_connections (Some 1) zero_stats /\
   stored_stats (snd returned7) = with_discord_connections (Some 1) zero_stats).
Proof.
  cbv zeta. repeat split; vm_compute; reflexivity.
Qed.

(* ===================================================================== *)
(** * Further properties of the code                                      *)
(* ===================================================================== *)

(** ** Video ids *)

Lemma take_id_sound (n : nat) :
  forall (s id : chars),
  take_id n s = Some id ->
  exists rest, s = id ++ rest /\ List.length id = n /\
               forallb is_id_char id = true.
Proof.
  induction n as [ | n IH ]; intros s id H; cbn [take_id] in H.
  - injection H as <-. exists s. repeat split.
  - destruct s as [ | c s ]; [ discriminate | ].
    destruct (is_id_char c) eqn:Hc; [ | discriminate ].
    destruct (take_id n s) as [ id' | ] eqn:Hid; [ | discriminate ].
    injection H as <-.
    destruct (IH s id' Hid) as (rest & -> & Hlen & Hall).
    exists rest. cbn [app List.length forallb]. rewrite Hc, Hall, Hlen.
    repeat split.
Qed.

Lemma take_id_complete (id rest : chars) :
  forallb is_id_char id = true ->
  take_id (List.length id) (id ++ rest) = Some id.
Proof.
  induction id as [ | c id IH ]; intros Hall; cbn [List.length take_id app].
  - reflexivity.
  - cbn [forallb] in Hall. apply andb_true_iff in Hall.
    destruct Hall as [Hc Hall]. rewrite Hc, (IH Hall). reflexivity.
Qed.

Lemma string_of_list_ascii_app (a b : chars) :
  string_of_list_ascii (a ++ b)
  = String.append (string_of_list_ascii a) (string_of_list_ascii b).
Proof.
  induction a as [ | c a IH ]; [ reflexivity | ].
  cbn [app string_of_list_ascii]. rewrite IH. reflexivity.
Qed.

Lemma list_ascii_of_string_app (a b : string) :
  list_ascii_of_string (String.append a b)
  = list_ascii_of_string a ++ list_ascii_of_string b.
Proof.
  induction a as [ | c a IH ]; [ reflexivity | ].
  change (String.append (String c a) b) with (String c (String.append a b)).
  cbn [app list_ascii_of_string]. rewrite IH. reflexivity.
Qed.

Lemma length_list_ascii (s : string) :
  List.length (list_ascii_of_string s) = String.length s.
Proof.
  induction s as [ | c s IH ]; [ reflexivity | ].
  cbn [list_ascii_of_string List.length String.length]. rewrite IH.
  reflexivity.
Qed.

(** Where the pattern finds an id, the text holds it behind [v=] or a
    slash. *)
Lemma YOUTUBE_URL_PATTERN_sound (s : chars) (id : string) :
  YOUTUBE_URL_PATTERN s = Some id ->
  exists pre sep post,
    s = pre ++ sep ++ list_ascii_of_string id ++ post /\
    (sep = ["v"; "="]%char \/ sep = ["/"]%char) /\
    String.length id = 11%nat /\
    forallb is_id_char (list_ascii_of_string id) = true.
Proof.
  induction s as [ | c r IH ]; intros H; cbn [YOUTUBE_URL_PATTERN] in H;
    [ discriminate | ].
  match type of H with
  | match ?h with _ => _ end = _ => destruct h as [ found | ] eqn:Hhere
  end.
  - injection H as <-.
    assert (Hfound : exists sep rest,
              c :: r = sep ++ found ++ rest /\
              (sep = ["v"; "="]%char \/ sep = ["/"]%char) /\
              List.length found = 11%nat /\
              forallb is_id_char found = true).
    { destruct (Ascii.eqb_spec c "v") as [ -> | _ ].
      - destruct r as [ | e r' ]; [ discriminate | ].
        destruct (Ascii.eqb_spec e "=") as [ -> | _ ]; [ | discriminate ].
        destruct (take_id_sound _ _ _ Hhere) as (rest & -> & Hlen & Hall).
        exists ["v"; "="]%char, rest. auto.
      - destruct (Ascii.eqb_spec c "/") as [ -> | _ ]; [ | discriminate ].
        destruct (take_id_sound _ _ _ Hhere) as (rest & -> & Hlen & Hall).
        exists ["/"]%char, rest. auto. }
    destruct Hfound as (sep & rest & Heq & Hsep & Hlen & Hall).
    exists [], sep, rest.
    rewrite list_ascii_of_string_of_list_ascii.
    rewrite <- length_list_ascii, list_ascii_of_string_of_list_ascii.
    auto.
  - destruct (IH H) as (pre & sep & post & -> & Hrest).
    exists (c :: pre), sep, post. split; [ reflexivity | exact Hrest ].
Qed.

(** Behind any text, [v=] or a slash followed by eleven characters of
    the class is a match; the pattern looks at nothing else. *)
Lemma YOUTUBE_URL_PATTERN_complete (pre sep id post : chars) :
  sep = ["v"; "="]%char \/ sep = ["/"]%char ->
  List.length id = 11%nat -> forallb is_id_char id = true ->
  exists found, YOUTUBE_URL_PATTERN (pre ++ sep ++ id ++ post) = Some found.
Proof.
  intros Hsep Hlen Hall.
  induction pre as [ | c pre IH ].
  - pose proof (take_id_complete id post Hall) as Hid. rewrite Hlen in Hid.
    destruct Hsep as [ -> | -> ]; cbn [app YOUTUBE_URL_PATTERN Ascii.eqb Bool.eqb];
      rewrite Hid; eauto.
  - cbn [app YOUTUBE_URL_PATTERN].
    match goal with
    | |- exists _, match ?h with _ => _ end = _ => destruct h
    end; eauto.
Qed.

(** X1.  An id that [getYoutubeVideoId] returns has eleven characters
    of the class [[0-9A-Za-z_-]], and the URL holds it right behind [v=]
    or behind a slash. *)
Theorem getYoutubeVideoId_sound (url id : string) :
  getYoutubeVideoId url = Some id ->
  String.length id = 11%nat /\
  forallb is_id_char (list_ascii_of_string id) = true /\
  exists pre sep post : string,
    url = String.append pre (String.append sep (String.append id post)) /\
    (sep = "v=" \/ sep = "/").
Proof.
  unfold getYoutubeVideoId. intros H.
  destruct (YOUTUBE_URL_PATTERN_sound _ _ H)
    as (pre & sep & post & Heq & Hsep & Hlen & Hall).
  split; [ exact Hlen | ]. split; [ exact Hall | ].
  exists (string_of_list_ascii pre), (string_of_list_ascii sep),
         (string_of_list_ascii post).
  split.
  - rewrite <- (string_of_list_ascii_of_string url), Heq.
    rewrite !string_of_list_ascii_app, string_of_list_ascii_of_string.
    reflexivity.
  - destruct Hsep as [ -> | -> ]; [ left | right ]; reflexivity.
Qed.

Lemma getYoutubeVideoId_sound_witness :
  getYoutubeVideoId "https://youtu.be/dQw4w9WgXcQ" = Some "dQw4w9WgXcQ" /\
  String.length "dQw4w9WgXcQ" = 11%nat /\
  forallb is_id_char (list_ascii_of_string "dQw4w9WgXcQ") = true /\
  exists pre sep post : string,
    "https://youtu.be/dQw4w9WgXcQ"
    = String.append pre (String.append sep (String.append "dQw4w9WgXcQ" post)) /\
    (sep = "v=" \/ sep = "/").
Proof.
  split; [ reflexivity | ].
  apply (getYoutubeVideoId_sound "https://youtu.be/dQw4w9WgXcQ" "dQw4w9WgXcQ").
  reflexivity.
Defined.

(** X2.  Whatever stands before and after, a slash or [v=] followed by
    eleven characters of the class makes a URL valid: the validator
    looks at neither the scheme nor the host. *)
Theorem isValidYoutubeUrl_any_host (pre id post : string) :
  String.length id = 11%nat ->
  forallb is_id_char (list_ascii_of_string id) = true ->
  isValidYoutubeUrl (String.append pre (String.append "/" (String.append id post)))
  = true /\
  isValidYoutubeUrl (String.append pre (String.append "v=" (String.append id post)))
  = true.
Proof.
  intros Hlen Hall. rewrite <- length_list_ascii in Hlen.
  unfold isValidYoutubeUrl, getYoutubeVideoId.
  rewrite !list_ascii_of_string_app.
  split.
  - destruct (YOUTUBE_URL_PATTERN_complete (list_ascii_of_string pre)
                (list_ascii_of_string "/") (list_ascii_of_string id)
                (list_ascii_of_string post)) as (found & ->); auto.
  - destruct (YOUTUBE_URL_PATTERN_complete (list_ascii_of_string pre)
                (list_ascii_of_string "v=") (list_ascii_of_string id)
                (list_ascii_of_string post)) as (found & ->); auto.
Qed.

Lemma isValidYoutubeUrl_any_host_witness :
  isValidYoutubeUrl "https://evil.example/aaaaaaaaaaa?x=1" = true /\
  isValidYoutubeUrl "javascript:v=___________" = true.
Proof.
  split.
  - apply (isValidYoutubeUrl_any_host "https://evil.example" "aaaaaaaaaaa" "?x=1");
      reflexivity.
  - apply (isValidYoutubeUrl_any_host "javascript:" "___________" "");
      reflexivity.
Defined.

Lemma substring0_length (n : nat) (s : string) :
  String.length (substring0 n s) = Nat.min n (String.length s).
Proof.
  unfold substring0. revert s.
  induction n as [ | n IH ]; intros s.
  - destruct s; reflexivity.
  - destruct s as [ | c s ]; [ reflexivity | ].
    cbn [String.substring String.length Nat.min]. rewrite IH. reflexivity.
Qed.

Lemma substring0_prefix (n : nat) (s : string) :
  exists t, s = String.append (substring0 n s) t.
Proof.
  unfold substring0. revert s.
  induction n as [ | n IH ]; intros s.
  - exists s. destruct s; reflexivity.
  - destruct s as [ | c s ]; [ exists ""; reflexivity | ].
    destruct (IH s) as (t & Ht). exists t.
    cbn [String.substring].
    change (String.append (String c ?a) t) with (String c (String.append a t)).
    rewrite <- Ht. reflexivity.
Qed.

Lemma substring0_all (n : nat) (s : string) :
  (String.length s <= n)%nat -> substring0 n s = s.
Proof.
  unfold substring0. revert s.
  induction n as [ | n IH ]; intros s Hlen.
  - destruct s; [ reflexivity | cbn in Hlen; lia ].
  - destruct s as [ | c s ]; [ reflexivity | ].
    cbn [String.substring]. rewrite IH; [ reflexivity | ].
    cbn [String.length] in Hlen. lia.
Qed.

(** What [skip_spaces] drops is white space, and what it leaves does not
    start with any. *)
Lemma skip_spaces_split (l : chars) :
  exists p, l = p ++ skip_spaces l /\ forallb is_space p = true.
Proof.
  induction l as [ | c l IH ]; [ exists []; split; reflexivity | ].
  cbn [skip_spaces]. destruct (is_space c) eqn:Hc.
  - destruct IH as (p & Hp & Hall). exists (c :: p).
    cbn [app forallb]. rewrite Hc, Hall, <- Hp. split; reflexivity.
  - exists []. split; reflexivity.
Qed.

Lemma skip_spaces_clean (l : chars) : starts_clean (skip_spaces l).
Proof.
  induction l as [ | c l IH ]; [ exact I | ].
  cbn [skip_spaces]. destruct (is_space c) eqn:Hc; [ exact IH | exact Hc ].
Qed.

Lemma skip_spaces_fixed (l : chars) : starts_clean l -> skip_spaces l = l.
Proof.
  destruct l as [ | c l ]; [ reflexivity | ].
  cbn [starts_clean skip_spaces]. intros ->. reflexivity.
Qed.

(** The trimmed text starts and ends clean. *)
Lemma trim_chars_clean (l : chars) :
  starts_clean (trim_chars l) /\ starts_clean (rev (trim_chars l)).
Proof.
  unfold trim_chars. rewrite rev_involutive.
  split; [ | apply skip_spaces_clean ].
  pose proof (skip_spaces_clean l) as Ha.
  destruct (skip_spaces_split (rev (skip_spaces l))) as (p & Hp & _).
  apply (f_equal (@rev ascii)) in Hp.
  rewrite rev_involutive, rev_app_distr in Hp.
  destruct (rev (skip_spaces (rev (skip_spaces l)))) as [ | c t ];
    [ exact I | ].
  rewrite Hp in Ha. exact Ha.
Qed.

Lemma trim_chars_fixed (l : chars) :
  starts_clean l -> starts_clean (rev l) -> trim_chars l = l.
Proof.
  intros H1 H2. unfold trim_chars.
  rewrite (skip_spaces_fixed l H1), (skip_spaces_fixed _ H2).
  apply rev_involutive.
Qed.

Lemma trim_trim (s : string) : trim (trim s) = trim s.
Proof.
  unfold trim. rewrite list_ascii_of_string_of_list_ascii.
  destruct (trim_chars_clean (list_ascii_of_string s)) as [H1 H2].
  rewrite (trim_chars_fixed _ H1 H2). reflexivity.
Qed.

(** X3.  The result of [sanitizeString] has at most [maxLength]
    characters, is a prefix of the trimmed input, does not start with
    white space, and is the trimmed input itself when that fits. *)
Theorem sanitizeString_bounds (input : string) (maxLength : nat) :
  let out := sanitizeString input maxLength in
  (String.length out <= maxLength)%nat /\
  (exists cut, trim input = String.append out cut) /\
  starts_clean (list_ascii_of_string out) /\
  ((String.length (trim input) <= maxLength)%nat -> out = trim input).
Proof.
  cbv zeta. unfold sanitizeString.
  split; [ rewrite substring0_length; lia | ].
  split; [ apply substring0_prefix | ].
  split; [ | apply substring0_all ].
  destruct (substring0_prefix maxLength (trim input)) as (cut & Hcut).
  destruct (trim_chars_clean (list_ascii_of_string input)) as [Hclean _].
  assert (Htrim : list_ascii_of_string (trim input)
                  = trim_chars (list_ascii_of_string input)).
  { unfold trim. apply list_ascii_of_string_of_list_ascii. }
  rewrite <- Htrim, Hcut, list_ascii_of_string_app in Hclean.
  destruct (list_ascii_of_string (substring0 maxLength (trim input)));
    [ exact I | exact Hclean ].
Qed.

(** X4.  When the trimmed input fits into [maxLength], sanitizing the
    result once more changes nothing.  Beyond the limit the cut can end
    in white space, which a second pass takes away. *)
Theorem sanitizeString_idempotent_when_fits (input : string) (maxLength : nat) :
  (String.length (trim input) <= maxLength)%nat ->
  sanitizeString (sanitizeString input maxLength) maxLength
  = sanitizeString input maxLength.
Proof.
  intros Hfits. unfold sanitizeString.
  rewrite (substring0_all _ (trim input) Hfits), trim_trim.
  apply substring0_all, Hfits.
Qed.

Lemma sanitizeString_idempotent_when_fits_witness :
  sanitizeString (sanitizeString "  ab  cd  " 6) 6 = sanitizeString "  ab  cd  " 6 /\
  sanitizeString "  ab  cd  " 3 = "ab " /\
  sanitizeString (sanitizeString "  ab  cd  " 3) 3 = "ab".
Proof.
  split; [ | split; reflexivity ].
  apply (sanitizeString_idempotent_when_fits "  ab  cd  " 6).
  vm_compute. lia.
Defined.

Lemma floor_scaled (r : Qc) (n : Z) :
  is_random r -> 0 < n -> 0 <= floor (r * Q2Qc (inject_Z n)) < n.
Proof.
  intros [H0 H1] Hn.
  assert (Hpos : (Q2Qc 0 < Q2Qc (inject_Z n))%Qc).
  { unfold Qclt. cbn [this Q2Qc]. rewrite !Qred_correct.
    unfold Qlt. cbn. lia. }
  assert (Hlo : (Q2Qc 0 <= r * Q2Qc (inject_Z n))%Qc).
  { replace (Q2Qc 0) with (Q2Qc 0 * Q2Qc (inject_Z n))%Qc by ring.
    apply Qcmult_le_compat_r; [ exact H0 | apply Qclt_le_weak, Hpos ]. }
  assert (Hhi : (r * Q2Qc (inject_Z n) < Q2Qc (inject_Z n))%Qc).
  { replace (Q2Qc (inject_Z n)) with (Q2Qc 1 * Q2Qc (inject_Z n))%Qc at 2 by ring.
    apply Qcmult_lt_compat_r; assumption. }
  unfold floor. set (q := (r * Q2Qc (inject_Z n))%Qc) in *.
  unfold Qcle, Qclt in Hlo, Hhi. cbn [this Q2Qc] in Hlo, Hhi.
  rewrite Qred_correct in Hlo, Hhi.
  unfold Qle, Qlt in Hlo, Hhi. cbn [Qnum Qden inject_Z] in Hlo, Hhi.
  split.
  - apply Z.div_pos; lia.
  - apply Z.div_lt_upper_bound; lia.
Qed.

Lemma at_index_In (array : list string) (i : Z) :
  0 <= i < Z.of_nat (List.length array) -> In (at_index array i) array.
Proof.
  intros Hi. unfold at_index.
  destruct (Z.ltb_spec i 0); [ lia | ]. apply nth_In. lia.
Qed.

Lemma digit_is_username_char (c : ascii) :
  is_digit c = true -> is_username_char c = true.
Proof.
  unfold is_digit, is_username_char. cbv zeta. intros ->.
  rewrite !orb_true_r. reflexivity.
Qed.

Lemma read_digits_lower (ds : chars) :
  forall a, Forall (fun c => is_digit c = true) ds -> 0 <= a ->
  a * 10 ^ Z.of_nat (List.length ds) <= read_digits ds a.
Proof.
  unfold read_digits.
  induction ds as [ | d ds IH ]; intros a Hall Ha.
  - cbn. lia.
  - inversion Hall as [ | ? ? Hd Hds ]; subst.
    cbn [fold_left List.length].
    assert (Hv : 0 <= digit_val d).
    { unfold is_digit, digit_val in *. cbv zeta in Hd.
      apply andb_true_iff in Hd. destruct Hd as [Hd _].
      apply Nat.leb_le in Hd. lia. }
    specialize (IH (10 * a + digit_val d) Hds ltac:(lia)).
    rewrite Nat2Z.inj_succ, Z.pow_succ_r by lia.
    pose proof (Z.pow_nonneg 10 (Z.of_nat (List.length ds)) ltac:(lia)).
    nia.
Qed.

(** A number below [10^k] has at most [k] digits. *)
Lemma decimal_of_nonneg_length (n : Z) (k : nat) :
  0 <= n < 10 ^ Z.of_nat k -> (1 <= k)%nat ->
  (List.length (decimal_of_nonneg n) <= k)%nat.
Proof.
  intros Hn Hk.
  destruct (decimal_of_nonneg_spec n (proj1 Hn)) as (Hne & Hall & Hval & Hzero).
  destruct (decimal_of_nonneg n) as [ | d ds ]; [ congruence | ].
  destruct (Ascii.eqb_spec d "0") as [ -> | Hd ].
  - rewrite (Hzero ds eq_refl). cbn. lia.
  - apply List.Forall_cons_iff in Hall. destruct Hall as [Hdig Hds].
    assert (Hv : 1 <= digit_val d).
    { unfold is_digit, digit_val in *. cbv zeta in Hdig.
      apply andb_true_iff in Hdig. destruct Hdig as [H1 _].
      apply Nat.leb_le in H1.
      assert (nat_of_ascii d <> 48%nat).
      { intros E. apply Hd. rewrite <- (ascii_nat_embedding d), E. reflexivity. }
      lia. }
    change (digits_val (d :: ds)) with (read_digits ds (0 * 10 + digit_val d)).
    pose proof (read_digits_lower ds (10 * 0 + digit_val d) Hds ltac:(lia)) as Hlow.
    cbn [List.length].
    destruct (Nat.le_gt_cases (S (List.length ds)) k) as [ | Hbig ];
      [ assumption | exfalso ].
    assert (Hpow : 10 ^ Z.of_nat k <= 10 ^ Z.of_nat (List.length ds)).
    { apply Z.pow_le_mono_r; lia. }
    unfold digits_val in Hval. cbn [fold_left] in Hval.
    unfold read_digits in Hlow.
    pose proof (Z.pow_pos_nonneg 10 (Z.of_nat (List.length ds)) ltac:(lia) ltac:(lia)).
    nia.
Qed.

Lemma Number_toString_nonneg (n : Z) :
  0 <= n ->
  Number_toString (num_of_Z n) = string_of_list_ascii (decimal_of_nonneg n).
Proof.
  intros Hn. unfold Number_toString, num_of_Z.
  rewrite decimal_of_Qc_int. unfold int_text.
  destruct (Z.ltb_spec n 0); [ lia | ]. rewrite Z.abs_eq by lia. reflexivity.
Qed.

Lemma words_ok : forallb word_ok adjectives && forallb word_ok nouns = true.
Proof. vm_compute. reflexivity. Qed.

(** X5.  Whatever the three calls of [Math.random()] return, the
    generated username passes [isValidUsername], is not empty, and has
    at most 18 characters. *)
Theorem generateRandomUsername_valid (r1 r2 r3 : Qc) :
  is_random r1 -> is_random r2 -> is_random r3 ->
  let name := generateRandomUsername r1 r2 r3 in
  isValidUsername (JString name) = true /\
  truthy (JString name) = true /\
  (String.length name <= 18)%nat.
Proof.
  intros H1 H2 H3. cbv zeta. unfold generateRandomUsername.
  pose proof (floor_scaled r1 8 H1 ltac:(lia)) as Hi.
  pose proof (floor_scaled r2 8 H2 ltac:(lia)) as Hj.
  pose proof (floor_scaled r3 9999 H3 ltac:(lia)) as Hn.
  change (Z.of_nat (List.length adjectives)) with 8.
  change (Z.of_nat (List.length nouns)) with 8.
  set (i := floor (r1 * Q2Qc (inject_Z 8))) in *.
  set (j := floor (r2 * Q2Qc (inject_Z 8))) in *.
  set (n := floor (r3 * Q2Qc (inject_Z 9999)) + 1) in *.
  pose proof words_ok as Hwords. apply andb_true_iff in Hwords.
  destruct Hwords as [Hadj Hnoun]. rewrite forallb_forall in Hadj, Hnoun.
  specialize (Hadj _ (at_index_In adjectives i ltac:(cbn; lia))).
  specialize (Hnoun _ (at_index_In nouns j ltac:(cbn; lia))).
  set (a := at_index adjectives i) in *. set (b := at_index nouns j) in *.
  rewrite Number_toString_nonneg by lia.
  destruct (decimal_of_nonneg_spec n ltac:(lia)) as (_ & Hdigits & _).
  pose proof (decimal_of_nonneg_length n 4 ltac:(cbn; lia) ltac:(lia)) as Hlen.
  set (ds := decimal_of_nonneg n) in *.
  unfold word_ok in Hadj, Hnoun.
  apply andb_true_iff in Hadj, Hnoun.
  destruct Hadj as [Hadj Ha7], Hnoun as [Hnoun Hb7].
  apply andb_true_iff in Hadj, Hnoun.
  destruct Hadj as [Hac Ha1], Hnoun as [Hbc Hb1].
  apply Nat.leb_le in Ha7, Hb7, Ha1, Hb1.
  assert (Hchars : list_ascii_of_string
            (String.append a (String.append b (string_of_list_ascii ds)))
          = list_ascii_of_string a ++ list_ascii_of_string b ++ ds).
  { rewrite !list_ascii_of_string_app, list_ascii_of_string_of_list_ascii.
    reflexivity. }
  assert (Hlength : String.length
            (String.append a (String.append b (string_of_list_ascii ds)))
          = (String.length a + String.length b + List.length ds)%nat).
  { rewrite <- length_list_ascii, Hchars, !length_app, !length_list_ascii.
    lia. }
  assert (Hall : forallb is_username_char
            (list_ascii_of_string a ++ list_ascii_of_string b ++ ds) = true).
  { rewrite !forallb_app, Hac, Hbc. cbn [andb].
    apply forallb_forall. intros c Hc. apply digit_is_username_char.
    rewrite List.Forall_forall in Hdigits. apply Hdigits, Hc. }
  split; [ | split ].
  - unfold isValidUsername. rewrite Hlength, Hchars.
    destruct (Nat.eqb_spec (String.length a + String.length b + List.length ds) 0);
      [ lia | ].
    destruct (Nat.ltb_spec MAX_USERNAME_LENGTH
                (String.length a + String.length b + List.length ds));
      [ unfold MAX_USERNAME_LENGTH in *; lia | ].
    cbn [orb]. unfold usernameRegex.
    destruct (list_ascii_of_string a ++ list_ascii_of_string b ++ ds) eqn:E;
      [ | exact Hall ].
    apply (f_equal (@List.length ascii)) in E.
    rewrite !length_app, !length_list_ascii in E. cbn in E. lia.
  - cbn [truthy]. apply negb_true_iff, String.eqb_neq. intros E.
    apply (f_equal String.length) in E. rewrite Hlength in E. cbn in E. lia.
  - rewrite Hlength. lia.
Qed.

Lemma generateRandomUsername_valid_witness :
  let name := generateRandomUsername (Q2Qc (1 # 4)) (Q2Qc (7 # 8)) (Q2Qc (1 # 2)) in
  name = "AwesomeStar5000" /\ isValidUsername (JString name) = true.
Proof.
  cbv zeta. split; [ vm_compute; reflexivity | ].
  apply (generateRandomUsername_valid (Q2Qc (1 # 4)) (Q2Qc (7 # 8)) (Q2Qc (1 # 2)));
    split; vm_compute; congruence.
Defined.

(** One quoted character is read back as that character. *)
Lemma parse_string_body_quote_char (c : ascii) (rest acc : chars) :
  JSON.parse_string_body (JSON.quote_char c ++ rest) acc
  = JSON.parse_string_body rest (c :: acc).
Proof.
  destruct c as [[ | ] [ | ] [ | ] [ | ] [ | ] [ | ] [ | ] [ | ]];
    reflexivity.
Qed.

Lemma parse_string_body_quoted (cs : chars) :
  forall (acc rest : chars),
  JSON.parse_string_body (flat_map JSON.quote_char cs ++ dquote :: rest) acc
  = Some (string_of_list_ascii (rev acc ++ cs), rest).
Proof.
  induction cs as [ | c cs IH ]; intros acc rest.
  - cbn [flat_map app JSON.parse_string_body]. rewrite Ascii.eqb_refl, app_nil_r.
    reflexivity.
  - cbn [flat_map]. rewrite <- app_assoc, parse_string_body_quote_char, IH.
    cbn [rev]. rewrite <- app_assoc. reflexivity.
Qed.

(** Every string survives JSON. *)
Lemma strings_survive_JSON (s : string) :
  exists text,
    JSON.stringify (JString s) = Some text /\
    JSON.parse text = Some (JString s).
Proof.
  unfold JSON.stringify. cbn [JSON.serialize option_map].
  eexists. split; [ reflexivity | ].
  unfold JSON.parse. rewrite list_ascii_of_string_of_list_ascii.
  unfold JSON.quote at 2.
  replace (2 * List.length (JSON.quote s) + 2)%nat
    with (S (2 * List.length (JSON.quote s) + 1))%nat by lia.
  cbn [JSON.parse_value JSON.skip_ws].
  change (JSON.is_ws dquote) with false. cbv iota.
  change (Ascii.eqb dquote "[") with false.
  change (Ascii.eqb dquote "{") with false.
  rewrite Ascii.eqb_refl. cbv iota.
  rewrite (parse_string_body_quoted (list_ascii_of_string s) [] []).
  cbn [rev app JSON.skip_ws]. rewrite string_of_list_ascii_of_string.
  reflexivity.
Qed.

Lemma safeLocalStorageSet_accepted (key : string) (value : JSValue) (b : Browser) :
  accepts key value b = true ->
  exists st,
    setItem key (stored_text value) (localStorage b) = Some st /\
    safeLocalStorageSet key value b = with_storage st b /\
    getItem key st = Some (Some (stored_text value)).
Proof.
  unfold accepts. intros H. apply andb_true_iff in H. destruct H as [Hwin Hw].
  destruct (getItem_after_setItem _ _ _ Hw) as (st & Hset & Hget).
  exists st. split; [ exact Hset | ]. split; [ | exact Hget ].
  unfold safeLocalStorageSet. rewrite Hwin. cbn [negb].
  fold (stored_text value). rewrite Hset. reflexivity.
Qed.

(** A load after an accepted store parses the stored text. *)
Lemma safeLocalStorageGet_after_Set
    (key : string) (value defaultValue : JSValue)
    (validator : option (JSValue -> bool)) (b : Browser) :
  accepts key value b = true ->
  safeLocalStorageGet key defaultValue validator
    (safeLocalStorageSet key value b)
  = let parsed := safeJsonParse (stored_text value) defaultValue in
    match validator with
    | Some p => if negb (p parsed) then defaultValue else parsed
    | None => parsed
    end.
Proof.
  intros Hacc.
  destruct (safeLocalStorageSet_accepted _ _ _ Hacc) as (st & _ & -> & Hget).
  unfold accepts in Hacc. apply andb_true_iff in Hacc. destruct Hacc as [Hwin _].
  unfold safeLocalStorageGet, with_storage.
  cbn [window_defined localStorage]. rewrite Hwin, Hget. reflexivity.
Qed.

(** X6.  A load with a validator returns the default or a value that
    the validator accepts.  It returns the default when there is no
    window, when the storage throws, when the key is missing, and when
    the stored text is not JSON. *)
Theorem safeLocalStorageGet_default_or_accepted
    (key : string) (defaultValue : JSValue) (p : JSValue -> bool) (b : Browser) :
  let r := safeLocalStorageGet key defaultValue (Some p) b in
  (r = defaultValue \/ p r = true) /\
  (window_defined b = false -> r = defaultValue) /\
  (blocked (localStorage b) = true -> r = defaultValue) /\
  (items (localStorage b) !! key = None -> r = defaultValue) /\
  (forall text, items (localStorage b) !! key = Some text ->
                JSON.parse text = None -> r = defaultValue).
Proof.
  cbv zeta. unfold safeLocalStorageGet, getItem, safeJsonParse.
  destruct (window_defined b); cbn [negb];
    [ | repeat split; intros; try reflexivity; left; reflexivity ].
  destruct (blocked (localStorage b));
    [ repeat split; intros; try reflexivity; left; reflexivity | ].
  destruct (items (localStorage b) !! key) as [ item | ];
    [ | repeat split; intros; try reflexivity; left; reflexivity ].
  split.
  - destruct (p (match JSON.parse item with Some v => v | None => defaultValue end))
      eqn:Hp; cbn [negb]; [ right; exact Hp | left; reflexivity ].
  - repeat split; intros; try discriminate.
    match goal with H : Some _ = Some _ |- _ => injection H as <- end.
    match goal with H : JSON.parse _ = None |- _ => rewrite H end.
    destruct (p defaultValue); reflexivity.
Qed.

Lemma safeLocalStorageSet_other_key
    (key key' : string) (value defaultValue : JSValue)
    (validator : option (JSValue -> bool)) (b : Browser) :
  key <> key' ->
  safeLocalStorageGet key' defaultValue validator
    (safeLocalStorageSet key value b)
  = safeLocalStorageGet key' defaultValue validator b.
Proof.
  intros Hne. unfold safeLocalStorageSet.
  destruct (window_defined b) eqn:Hwin; cbn [negb]; [ | reflexivity ].
  unfold setItem.
  destruct (blocked (localStorage b)) eqn:Hblocked; [ reflexivity | ].
  destruct (_ <=? _)%nat; [ | reflexivity ].
  unfold safeLocalStorageGet, getItem, with_storage.
  cbn [window_defined localStorage blocked items quota].
  rewrite Hwin, Hblocked. cbn [negb].
  rewrite lookup_insert_ne by exact Hne. reflexivity.
Qed.

(** X7.  A store under one key changes no load under another key, and
    leaves the window, the quota and the blocking of the storage as they
    were. *)
Theorem safeLocalStorageSet_frame
    (key key' : string) (value defaultValue : JSValue)
    (validator : option (JSValue -> bool)) (b : Browser) :
  key <> key' ->
  let b' := safeLocalStorageSet key value b in
  safeLocalStorageGet key' defaultValue validator b'
  = safeLocalStorageGet key' defaultValue validator b /\
  window_defined b' = window_defined b /\
  blocked (localStorage b') = blocked (localStorage b) /\
  quota (localStorage b') = quota (localStorage b).
Proof.
  intros Hne. cbv zeta.
  split; [ apply safeLocalStorageSet_other_key, Hne | ].
  unfold safeLocalStorageSet.
  destruct (window_defined b) eqn:Hwin; cbn [negb];
    [ | rewrite ?Hwin; repeat split ].
  unfold setItem.
  destruct (blocked (localStorage b)) eqn:Hblocked;
    [ rewrite ?Hwin, ?Hblocked; repeat split | ].
  destruct (_ <=? _)%nat;
    cbn [with_storage window_defined localStorage blocked quota];
    rewrite ?Hwin, ?Hblocked; repeat split.
Qed.

Lemma safeLocalStorageSet_frame_witness :
  safeLocalStorageGet USERNAME JNull None
    (safeLocalStorageSet VOLUME (JNumber (num_of_Z 1))
       (safeLocalStorageSet USERNAME (JString "CoolUser1") empty_browser))
  = JString "CoolUser1".
Proof.
  rewrite (proj1 (safeLocalStorageSet_frame VOLUME USERNAME
                    (JNumber (num_of_Z 1)) JNull None _ ltac:(discriminate))).
  vm_compute. reflexivity.
Defined.

(** X8.  Every string that the storage accepts is loaded back as it
    was stored, quotes, backslashes and control characters included,
    for any default and any validator that accepts it. *)
Theorem string_storage_roundtrip
    (key s : string) (defaultValue : JSValue)
    (validator : option (JSValue -> bool)) (b : Browser) :
  accepts key (JString s) b = true ->
  (forall p, validator = Some p -> p (JString s) = true) ->
  safeLocalStorageGet key defaultValue validator
    (safeLocalStorageSet key (JString s) b) = JString s.
Proof.
  intros Hacc Hvalid.
  rewrite (safeLocalStorageGet_after_Set _ _ _ _ _ Hacc). cbv zeta.
  destruct (strings_survive_JSON s) as (text & Htext & Hparse).
  unfold stored_text, safeJsonParse. rewrite Htext, Hparse.
  destruct validator as [ p | ]; [ | reflexivity ].
  rewrite (Hvalid p eq_refl). reflexivity.
Qed.

Lemma string_storage_roundtrip_witness :
  let tricky := String dquote (String "\" (String (ascii_of_nat 10) "é")) in
  safeLocalStorageGet USERNAME JNull None
    (safeLocalStorageSet USERNAME (JString tricky) empty_browser)
  = JString tricky.
Proof.
  cbv zeta.
  apply (string_storage_roundtrip USERNAME _ JNull None empty_browser).
  - vm_compute. reflexivity.
  - intros p Hp. discriminate Hp.
Defined.

Lemma stored_string_reads_back (s : string) (defaultValue : JSValue) :
  safeJsonParse (stored_text (JString s)) defaultValue = JString s.
Proof.
  destruct (strings_survive_JSON s) as (text & Htext & Hparse).
  unfold stored_text, safeJsonParse. rewrite Htext, Hparse. reflexivity.
Qed.

Lemma stored_stats_read_back (s : Stats) (defaultValue : JSValue) :
  safeJsonParse (stored_text (js_of_stats s)) defaultValue = js_of_stats s.
Proof.
  destruct (stats_survive_JSON s) as (text & Htext & Hparse).
  unfold stored_text, safeJsonParse. rewrite Htext, Hparse. reflexivity.
Qed.

Lemma stored_unlocked_read_back (U : list Z) (defaultValue : JSValue) :
  safeJsonParse (stored_text (array_of_Set U)) defaultValue = array_of_Set U.
Proof.
  destruct (ints_survive_JSON U) as (text & Htext & Hparse).
  unfold stored_text, safeJsonParse, array_of_Set. fold (ints U).
  rewrite Htext, Hparse. reflexivity.
Qed.

Lemma Z_of_js_num_of_Z (z : Z) : Z_of_js (JNumber (num_of_Z z)) = Some z.
Proof. unfold Z_of_js, num_of_Z. rewrite this_of_Z. reflexivity. Qed.

(** [new Set(array)] of an array without repeats is the array. *)
Lemma Set_of_array_ints (U : list Z) :
  List.NoDup U -> Set_of_array (ints U) = U.
Proof.
  unfold Set_of_array.
  enough (H : forall acc, List.NoDup (acc ++ U) ->
            fold_left (fun s v => match Z_of_js v with
                                  | Some z => Set_add s z
                                  | None => s
                                  end) (ints U) acc = acc ++ U)
    by (intros Hnd; apply (H [] Hnd)).
  induction U as [ | x U IH ]; intros acc Hnd; cbn [ints map fold_left].
  - rewrite app_nil_r. reflexivity.
  - rewrite Z_of_js_num_of_Z. unfold Set_add.
    assert (Hfresh : Set_has acc x = false).
    { apply Set_has_not_In. apply NoDup_remove_2 in Hnd.
      intros Hin. apply Hnd. apply in_or_app. left. exact Hin. }
    rewrite Hfresh. fold (ints U). rewrite IH.
    + rewrite <- app_assoc. reflexivity.
    + rewrite <- app_assoc. exact Hnd.
Qed.

Lemma loadSavedData_state (st0 : State) (w : World) :
  let b := browser w in
  let savedStats :=
    safeLocalStorageGet STATS (js_of_stats zero_stats)
      (Some (fun data =>
         String.eqb (typeof data) "object" &&
         negb (strict_eq data JNull) &&
         match get_prop data "watch_time" with
         | Some x => String.eqb (typeof x) "number"
         | None => false
         end)) b in
  let savedUnlocked :=
    safeLocalStorageGet UNLOCKED (JArray []) (Some Array_isArray) b in
  let savedWatchSession :=
    safeLocalStorageGet WATCH_SESSION JNull
      (Some (fun data =>
         String.eqb (typeof data) "string" ||
         String.eqb (typeof data) "number")) b in
  let st := after loadSavedData st0 w in
  stats st = stats_of_js savedStats /\
  unlockedAchievements st
  = match savedUnlocked with JArray xs => Set_of_array xs | _ => [] end /\
  watchSessionStart st
  = (if truthy savedWatchSession then parseInt savedWatchSession
     else watchSessionStart st0).
Proof.
  cbv zeta. unfold loadSavedData. unfold_handlers.
  destruct (truthy _); repeat split.
Qed.

Lemma stats_validator_accepts (s : Stats) :
  watch_time s <> None ->
  String.eqb (typeof (js_of_stats s)) "object" &&
  negb (strict_eq (js_of_stats s) JNull) &&
  match get_prop (js_of_stats s) "watch_time" with
  | Some x => String.eqb (typeof x) "number"
  | None => false
  end = true.
Proof.
  destruct s as [[a| ] [b| ] [c| ] [d| ] [e| ] [f| ]]; intros H;
    try reflexivity; exfalso; apply H; reflexivity.
Qed.

(** X9.  After [saveStats] and [saveUnlockedAchievements] whose writes
    the storage accepted, the load effect of the next page gives the
    same stats (they hold a [watch_time], as the load's validator asks)
    and the same unlocked set. *)
Theorem reload_restores_progress
    (s : Stats) (U : list Z) (st st0 : State) (w : World) :
  let w1 := snd (run (saveStats s) st w) in
  let w2 := snd (run (saveUnlockedAchievements U) st w1) in
  accepts STATS (js_of_stats s) (browser w) = true ->
  accepts UNLOCKED (array_of_Set U) (browser w1) = true ->
  watch_time s <> None ->
  List.NoDup U ->
  stats (after loadSavedData st0 w2) = s /\
  unlockedAchievements (after loadSavedData st0 w2) = U.
Proof.
  cbv zeta. intros Hstats Hunlocked Hwatch Hnd.
  destruct (loadSavedData_state st0
              (snd (run (saveUnlockedAchievements U) st
                      (snd (run (saveStats s) st w))))) as (-> & -> & _).
  change (browser (snd (run (saveUnlockedAchievements U) st
                          (snd (run (saveStats s) st w)))))
    with (safeLocalStorageSet UNLOCKED (array_of_Set U)
            (safeLocalStorageSet STATS (js_of_stats s) (browser w))).
  change (browser (snd (run (saveStats s) st w)))
    with (safeLocalStorageSet STATS (js_of_stats s) (browser w)) in Hunlocked.
  split.
  - rewrite (safeLocalStorageSet_other_key UNLOCKED STATS _ _ _ _
               ltac:(discriminate)).
    rewrite (safeLocalStorageGet_after_Set _ _ _ _ _ Hstats). cbv zeta.
    rewrite stored_stats_read_back, (stats_validator_accepts s Hwatch).
    apply stats_of_js_of_stats.
  - rewrite (safeLocalStorageGet_after_Set _ _ _ _ _ Hunlocked). cbv zeta.
    rewrite stored_unlocked_read_back. cbn [array_of_Set Array_isArray negb].
    apply (Set_of_array_ints U Hnd).
Qed.

Lemma reload_restores_progress_witness :
  let s := with_watch_time (Some 3600) (with_videos_added (Some 12) zero_stats) in
  let w1 := snd (run (saveStats s) initial_state empty_world) in
  let w2 := snd (run (saveUnlockedAchievements [2; 4]) initial_state w1) in
  stats (after loadSavedData initial_state w2) = s /\
  unlockedAchievements (after loadSavedData initial_state w2) = [2; 4].
Proof.
  cbv zeta.
  apply (reload_restores_progress
           (with_watch_time (Some 3600) (with_videos_added (Some 12) zero_stats))
           [2; 4] initial_state initial_state empty_world).
  - vm_compute. reflexivity.
  - vm_compute. reflexivity.
  - discriminate.
  - repeat constructor; cbn; intuition discriminate.
Defined.

(** ** Sessions *)

Lemma parseInt_Z_toString (now : Z) :
  0 <= now -> parseInt (JString (Z_toString now)) = Some now.
Proof.
  intros Hnow. unfold parseInt, Z_toString.
  rewrite list_ascii_of_string_of_list_ascii, decimal_of_Qc_int.
  unfold int_text. destruct (Z.ltb_spec now 0); [ lia | ].
  rewrite Z.abs_eq by lia. cbn [app].
  destruct (decimal_of_nonneg_spec now Hnow) as (Hne & Hall & Hval & _).
  destruct (decimal_of_nonneg now) as [ | d ds ] eqn:E; [ congruence | ].
  assert (Hd : is_digit d = true).
  { apply List.Forall_cons_iff in Hall. apply Hall. }
  assert (Hspace : is_space d = false).
  { unfold is_digit, is_space in *. cbv zeta in *.
    apply andb_true_iff in Hd. destruct Hd as [H1 H2].
    apply Nat.leb_le in H1, H2.
    destruct (Nat.leb_spec 9 (nat_of_ascii d));
      destruct (Nat.leb_spec (nat_of_ascii d) 13);
      destruct (Nat.eqb_spec (nat_of_ascii d) 32);
      destruct (Nat.eqb_spec (nat_of_ascii d) 160);
      try lia; reflexivity. }
  cbn [skip_spaces]. rewrite Hspace.
  rewrite (digit_is_not d "-" Hd eq_refl), (digit_is_not d "+" Hd eq_refl).
  rewrite <- (app_nil_r (d :: ds)).
  rewrite (take_digits_app (d :: ds) [] Hall I).
  rewrite Hval. reflexivity.
Qed.

Lemma Z_toString_truthy (now : Z) : truthy (JString (Z_toString now)) = true.
Proof.
  cbn [truthy]. apply negb_true_iff, String.eqb_neq. intros E.
  unfold Z_toString in E. rewrite decimal_of_Qc_int in E.
  destruct (int_text_head now) as (c & t & Heq & _). rewrite Heq in E.
  discriminate E.
Qed.

(** X10.  A session started from idle is still open after a reload:
    the load effect reads the stored clock reading back as the start of
    the session. *)
Theorem reload_resumes_session (now : Z) (st st0 : State) (w : World) :
  session_open (watchSessionStart st) = None ->
  0 <= now ->
  accepts WATCH_SESSION (JString (Z_toString now)) (browser w) = true ->
  let started := run (startWatchSession now) st w in
  watchSessionStart (fst started) = Some now /\
  watchSessionStart (after loadSavedData st0 (snd started)) = Some now.
Proof.
  intros Hidle Hnow Hacc. cbv zeta.
  assert (Hrun : run (startWatchSession now) st w
            = (set_watchSessionStart (Some now) st,
               set_browser (safeLocalStorageSet WATCH_SESSION
                              (JString (Z_toString now)) (browser w)) w)).
  { unfold_handlers. rewrite Hidle. reflexivity. }
  rewrite Hrun. cbn [fst snd]. split; [ reflexivity | ].
  destruct (loadSavedData_state st0
              (set_browser (safeLocalStorageSet WATCH_SESSION
                              (JString (Z_toString now)) (browser w)) w))
    as (_ & _ & ->).
  cbn [browser set_browser].
  rewrite (safeLocalStorageGet_after_Set _ _ _ _ _ Hacc). cbv zeta.
  rewrite stored_string_reads_back.
  cbn [typeof String.eqb Ascii.eqb Bool.eqb orb negb].
  rewrite Z_toString_truthy. apply parseInt_Z_toString, Hnow.
Qed.

Lemma reload_resumes_session_witness :
  let started := run (startWatchSession 1700000000000) initial_state empty_world in
  watchSessionStart (after loadSavedData initial_state (snd started))
  = Some 1700000000000.
Proof.
  cbv zeta.
  apply (reload_resumes_session 1700000000000 initial_state initial_state
           empty_world); [ reflexivity | lia | vm_compute; reflexivity ].
Defined.

Lemma safeLocalStorageGet_after_forget
    (key : string) (defaultValue : JSValue)
    (validator : option (JSValue -> bool)) (b : Browser) :
  safeLocalStorageGet key defaultValue validator (forget key b) = defaultValue.
Proof.
  unfold forget, removeItem, safeLocalStorageGet, getItem.
  destruct (window_defined b) eqn:Hwin; [ | rewrite Hwin; reflexivity ].
  destruct (blocked (localStorage b)) eqn:Hblocked.
  - rewrite ?Hwin, ?Hblocked. reflexivity.
  - cbn [with_storage window_defined localStorage blocked items].
    rewrite ?Hwin, ?Hblocked. cbn [negb]. rewrite lookup_delete_eq.
    reflexivity.
Qed.

Lemma endWatchSession_world (now start : Z) (st : State) (w : World) :
  session_open (watchSessionStart st) = Some start ->
  exists b1,
    browser (snd (run (endWatchSession now) st w)) = forget WATCH_SESSION b1.
Proof.
  intros Hopen.
  exists (if sessionDuration now start >? 0
          then safeLocalStorageSet STATS
                 (js_of_stats
                    (with_sessions_played
                       (Some (or0 (sessions_played (stats st)) + 1))
                       (stats st))) (browser w)
          else browser w).
  unfold_handlers. rewrite Hopen. unfold forget.
  destruct (sessionDuration now start >? 0); cbv [fst snd];
    cbn [browser set_browser];
    destruct (window_defined _); try reflexivity;
    destruct (removeItem _ _); reflexivity.
Qed.

(** X11.  Closing an open session leaves nothing of it in the storage:
    the tracker is idle, a load of the session key gives the default,
    and the load effect of the next page opens no session. *)
Theorem reload_after_end_stays_idle
    (now start : Z) (st st0 : State) (w : World) :
  session_open (watchSessionStart st) = Some start ->
  let ended := run (endWatchSession now) st w in
  watchSessionStart (fst ended) = None /\
  safeLocalStorageGet WATCH_SESSION JNull None (browser (snd ended)) = JNull /\
  watchSessionStart (after loadSavedData st0 (snd ended))
  = watchSessionStart st0.
Proof.
  intros Hopen. cbv zeta.
  destruct (endWatchSession_world now start st w Hopen) as (b1 & Hworld).
  split; [ | split ].
  - unfold_handlers. rewrite Hopen.
    destruct (sessionDuration now start >? 0); reflexivity.
  - rewrite Hworld. apply safeLocalStorageGet_after_forget.
  - destruct (loadSavedData_state st0 (snd (run (endWatchSession now) st w)))
      as (_ & _ & ->).
    rewrite Hworld, safeLocalStorageGet_after_forget. reflexivity.
Qed.

Lemma reload_after_end_stays_idle_witness :
  let started := run (startWatchSession 1700000000000) initial_state empty_world in
  let ended := run (endWatchSession 1700000005000) (fst started) (snd started) in
  watchSessionStart (after loadSavedData initial_state (snd ended)) = None.
Proof.
  cbv zeta.
  apply (reload_after_end_stays_idle 1700000005000 1700000000000
           (fst (run (startWatchSession 1700000000000) initial_state empty_world))
           initial_state
           (snd (run (startWatchSession 1700000000000) initial_state empty_world))).
  reflexivity.
Defined.

Example formatWatchTime_samples :
  map formatWatchTime
    [JNumber (num_of_Z 0); JNumber (num_of_Z 59); JNumber (num_of_Z 60);
     JNumber (num_of_Z 3599); JNumber (num_of_Z 3600); JNumber (num_of_Z 90061);
     JNumber (Finite (Q2Qc (3 # 2))); JNumber PosInfinity; JNumber NaN;
     JNumber (num_of_Z (-5)); JString "60"; JUndefined]
  = ["0s"; "59s"; "1m"; "59m"; "1h 0m"; "25h 1m"; "1.5s"; "Infinityh NaNm";
     "0s"; "0s"; "0s"; "0s"].
Proof. vm_compute. reflexivity. Qed.

Lemma div_same_ratio (a d a' d' : Z) :
  0 < d -> 0 < d' -> a * d' = a' * d -> a / d = a' / d'.
Proof.
  intros Hd Hd' Heq.
  rewrite <- (Z.div_mul_cancel_r a d d') by lia.
  rewrite Heq, (Z.mul_comm a' d).
  apply Z.div_mul_cancel_l; lia.
Qed.

Lemma floor_Q2Qc (q : Q) : floor (Q2Qc q) = Qnum q / Zpos (Qden q).
Proof.
  unfold floor. cbn [this Q2Qc].
  apply div_same_ratio; try lia.
  pose proof (Qred_correct q) as H. unfold Qeq in H. exact H.
Qed.

Lemma this_inv_pos (p : positive) :
  this (/ Q2Qc (inject_Z (Zpos p)))%Qc = (1 # p)%Q.
Proof.
  unfold Qcinv. cbn [this Q2Qc]. rewrite (Qred_identity (inject_Z (Zpos p)))
    by (cbn; apply Z.gcd_1_r).
  cbn [Qinv inject_Z Qnum Qden]. apply Qred_identity. cbn. reflexivity.
Qed.

(** The floor of a quotient of integers is the integer quotient. *)
Lemma floor_div_int (a : Z) (p : positive) :
  floor (Q2Qc (inject_Z a) / Q2Qc (inject_Z (Zpos p)))%Qc = a / Zpos p.
Proof.
  unfold Qcdiv, Qcmult. rewrite floor_Q2Qc, this_inv_pos, this_of_Z.
  cbn [Qmult Qnum Qden inject_Z]. rewrite Z.mul_1_r. reflexivity.
Qed.

Lemma truncate_div_int (a : Z) (p : positive) :
  0 <= a ->
  truncate (Q2Qc (inject_Z a) / Q2Qc (inject_Z (Zpos p)))%Qc = a / Zpos p.
Proof.
  intros Ha. rewrite <- floor_div_int. unfold truncate, floor.
  apply Z.quot_div_nonneg; [ | lia ].
  set (q := (Q2Qc (inject_Z a) / Q2Qc (inject_Z (Zpos p)))%Qc).
  assert (H : (Q2Qc 0 <= q)%Qc).
  { unfold q, Qcdiv.
    replace (Q2Qc 0) with (Q2Qc 0 * / Q2Qc (inject_Z (Zpos p)))%Qc by ring.
    apply Qcmult_le_compat_r.
    - unfold Qcle. cbn [this Q2Qc]. rewrite !Qred_correct.
      unfold Qle. cbn. lia.
    - unfold Qcle. rewrite this_inv_pos. cbn [this Q2Qc].
      rewrite Qred_correct. unfold Qle. cbn. lia. }
  clearbody q. unfold Qcle in H. change (this (Q2Qc 0)) with (0 # 1)%Q in H.
  unfold Qle in H. cbn [Qnum Qden] in H. lia.
Qed.

Lemma Qc_of_Z_eq (q : Q) (z : Z) : (q == inject_Z z)%Q -> Q2Qc q = Q2Qc (inject_Z z).
Proof. intros H. apply Qc_is_canon. cbn [this Q2Qc]. rewrite !Qred_correct. exact H. Qed.

Lemma Qc_is_zero_int (z : Z) : Qc_is_zero (Q2Qc (inject_Z z)) = (z =? 0).
Proof.
  unfold Qc_is_zero, Qc_eq_bool.
  destruct (Qcanon.Qc_eq_dec (Q2Qc (inject_Z z)) (Q2Qc 0)) as [ E | E ].
  - apply (f_equal this) in E. rewrite this_of_Z in E. cbn in E.
    injection E as ->. reflexivity.
  - destruct (Z.eqb_spec z 0) as [ -> | ]; [ | reflexivity ].
    exfalso. apply E. reflexivity.
Qed.

Lemma Qcltb_int (a b : Z) :
  Qcltb (Q2Qc (inject_Z a)) (Q2Qc (inject_Z b)) = (a <? b).
Proof.
  destruct (Z.ltb_spec a b) as [ H | H ].
  - apply Qcltb_true. unfold Qclt. rewrite !this_of_Z.
    unfold Qlt. cbn. lia.
  - apply Qcltb_false. unfold Qcle. rewrite !this_of_Z.
    unfold Qle. cbn. lia.
Qed.

Lemma num_ltb_int (a b : Z) : num_ltb (num_of_Z a) (num_of_Z b) = (a <? b).
Proof. apply Qcltb_int. Qed.

Lemma floor_div_60 (a : Z) :
  Math_floor (num_div (num_of_Z a) (num_of_Z 60)) = num_of_Z (a / 60).
Proof.
  unfold num_div, num_of_Z, Math_floor. rewrite Qc_is_zero_int.
  cbn [Z.eqb]. unfold num_of_Z. rewrite (floor_div_int a 60). reflexivity.
Qed.

Lemma rem_60 (a : Z) :
  0 <= a -> num_rem (num_of_Z a) (num_of_Z 60) = num_of_Z (a mod 60).
Proof.
  intros Ha. unfold num_rem, num_of_Z. rewrite Qc_is_zero_int. cbn [Z.eqb].
  rewrite (truncate_div_int a 60 Ha). f_equal.
  unfold Qcminus, Qcplus, Qcopp, Qcmult. cbn [this Q2Qc].
  apply Qc_is_canon. cbn [this Q2Qc]. rewrite !Qred_correct.
  unfold Qeq, Qplus, Qopp, Qmult, inject_Z. cbn [Qnum Qden].
  pose proof (Z.div_mod a 60 ltac:(lia)). lia.
Qed.

(** X12.  For a whole number of seconds, [formatWatchTime] shows hours
    and minutes from one hour on, minutes alone from one minute on, and
    seconds below that; the minutes shown are below 60 and the seconds
    are dropped as soon as there is a minute. *)
Theorem formatWatchTime_integer (s : Z) :
  0 <= s ->
  formatWatchTime (JNumber (num_of_Z s))
  = if 3600 <=? s then
      String.append (Z_toString (s / 3600))
        (String.append "h " (String.append (Z_toString (s / 60 mod 60)) "m"))
    else if 60 <=? s then String.append (Z_toString (s / 60)) "m"
    else String.append (Z_toString s) "s".
Proof.
  intros Hs. unfold formatWatchTime.
  change (isNaN (num_of_Z s)) with false. rewrite num_ltb_int.
  destruct (Z.ltb_spec s 0); [ lia | ]. cbn [orb]. cbv zeta.
  rewrite !floor_div_60, Z.div_div by lia. change (60 * 60) with 3600.
  assert (Hm : 0 <= s / 60) by (apply Z.div_pos; lia).
  rewrite (rem_60 s Hs), (rem_60 (s / 60) Hm), !num_ltb_int.
  destruct (Z.leb_spec 3600 s) as [ Hh | Hh ].
  - assert (0 < s / 3600) by (apply Z.div_str_pos; lia).
    destruct (Z.ltb_spec 0 (s / 3600)); [ reflexivity | lia ].
  - assert (s / 3600 = 0) by (apply Z.div_small; lia).
    destruct (Z.ltb_spec 0 (s / 3600)); [ lia | ].
    assert (Hsmall : s / 60 < 60) by (apply Z.div_lt_upper_bound; lia).
    rewrite (Z.mod_small (s / 60) 60) by lia.
    destruct (Z.leb_spec 60 s) as [ Hmin | Hmin ].
    + assert (0 < s / 60) by (apply Z.div_str_pos; lia).
      destruct (Z.ltb_spec 0 (s / 60)); [ reflexivity | lia ].
    + assert (s / 60 = 0) by (apply Z.div_small; lia).
      destruct (Z.ltb_spec 0 (s / 60)); [ lia | ].
      rewrite (Z.mod_small s 60) by lia. reflexivity.
Qed.

Lemma formatWatchTime_integer_witness :
  formatWatchTime (JNumber (num_of_Z 90061)) = "25h 1m" /\
  formatWatchTime (JNumber (num_of_Z 3599)) = "59m" /\
  formatWatchTime (JNumber (num_of_Z 59)) = "59s".
Proof.
  split; [ | split ].
  - rewrite (formatWatchTime_integer 90061) by lia. vm_compute. reflexivity.
  - rewrite (formatWatchTime_integer 3599) by lia. vm_compute. reflexivity.
  - rewrite (formatWatchTime_integer 59) by lia. vm_compute. reflexivity.
Defined.

(** The percentage of [c] in a positive target is 100 from the target
    on, and below 100 before it. *)
Lemma percentage_full (c : Z) (p : positive) :
  let shown := Math_min (num_mul (num_div (num_of_Z c) (num_of_Z (Zpos p)))
                                 (num_of_Z 100)) (num_of_Z 100) in
  (shown = num_of_Z 100 <-> Zpos p <= c) /\
  num_leb shown (num_of_Z 100) = true /\
  (0 <= c -> num_leb (num_of_Z 0) shown = true).
Proof.
  cbv zeta. unfold num_div, num_of_Z. rewrite Qc_is_zero_int.
  cbn [Z.eqb num_mul Math_min num_ltb].
  set (v := (Q2Qc (inject_Z c) / Q2Qc (inject_Z (Zpos p)) * Q2Qc (inject_Z 100))%Qc).
  assert (Hv : (this v == (c * 100 # p))%Q).
  { unfold v, Qcdiv, Qcmult. rewrite this_inv_pos, !this_of_Z.
    cbn [this Q2Qc]. rewrite !Qred_correct.
    unfold Qeq, Qmult, inject_Z. cbn [Qnum Qden]. lia. }
  assert (Hlt : forall a b : Z,
            ((a # 1) < this v)%Q <-> a * Zpos p < c * 100).
  { intros a b. rewrite Hv. unfold Qlt. cbn [Qnum Qden]. lia. }
  assert (Hle : forall a : Z,
            (this v <= (a # 1))%Q <-> c * 100 <= a * Zpos p).
  { intros a. rewrite Hv. unfold Qle. cbn [Qnum Qden]. lia. }
  assert (H100 : this (Q2Qc (inject_Z 100)) = (100 # 1)%Q) by reflexivity.
  assert (H0 : this (Q2Qc (inject_Z 0)) = (0 # 1)%Q) by reflexivity.
  destruct (Qcltb (Q2Qc (inject_Z 100)) v) eqn:Hcmp.
  - apply Qcltb_true in Hcmp. unfold Qclt in Hcmp. rewrite H100 in Hcmp.
    apply (Hlt 100 0) in Hcmp.
    split; [ split; [ lia | reflexivity ] | ].
    split; [ reflexivity | intros _; reflexivity ].
  - apply Qcltb_false in Hcmp. unfold Qcle in Hcmp. rewrite H100 in Hcmp.
    apply (Hle 100) in Hcmp.
    split; [ split | split ].
    + intros E.
      assert (E' : v = Q2Qc (inject_Z 100)) by congruence.
      clear E. rename E' into E. apply (f_equal this) in E.
      rewrite H100 in E.
      assert (Heq : ((c * 100 # p) == (100 # 1))%Q) by (rewrite <- Hv, E; reflexivity).
      unfold Qeq in Heq. cbn [Qnum Qden] in Heq. lia.
    + intros Hge. f_equal. apply Qc_is_canon. rewrite H100, Hv.
      unfold Qeq. cbn [Qnum Qden]. lia.
    + unfold num_leb, num_ltb. apply negb_true_iff. apply Qcltb_false.
      unfold Qcle. rewrite H100. apply (Hle 100). exact Hcmp.
    + intros Hc. unfold num_leb, num_ltb. apply negb_true_iff.
      apply Qcltb_false. unfold Qcle. rewrite H0, Hv.
      unfold Qle. cbn [Qnum Qden]. lia.
Qed.

Lemma find_definition (a : Achievement) :
  In a ACHIEVEMENT_DEFINITIONS ->
  List.find (fun x => id x =? id a) ACHIEVEMENT_DEFINITIONS = Some a /\
  0 < target a.
Proof.
  intros Hin. cbn in Hin.
  repeat (destruct Hin as [ <- | Hin ]; [ split; reflexivity | ]).
  contradiction.
Qed.

Lemma getAchievementProgress_known (st : State) (a : Achievement) :
  In a ACHIEVEMENT_DEFINITIONS ->
  getAchievementProgress st (id a)
  = {| progress :=
         Math_min
           (num_mul (num_div (number_of_counter
                                (counter_of (AchievementManager.type a) (stats st)))
                             (num_of_Z (target a)))
                    (num_of_Z 100))
           (num_of_Z 100);
       isUnlocked := Set_has (unlockedAchievements st) (id a);
       currentValue := counter_of (AchievementManager.type a) (stats st);
       targetValue := target a |}.
Proof.
  intros Hin. unfold getAchievementProgress.
  rewrite (proj1 (find_definition a Hin)). reflexivity.
Qed.

Lemma shouldUnlock_counter (S : Stats) (a : Achievement) :
  In a ACHIEVEMENT_DEFINITIONS ->
  shouldUnlock S a
  = (or0 (counter_of (AchievementManager.type a) S) >=? target a).
Proof.
  intros Hin. cbn in Hin.
  repeat (destruct Hin as [ <- | Hin ]; [ reflexivity | ]).
  contradiction.
Qed.

(** X13.  For every achievement of the catalog, the progress shown has
    the target and the counter of the achievement's type.  With the
    counter present and not negative the progress lies between 0 and
    100, and it is 100 exactly when [checkAchievements] would unlock the
    achievement; with the counter missing the progress is NaN and the
    achievement is not unlocked. *)
Theorem progress_full_iff_unlockable (st : State) (a : Achievement) :
  In a ACHIEVEMENT_DEFINITIONS ->
  let shown := getAchievementProgress st (id a) in
  let counter := counter_of (AchievementManager.type a) (stats st) in
  targetValue shown = target a /\
  currentValue shown = counter /\
  isUnlocked shown = Set_has (unlockedAchievements st) (id a) /\
  (forall c, counter = Some c -> 0 <= c ->
     (progress shown = num_of_Z 100 <-> shouldUnlock (stats st) a = true) /\
     num_leb (num_of_Z 0) (progress shown) = true /\
     num_leb (progress shown) (num_of_Z 100) = true) /\
  (counter = None ->
     progress shown = NaN /\ shouldUnlock (stats st) a = false).
Proof.
  intros Hin. cbv zeta.
  rewrite (getAchievementProgress_known st a Hin).
  cbn [targetValue currentValue isUnlocked progress].
  rewrite (shouldUnlock_counter (stats st) a Hin).
  destruct (find_definition a Hin) as [_ Hpos].
  split; [ reflexivity | ]. split; [ reflexivity | ].
  split; [ reflexivity | ]. split.
  - intros c Hc Hnonneg. rewrite Hc. cbn [number_of_counter].
    rewrite or0_Some.
    destruct (target a) as [ | p | p ] eqn:Ht; try lia.
    destruct (percentage_full c p) as (Hfull & Hhi & Hlo). cbv zeta in *.
    split; [ | split; [ apply Hlo, Hnonneg | exact Hhi ] ].
    rewrite Hfull, Z.geb_le. reflexivity.
  - intros Hnone. rewrite Hnone. split; [ reflexivity | ].
    cbn [or0]. rewrite Z.geb_leb. apply Z.leb_gt. exact Hpos.
Qed.

Lemma progress_full_iff_unlockable_witness :
  let st := set_stats (with_videos_added (Some 5) zero_stats) initial_state in
  Number_toString (progress (getAchievementProgress st 2)) = "50" /\
  targetValue (getAchievementProgress st 2) = 10 /\
  progress (getAchievementProgress st 99) = num_of_Z 0.
Proof.
  cbv zeta. split; [ vm_compute; reflexivity | ]. split; [ | reflexivity ].
  apply (progress_full_iff_unlockable
           (set_stats (with_videos_added (Some 5) zero_stats) initial_state)
           (Build_Achievement 2 "Video Master" "Added 10 videos to queue"
              "🎬" "videos_added" 10)).
  cbn. auto.
Defined.

(** X14.  [getAllAchievements] lists the catalog in its order, and
    each entry carries its own target, its own counter and its own
    unlocked flag: the lookup by id finds the entry itself. *)
Theorem getAllAchievements_lists_definitions (st : State) :
  map listed (getAllAchievements st) = ACHIEVEMENT_DEFINITIONS /\
  Forall (fun e =>
            unlocked e = Set_has (unlockedAchievements st) (id (listed e)) /\
            listed_targetValue e = target (listed e) /\
            listed_currentValue e
            = counter_of (AchievementManager.type (listed e)) (stats st))
         (getAllAchievements st) /\
  List.length (getAllAchievements st) = totalCount.
Proof.
  unfold getAllAchievements. split; [ | split ].
  - rewrite map_map. cbn [listed]. apply map_id.
  - apply List.Forall_forall. intros e He. apply in_map_iff in He.
    destruct He as (a & <- & Ha). cbn [unlocked listed listed_targetValue
      listed_currentValue].
    rewrite (getAchievementProgress_known st a Ha). repeat split.
  - rewrite length_map. reflexivity.
Qed.

(** ** Counting *)

Lemma run_checkAchievements_unlocked (S : Stats) (st : State) (w : World) :
  unlockedAchievements (fst (run (checkAchievements S) st w))
  = fst (checkAll ACHIEVEMENT_DEFINITIONS S (unlockedAchievements st)).
Proof.
  unfold checkAchievements, checkAll. unfold_handlers.
  pose proof (checkAll_no_new S ACHIEVEMENT_DEFINITIONS
                (unlockedAchievements st) false) as Hno.
  destruct (fold_left (checkOne S) ACHIEVEMENT_DEFINITIONS
              (unlockedAchievements st, false)) as [nu [ | ]];
    cbn [fst snd] in *.
  - reflexivity.
  - symmetry. apply Hno. reflexivity.
Qed.

Lemma checkAchievements_keeps_known (S : Stats) (st : State) (w : World) :
  List.NoDup (unlockedAchievements st) -> known (unlockedAchievements st) ->
  List.NoDup (unlockedAchievements (fst (run (checkAchievements S) st w))) /\
  known (unlockedAchievements (fst (run (checkAchievements S) st w))).
Proof.
  intros Hnd Hknown. rewrite run_checkAchievements_unlocked. unfold checkAll.
  split.
  - apply checkAll_NoDup, Hnd.
  - intros x Hx. apply checkAll_In in Hx.
    destruct Hx as [ Hx | (a & Ha & <- & _) ]; [ apply Hknown, Hx | ].
    apply in_map, Ha.
Qed.

Lemma known_count (U : list Z) :
  List.NoDup U -> known U -> (List.length U <= totalCount)%nat.
Proof.
  intros Hnd Hknown. unfold totalCount.
  pose proof (NoDup_incl_length Hnd Hknown) as H.
  rewrite length_map in H. exact H.
Qed.

Lemma evaluate_all_cons (S : Stats) (Ss : list Stats) (s : State * World) :
  evaluate_all (S :: Ss) s
  = evaluate_all Ss (run (checkAchievements S) (fst s) (snd s)).
Proof. reflexivity. Qed.

Lemma evaluate_all_keeps_known (Ss : list Stats) :
  forall s : State * World,
  List.NoDup (unlockedAchievements (fst s)) ->
  known (unlockedAchievements (fst s)) ->
  List.NoDup (unlockedAchievements (fst (evaluate_all Ss s))) /\
  known (unlockedAchievements (fst (evaluate_all Ss s))) /\
  forall x, In x (unlockedAchievements (fst s)) ->
            In x (unlockedAchievements (fst (evaluate_all Ss s))).
Proof.
  induction Ss as [ | S Ss IH ]; intros s Hnd Hknown.
  - cbn [evaluate_all fold_left]. auto.
  - rewrite evaluate_all_cons.
    destruct (checkAchievements_keeps_known S (fst s) (snd s) Hnd Hknown)
      as [Hnd' Hknown'].
    destruct (IH (run (checkAchievements S) (fst s) (snd s)) Hnd' Hknown')
      as (Hnd'' & Hknown'' & Hkeep).
    split; [ exact Hnd'' | ]. split; [ exact Hknown'' | ].
    intros x Hx. apply Hkeep.
    rewrite run_checkAchievements_unlocked. unfold checkAll.
    apply checkAll_In. left. exact Hx.
Qed.

(** X15.  From an unlocked set without repeats that holds only ids of
    the catalog, any number of evaluations leaves such a set again;
    nothing is ever locked, and [unlockedCount] never exceeds
    [totalCount]. *)
Theorem unlockedCount_within_totalCount
    (Ss : list Stats) (st : State) (w : World) :
  List.NoDup (unlockedAchievements st) -> known (unlockedAchievements st) ->
  let st' := fst (evaluate_all Ss (st, w)) in
  (unlockedCount st' <= totalCount)%nat /\
  List.NoDup (unlockedAchievements st') /\
  known (unlockedAchievements st') /\
  forall x, In x (unlockedAchievements st) -> In x (unlockedAchievements st').
Proof.
  intros Hnd Hknown. cbv zeta.
  destruct (evaluate_all_keeps_known Ss (st, w) Hnd Hknown)
    as (Hnd' & Hknown' & Hkeep).
  split; [ apply known_count; assumption | ].
  split; [ exact Hnd' | ]. split; [ exact Hknown' | exact Hkeep ].
Qed.

Lemma unlockedCount_within_totalCount_witness :
  let Ss := [with_watch_time (Some 4000) zero_stats;
             with_videos_added (Some 10) zero_stats;
             with_watch_time (Some 4000000) zero_stats] in
  let st' := fst (evaluate_all Ss (initial_state, empty_world)) in
  unlockedAchievements st' = [4; 2; 6; 7; 8; 9; 10] /\
  (unlockedCount st' <= totalCount)%nat.
Proof.
  cbv zeta. split; [ vm_compute; reflexivity | ].
  assert (Hnd : List.NoDup (unlockedAchievements initial_state)) by constructor.
  assert (Hknown : known (unlockedAchievements initial_state)) by (intros x []).
  pose proof (unlockedCount_within_totalCount
           [with_watch_time (Some 4000) zero_stats;
            with_videos_added (Some 10) zero_stats;
            with_watch_time (Some 4000000) zero_stats]
           initial_state empty_world Hnd Hknown) as H.
  cbv zeta in H. destruct H as [H _]. exact H.
Defined.

(** ** Messages *)

Lemma trackMessageSent_state (st : State) (w : World) :
  run trackMessageSent st w
  = (set_stats (with_messages_sent
                  (Some (or0 (messages_sent (stats st)) + 1)) (stats st)) st,
     set_browser
       (safeLocalStorageSet STATS
          (js_of_stats (with_messages_sent
                          (Some (or0 (messages_sent (stats st)) + 1)) (stats st)))
          (browser w)) w).
Proof. reflexivity. Qed.

Lemma each_render_S (h : Handler unit) (n : nat) (s : State * World) :
  each_render h (Datatypes.S n) s
  = run h (fst (each_render h n s)) (snd (each_render h n s)).
Proof. reflexivity. Qed.

Lemma each_render_messages (n : nat) (s : State * World) :
  stats (fst (each_render trackMessageSent n s))
  = match n with
    | O => stats (fst s)
    | Datatypes.S _ =>
        with_messages_sent
          (Some (or0 (messages_sent (stats (fst s))) + Z.of_nat n))
          (stats (fst s))
    end.
Proof.
  induction n as [ | n IH ]; [ reflexivity | ].
  rewrite each_render_S, trackMessageSent_state. cbn [fst stats set_stats].
  rewrite IH. destruct n as [ | n ].
  - reflexivity.
  - cbn [messages_sent with_messages_sent]. rewrite or0_Some.
    unfold with_messages_sent. cbn [discord_connections videos_added
      watch_time max_queue_size sessions_played].
    do 2 f_equal. lia.
Qed.

(** X16.  [trackMessageSent], called [n] times with a render between
    the calls, adds [n] to [messages_sent] and leaves the other counters;
    from 50 on the evaluation unlocks achievement 3.  Called twice in
    one render it counts once. *)
Theorem trackMessageSent_counts_per_render
    (n : nat) (st : State) (w : World) :
  let s' := each_render trackMessageSent n (st, w) in
  or0 (messages_sent (stats (fst s')))
  = or0 (messages_sent (stats st)) + Z.of_nat n /\
  with_messages_sent (messages_sent (stats st)) (stats (fst s')) = stats st /\
  (50 <= or0 (messages_sent (stats st)) + Z.of_nat n ->
   In 3 (unlocked_after (stats (fst s')) (fst s') (snd s'))) /\
  stats (after (trackMessageSent;; trackMessageSent) st w)
  = stats (after trackMessageSent st w).
Proof.
  cbv zeta. rewrite each_render_messages. cbn [fst].
  assert (Hcount : or0 (messages_sent
              match n with
              | O => stats st
              | Datatypes.S _ =>
                  with_messages_sent
                    (Some (or0 (messages_sent (stats st)) + Z.of_nat n))
                    (stats st)
              end) = or0 (messages_sent (stats st)) + Z.of_nat n).
  { destruct n; [ cbn; lia | ].
    cbn [messages_sent with_messages_sent]. apply or0_Some. }
  split; [ exact Hcount | ]. split; [ | split ].
  - destruct n; destruct (stats st); reflexivity.
  - intros Hfifty.
    apply (met_is_unlocked_after _ _ _
             (Build_Achievement 3 "Chat Champion" "Sent 50 messages in chat"
                "💬" "messages_sent" 50)).
    + cbn. auto.
    + unfold shouldUnlock.
      cbn [AchievementManager.type String.eqb Ascii.eqb Bool.eqb target].
      rewrite Hcount. apply Z.geb_le. exact Hfifty.
  - reflexivity.
Qed.

Lemma indexOf_absent (l : list string) (x : string) :
  indexOf l x = -1 <-> ~ In x l.
Proof.
  induction l as [ | y l IH ]; cbn [indexOf In].
  - split; [ intros _ [] | reflexivity ].
  - destruct (String.eqb_spec y x) as [ -> | Hne ].
    + split; [ discriminate | intros H; exfalso; apply H; auto ].
    + pose proof (indexOf_bounds l x) as Hb.
      destruct (Z.eqb_spec (indexOf l x) (-1)) as [ E | E ].
      * split; [ | reflexivity ]. intros _ [ ? | Hin ]; [ congruence | ].
        apply IH in E. contradiction.
      * split; [ lia | ]. intros Hnin. exfalso. apply E, IH.
        intros Hin. apply Hnin. auto.
Qed.

Lemma indexOf_found (l : list string) (x : string) :
  indexOf l x <> -1 ->
  nth_error l (Z.to_nat (indexOf l x)) = Some x.
Proof.
  induction l as [ | y l IH ]; cbn [indexOf]; [ congruence | ].
  destruct (String.eqb_spec y x) as [ -> | Hne ]; [ reflexivity | ].
  pose proof (indexOf_bounds l x) as Hb.
  destruct (Z.eqb_spec (indexOf l x) (-1)) as [ E | E ]; [ congruence | ].
  intros _. replace (Z.to_nat (indexOf l x + 1))
    with (Datatypes.S (Z.to_nat (indexOf l x))) by lia.
  cbn [nth_error]. apply IH, E.
Qed.

Lemma nth_error_last {A} (l : list A) (x : A) :
  nth_error (l ++ [x]) (List.length l) = Some x.
Proof.
  induction l as [ | y l IH ]; [ reflexivity | exact IH ].
Qed.

(** X17.  After [playFromHistory] on an item with a source,
    [currentIndex] is a valid index whose queue entry is that source and
    playback is on; a source already in the queue is not added again,
    any other is appended. *)
Theorem playFromHistory_selects_item
    (item : HistoryItem) (st : State) (w : World) :
  src item <> "" ->
  let st' := after (playFromHistory item) st w in
  nth_error (youtubeQueue st') (Z.to_nat (currentIndex st')) = Some (src item) /\
  0 <= currentIndex st' < len (youtubeQueue st') /\
  isYoutubePlaying st' = true /\
  (In (src item) (youtubeQueue st) -> youtubeQueue st' = youtubeQueue st) /\
  (~ In (src item) (youtubeQueue st) ->
   youtubeQueue st' = youtubeQueue st ++ [src item]).
Proof.
  intros Hsrc. cbv zeta. apply String.eqb_neq in Hsrc.
  unfold_handlers. rewrite Hsrc. cbn [negb].
  pose proof (indexOf_bounds (youtubeQueue st) (src item)) as Hb.
  pose proof (indexOf_absent (youtubeQueue st) (src item)) as Habsent.
  destruct (Z.eqb_spec (indexOf (youtubeQueue st) (src item)) (-1)) as [ E | E ];
    cbn [negb]; cbv [fst snd]; simpl_state.
  - rewrite len_app_one.
    replace (Z.to_nat (len (youtubeQueue st) + 1 - 1))
      with (List.length (youtubeQueue st)) by (unfold len; lia).
    pose proof (len_nonneg (youtubeQueue st)).
    split; [ apply nth_error_last | ]. split; [ lia | ].
    split; [ reflexivity | ]. split; [ | reflexivity ].
    intros Hin. apply Habsent in E. contradiction.
  - split; [ apply indexOf_found, E | ]. split; [ lia | ].
    split; [ reflexivity | ]. split; [ reflexivity | ].
    intros Hnin. apply Habsent in Hnin. contradiction.
Qed.

Lemma playFromHistory_selects_item_witness :
  let st := set_youtubeQueue ["https://youtu.be/aaaaaaaaaaa"; sample_url]
              (set_currentIndex 0 initial_state) in
  let item := {| name := "YouTube - dQw4w9WgXcQ"; src := sample_url;
                 type := "youtube"; timestamp := "1/1/2025, 10:00:00 AM" |} in
  currentIndex (after (playFromHistory item) st empty_world) = 1 /\
  nth_error (youtubeQueue (after (playFromHistory item) st empty_world))
            (Z.to_nat (currentIndex (after (playFromHistory item) st empty_world)))
  = Some sample_url.
Proof.
  cbv zeta. split; [ reflexivity | ].
  apply (playFromHistory_selects_item
           {| name := "YouTube - dQw4w9WgXcQ"; src := sample_url;
              type := "youtube"; timestamp := "1/1/2025, 10:00:00 AM" |}).
  discriminate.
Defined.

(** ** Volume *)

Lemma validateNumber_in_range (value : JSValue) (min max : number) :
  num_leb min max = true ->
  num_leb min (validateNumber value min max) = true /\
  num_leb (validateNumber value min max) max = true.
Proof.
  intros Hle. unfold validateNumber.
  destruct (parseFloat value) as [ | | x | ];
    destruct min as [ | | lo | ]; try discriminate;
    destruct max as [ | | hi | ]; try discriminate;
    cbn in *;
    repeat match goal with
    | |- context [Qcltb ?a ?b] => destruct (Qcltb a b) eqn:?; cbn
    end;
    repeat split; try discriminate; qc_order.
Qed.

(** X18.  The volume is always between 0 and 1: whatever the slider
    sends, whatever the storage holds when the saved volume is loaded,
    and in the initial state; no queue operation touches it. *)
Theorem volume_stays_in_range :
  (forall (value : string) (st : State) (w : World),
     volume_in_range (volume (after (handleVolumeChange value) st w))) /\
  (forall (snap st : State) (w : World),
     volume_in_range (volume (fst (snd (loadVolumeEffect snap (st, w)))))) /\
  volume_in_range (volume initial_state) /\
  (forall (op : Op) (st : State) (w : World),
     volume (fst (step (st, w) op)) = volume st).
Proof.
  split; [ | split; [ | split ] ].
  - intros value st w. unfold_handlers. cbn [volume set_volume].
    apply validateNumber_in_range. reflexivity.
  - intros snap st w. unfold loadVolumeEffect.
    cbv [storageGet mbind mret handler_bind handler_ret rendered
         setState updateState modifyWorld getWorld fst snd].
    unfold safeLocalStorageGet.
    assert (Hone : volume_in_range (num_of_Z 1)) by (split; reflexivity).
    destruct (negb (window_defined (browser w))); [ exact Hone | ].
    destruct (getItem VOLUME (localStorage (browser w))) as [ [ item | ] | ];
      [ | exact Hone | exact Hone ].
    destruct (safeJsonParse item (JNumber (num_of_Z 1))) as [ | | | n | | | ];
      cbn [negb]; try exact Hone.
    destruct (num_leb (num_of_Z 0) n) eqn:H0;
      destruct (num_leb n (num_of_Z 1)) eqn:H1;
      cbn [andb negb volume set_volume]; try exact Hone.
    split; assumption.
  - split; reflexivity.
  - intros op st w. unfold step. cbn [fst snd].
    destruct op as [ url | | | item | event | vs | ].
    + unfold_handlers. split_ifs; reflexivity.
    + unfold_handlers. split_ifs; reflexivity.
    + unfold_handlers. split_ifs; reflexivity.
    + unfold_handlers. split_ifs; reflexivity.
    + cbn [handler_of].
      destruct (handleMessage_cases event st w) as [ -> | [ [? ->] | [? ->] ] ];
        reflexivity.
    + unfold_handlers. destruct vs as [ [u| ] [ps| ] [q| ] [i| ] ];
        cbn [queue index videoUrl playbackState]; split_ifs; reflexivity.
    + unfold_handlers. split_ifs; reflexivity.
Qed.

(** ** History *)

Lemma historyEffect_cases (youtubeUrl timestamp : string)
    (prev : list HistoryItem) :
  historyEffect youtubeUrl timestamp prev = prev \/
  exists videoId,
    getYoutubeVideoId youtubeUrl = Some videoId /\
    ~ In youtubeUrl (map src prev) /\
    historyEffect youtubeUrl timestamp prev
    = prev ++ [{| name := String.append "YouTube - " videoId;
                  src := youtubeUrl; type := "youtube";
                  timestamp := timestamp |}].
Proof.
  unfold historyEffect.
  destruct (negb (String.eqb youtubeUrl "")); [ | left; reflexivity ].
  destruct (getYoutubeVideoId youtubeUrl) as [ videoId | ];
    [ | left; reflexivity ].
  destruct (negb (String.eqb videoId "")); [ | left; reflexivity ].
  destruct (existsb _ prev) eqn:Hseen; [ left; reflexivity | ].
  right. exists videoId. split; [ reflexivity | ]. split; [ | reflexivity ].
  intros Hin. apply in_map_iff in Hin. destruct Hin as (it & Hsrc & Hit).
  assert (existsb (fun item => String.eqb (src item) youtubeUrl) prev = true).
  { apply existsb_exists. exists it. split; [ exact Hit | ].
    rewrite Hsrc. apply String.eqb_refl. }
  congruence.
Qed.

Lemma NoDup_snoc_string (l : list string) (x : string) :
  List.NoDup l -> ~ In x l -> List.NoDup (l ++ [x]).
Proof.
  induction 1 as [ | y l Hy Hl IH ]; intros Hx; cbn.
  - constructor; [ intros [] | constructor ].
  - constructor.
    + intros Hin. apply in_app_or in Hin. destruct Hin as [ ? | [ <- | [] ] ].
      * contradiction.
      * apply Hx. cbn. auto.
    + apply IH. intros Hin. apply Hx. cbn. auto.
Qed.

Lemma history_after_keeps (urls : list (string * string)) :
  forall start : list HistoryItem,
  List.NoDup (map src start) -> Forall well_formed start ->
  List.NoDup (map src (history_after urls start)) /\
  Forall well_formed (history_after urls start) /\
  exists added, history_after urls start = start ++ added.
Proof.
  unfold history_after.
  induction urls as [ | [url ts] urls IH ]; intros start Hnd Hwf;
    cbn [fold_left fst snd].
  - split; [ exact Hnd | ]. split; [ exact Hwf | ].
    exists []. rewrite app_nil_r. reflexivity.
  - destruct (historyEffect_cases url ts start)
      as [ -> | (videoId & Hid & Hfresh & ->) ].
    + apply IH; assumption.
    + destruct (IH (start ++ [{| name := String.append "YouTube - " videoId;
                                 src := url; type := "youtube";
                                 timestamp := ts |}]))
        as (Hnd' & Hwf' & added & Hadded).
      * rewrite map_app. cbn [map src]. apply NoDup_snoc_string; assumption.
      * apply Forall_app. split; [ exact Hwf | ].
        constructor; [ | constructor ].
        exists videoId. cbn [src name App.type]. auto.
      * split; [ exact Hnd' | ]. split; [ exact Hwf' | ].
        eexists. rewrite Hadded, <- app_assoc. reflexivity.
Qed.

Lemma history_after_sources (urls : list (string * string)) :
  forall (start : list HistoryItem) (item : HistoryItem),
  In item (history_after urls start) ->
  In item start \/ In (src item) (map fst urls).
Proof.
  unfold history_after. induction urls as [ | [url ts] urls IH ];
    intros start item Hin; cbn [fold_left fst snd map] in *.
  - left. exact Hin.
  - destruct (IH _ _ Hin) as [ Hstart | Hrest ]; [ | right; right; exact Hrest ].
    destruct (historyEffect_cases url ts start)
      as [ E | (videoId & _ & _ & E) ]; rewrite E in Hstart.
    + left. exact Hstart.
    + apply in_app_or in Hstart. destruct Hstart as [ ? | [ <- | [] ] ].
      * left. assumption.
      * right. left. reflexivity.
Qed.

(** X19.  Whatever values [youtubeUrl] takes, the history holds no
    source twice, and every entry is a URL that took the value, passes
    the validator and is named after its video id. *)
Theorem history_has_no_repeats (urls : list (string * string)) :
  let history := history_after urls [] in
  List.NoDup (map src history) /\
  Forall well_formed history /\
  (forall item, In item history -> isValidYoutubeUrl (src item) = true) /\
  (forall item, In item history -> In (src item) (map fst urls)).
Proof.
  cbv zeta.
  destruct (history_after_keeps urls [] ltac:(constructor) ltac:(constructor))
    as (Hnd & Hwf & _).
  split; [ exact Hnd | ]. split; [ exact Hwf | ]. split.
  - intros item Hin. rewrite List.Forall_forall in Hwf.
    destruct (Hwf item Hin) as (videoId & Hid & _).
    unfold isValidYoutubeUrl. rewrite Hid. reflexivity.
  - intros item Hin.
    destruct (history_after_sources urls [] item Hin) as [ [] | H ]. exact H.
Qed.

Lemma store_if_frame (c : bool) (key key' : string) (value : JSValue)
    (b : Browser) :
  key <> key' -> stored key' (store_if c key value b) = stored key' b.
Proof.
  intros Hne. unfold store_if, stored. destruct c; [ | reflexivity ].
  apply safeLocalStorageSet_other_key, Hne.
Qed.

(** What the identity effect leaves behind. *)
Lemma identityEffect_result
    (defaultUsername : string) (snap st : State) (w : World) :
  let b := browser w in
  let q := location_search w in
  let after_effect := snd (identityEffect defaultUsername snap (st, w)) in
  chatUsername (fst after_effect)
  = (if truthy_param (username q) then JString (sanitized_param (username q))
     else if negb (truthy (stored USERNAME b)) then JString defaultUsername
     else stored USERNAME b) /\
  discordConnected (fst after_effect)
  = (if redirected q then true
     else if truthy (stored DISCORD_AVATAR b) && truthy (stored DISCORD_USER_ID b)
     then true else discordConnected st) /\
  location_search (snd after_effect)
  = (if truthy_param (username q) || truthy_param (avatar q) ||
        truthy_param (userId q)
     then no_params else q) /\
  browser (snd after_effect)
  = store_if (redirected q) STATS
      (js_of_stats (with_discord_connections
                      (Some (or0 (discord_connections (stats snap)) + 1))
                      (stats snap)))
      (store_if (truthy_param (userId q)) DISCORD_USER_ID
         (JString (sanitized_param (userId q)))
         (store_if (truthy_param (avatar q)) DISCORD_AVATAR
            (JString (sanitized_param (avatar q)))
            (store_if (truthy_param (username q)) USERNAME
               (JString (sanitized_param (username q)))
               (store_if (negb (truthy (stored USERNAME b))) USERNAME
                  (JString defaultUsername) b)))).
Proof.
  cbv zeta. unfold identityEffect, redirected, stored, store_if, sanitized_param.
  cbv [trackDiscordConnection saveStats storageSet storageGet
       mbind mret handler_bind handler_ret rendered
       setState updateState modifyWorld getWorld fst snd].
  destruct (negb (truthy (safeLocalStorageGet USERNAME JNull None (browser w))));
    destruct (truthy (safeLocalStorageGet DISCORD_AVATAR JNull None (browser w)) &&
              truthy (safeLocalStorageGet DISCORD_USER_ID JNull None (browser w)));
    cbn [location_search set_browser browser];
    destruct (truthy_param (username (location_search w)));
    destruct (truthy_param (avatar (location_search w)));
    destruct (truthy_param (userId (location_search w)));
    cbn [andb orb location_search set_browser browser chatUsername
         discordConnected set_chatUsername set_discordConnected set_stats
         fst snd];
    repeat split.
Qed.

Lemma loadSavedData_keeps_identity (snap : State) (p : State * World) :
  snd (snd (loadSavedData snap p)) = snd p /\
  chatUsername (fst (snd (loadSavedData snap p))) = chatUsername (fst p) /\
  discordConnected (fst (snd (loadSavedData snap p))) = discordConnected (fst p).
Proof.
  destruct p as [st w]. unfold loadSavedData.
  cbv [storageGet mbind mret handler_bind handler_ret rendered
       setState updateState modifyWorld getWorld fst snd].
  destruct (truthy _); repeat split.
Qed.

Lemma first_check_finds_nothing (p : State * World) :
  snd (checkAchievementsEffect initial_state p) = p.
Proof. destruct p as [st w]. reflexivity. Qed.

Lemma loadVolumeEffect_keeps_identity (snap : State) (p : State * World) :
  snd (snd (loadVolumeEffect snap p)) = snd p /\
  chatUsername (fst (snd (loadVolumeEffect snap p))) = chatUsername (fst p) /\
  discordConnected (fst (snd (loadVolumeEffect snap p))) = discordConnected (fst p).
Proof.
  destruct p as [st w]. unfold loadVolumeEffect.
  cbv [storageGet mbind mret handler_bind handler_ret rendered
       setState updateState modifyWorld getWorld fst snd].
  destruct (safeLocalStorageGet _ _ _ _); repeat split.
Qed.

Lemma playCurrentEffect_keeps_identity (snap : State) (p : State * World) :
  snd (snd (playCurrentEffect snap p)) = snd p /\
  chatUsername (fst (snd (playCurrentEffect snap p))) = chatUsername (fst p) /\
  discordConnected (fst (snd (playCurrentEffect snap p))) = discordConnected (fst p).
Proof.
  destruct p as [st w]. unfold playCurrentEffect.
  cbv [mbind mret handler_bind handler_ret rendered
       setState updateState modifyWorld getWorld fst snd].
  destruct (_ && _); [ repeat split | ].
  destruct (_ =? _); repeat split.
Qed.

(** A page load: who the user is afterwards, and what the storage and
    the address hold. *)
Lemma mount_identity (defaultUsername : string) (w : World) :
  let b := browser w in
  let q := location_search w in
  let loaded := mount defaultUsername w in
  chatUsername (fst loaded)
  = (if truthy_param (username q) then JString (sanitized_param (username q))
     else if negb (truthy (stored USERNAME b)) then JString defaultUsername
     else stored USERNAME b) /\
  discordConnected (fst loaded)
  = (redirected q ||
     (truthy (stored DISCORD_AVATAR b) && truthy (stored DISCORD_USER_ID b))) /\
  location_search (snd loaded)
  = (if truthy_param (username q) || truthy_param (avatar q) ||
        truthy_param (userId q)
     then no_params else q) /\
  browser (snd loaded)
  = store_if (redirected q) STATS
      (js_of_stats (with_discord_connections (Some 1) zero_stats))
      (store_if (truthy_param (userId q)) DISCORD_USER_ID
         (JString (sanitized_param (userId q)))
         (store_if (truthy_param (avatar q)) DISCORD_AVATAR
            (JString (sanitized_param (avatar q)))
            (store_if (truthy_param (username q)) USERNAME
               (JString (sanitized_param (username q)))
               (store_if (negb (truthy (stored USERNAME b))) USERNAME
                  (JString defaultUsername) b)))).
Proof.
  cbv zeta. unfold mount, run, mountEffects. rewrite !bind_run.
  set (p1 := snd (loadSavedData initial_state (initial_state, w))).
  destruct (loadSavedData_keeps_identity initial_state (initial_state, w))
    as (Hw1 & Hu1 & Hc1). fold p1 in Hw1, Hu1, Hc1. cbn [fst snd] in Hw1, Hu1, Hc1.
  rewrite (first_check_finds_nothing p1).
  set (p3 := snd (identityEffect defaultUsername initial_state p1)).
  destruct (identityEffect_result defaultUsername initial_state (fst p1) (snd p1))
    as (Hu3 & Hc3 & Hq3 & Hb3).
  cbv zeta in Hu3, Hc3, Hq3, Hb3.
  rewrite <- surjective_pairing in Hu3, Hc3, Hq3, Hb3.
  fold p3 in Hu3, Hc3, Hq3, Hb3. rewrite Hw1 in Hu3, Hc3, Hq3, Hb3.
  rewrite Hc1 in Hc3.
  set (p4 := snd (loadVolumeEffect initial_state p3)).
  destruct (loadVolumeEffect_keeps_identity initial_state p3) as (Hw4 & Hu4 & Hc4).
  fold p4 in Hw4, Hu4, Hc4.
  destruct (playCurrentEffect_keeps_identity initial_state p4) as (Hw5 & Hu5 & Hc5).
  rewrite Hw5, Hu5, Hc5, Hw4, Hu4, Hc4, Hu3, Hc3, Hq3, Hb3.
  split; [ reflexivity | ]. split; [ | split; reflexivity ].
  cbn [discordConnected initial_state].
  destruct (redirected (location_search w)); [ reflexivity | ].
  destruct (truthy _ && truthy _); reflexivity.
Qed.

(** X20.  A page load with no stored username and none in the address
    shows the generated name and stores it; when the storage accepted
    it, every later load shows the same name, whatever it generates
    itself. *)
Theorem generated_username_is_kept
    (first second : string) (w : World) :
  truthy (stored USERNAME (browser w)) = false ->
  truthy_param (username (location_search w)) = false ->
  accepts USERNAME (JString first) (browser w) = true ->
  first <> "" ->
  let loaded := mount first w in
  chatUsername (fst loaded) = JString first /\
  stored USERNAME (browser (snd loaded)) = JString first /\
  chatUsername (fst (mount second (snd loaded))) = JString first.
Proof.
  intros Hnone Hparam Hacc Hname. cbv zeta.
  destruct (mount_identity first w) as (Hu & _ & Hq & Hb). cbv zeta in *.
  rewrite Hparam, Hnone in Hu, Hb. cbn [negb orb] in Hu, Hb, Hq.
  assert (Hstored : stored USERNAME (browser (snd (mount first w))) = JString first).
  { rewrite Hb.
    rewrite !store_if_frame by discriminate.
    unfold store_if at 1. unfold store_if. unfold stored.
    rewrite (safeLocalStorageGet_after_Set _ _ _ _ _ Hacc). cbv zeta.
    apply stored_string_reads_back. }
  assert (Hparam' : truthy_param (username (location_search (snd (mount first w))))
                    = false).
  { rewrite Hq. destruct (_ || _); [ reflexivity | exact Hparam ]. }
  split; [ exact Hu | ]. split; [ exact Hstored | ].
  destruct (mount_identity second (snd (mount first w))) as (Hu2 & _).
  cbv zeta in Hu2. rewrite Hu2, Hparam', Hstored.
  cbn [truthy]. apply String.eqb_neq in Hname. rewrite Hname. reflexivity.
Qed.

Lemma generated_username_is_kept_witness :
  chatUsername (fst (mount "EpicFan2" (snd (mount "CoolUser1" empty_world))))
  = JString "CoolUser1".
Proof.
  apply (generated_username_is_kept "CoolUser1" "EpicFan2" empty_world);
    [ reflexivity | reflexivity | vm_compute; reflexivity | discriminate ].
Defined.

Lemma handleDiscordDisconnect_result
    (defaultUsername : string) (st : State) (w : World) :
  run (handleDiscordDisconnect defaultUsername) st w
  = (set_chatUsername (JString defaultUsername) (set_discordConnected false st),
     set_browser
       (safeLocalStorageSet DISCORD_AVATAR JNull
          (safeLocalStorageSet DISCORD_USER_ID JNull
             (safeLocalStorageSet USERNAME (JString defaultUsername)
                (browser w)))) w).
Proof. reflexivity. Qed.

(** X21.  After Disconnect the user is not connected and has the new
    name; when the storage accepted the write that clears the avatar,
    the next page load without the redirect's parameters shows the user
    as not connected. *)
Theorem disconnect_survives_reload
    (defaultUsername next : string) (st : State) (w : World) :
  let left := run (handleDiscordDisconnect defaultUsername) st w in
  redirected (location_search w) = false ->
  accepts DISCORD_AVATAR JNull
    (safeLocalStorageSet DISCORD_USER_ID JNull
       (safeLocalStorageSet USERNAME (JString defaultUsername) (browser w)))
  = true ->
  discordConnected (fst left) = false /\
  chatUsername (fst left) = JString defaultUsername /\
  stored DISCORD_AVATAR (browser (snd left)) = JNull /\
  discordConnected (fst (mount next (snd left))) = false.
Proof.
  cbv zeta. intros Hquery Hacc. rewrite handleDiscordDisconnect_result.
  cbn [fst snd]. split; [ reflexivity | ]. split; [ reflexivity | ].
  assert (Hgone : stored DISCORD_AVATAR
            (safeLocalStorageSet DISCORD_AVATAR JNull
               (safeLocalStorageSet DISCORD_USER_ID JNull
                  (safeLocalStorageSet USERNAME (JString defaultUsername)
                     (browser w)))) = JNull).
  { unfold stored. rewrite (safeLocalStorageGet_after_Set _ _ _ _ _ Hacc).
    reflexivity. }
  split; [ exact Hgone | ].
  match goal with
  | |- discordConnected (fst (mount next ?w')) = false =>
      destruct (mount_identity next w') as (_ & Hc & _)
  end.
  cbv zeta in Hc. rewrite Hc. cbn [browser set_browser location_search].
  rewrite Hquery, Hgone. reflexivity.
Qed.

Lemma disconnect_survives_reload_witness :
  let connected := mount "CoolUser1" (arrive redirect_params empty_world) in
  let left := run (handleDiscordDisconnect "EpicFan2")
                  (fst connected) (snd connected) in
  discordConnected (fst connected) = true /\
  discordConnected (fst (mount "ProHero3" (snd connected))) = true /\
  discordConnected (fst (mount "ProHero3" (snd left))) = false.
Proof.
  cbv zeta. split; [ vm_compute; reflexivity | ].
  split; [ vm_compute; reflexivity | ].
  apply (disconnect_survives_reload "EpicFan2" "ProHero3"
           (fst (mount "CoolUser1" (arrive redirect_params empty_world)))
           (snd (mount "CoolUser1" (arrive redirect_params empty_world))));
    vm_compute; reflexivity.
Defined.
